(** * Statistics training notebooks: a shallow embedding

    The notebooks of this repository are short scripts over numpy, pandas,
    scikit-learn and statsmodels.  This development embeds the scripts
    (the LASSO cross-validation sweep, the final-model report, the
    Benjamini-Hochberg analyses, the contingency tables, and the cells
    that merge, recode, scale and balance the data) together with the
    library routines they call, and proves properties of the result.

    Numbers.  Finite IEEE doubles are rational numbers, and comparison,
    absolute value and the test against zero are exact on them, so
    coefficients, p-values, scores and regularisation strengths are
    values of [Q].  NaN is modelled by [None] where the scripts can
    produce it, and the one infinite value they can produce, [1 / 0.0] in
    the sweep, by [np.inf].  Arithmetic ([+], [/]) is the exact rational
    one: where the libraries round, a value can differ from the model's
    in its last place, and a comparison of two values that are equal in
    exact arithmetic can come out otherwise. *)

From Stdlib Require Import String.
From Stdlib Require Import List Bool Arith ZArith QArith Qabs Qround Lia Lqa.
From Stdlib Require Import Permutation Sorted SetoidList.
Import ListNotations.
Close Scope Q_scope.

(** ** Exceptions

    A Python exception is [None]; [x <- e ;; k] propagates it. *)

Definition obind {A B : Type} (o : option A) (k : A -> option B) : option B :=
  match o with
  | Some a => k a
  | None => None
  end.

Notation "x <- e ;; k" := (obind e (fun x => k))
  (at level 61, e at next level, right associativity).

(** ** numpy *)

Module np.

(** Insertion into a list sorted by [leb]: [x] goes before the first
    element it is not greater than. *)
Fixpoint insert {A : Type} (leb : A -> A -> bool) (x : A) (l : list A) : list A :=
  match l with
  | [] => [x]
  | y :: t => if leb x y then x :: y :: t else y :: insert leb x t
  end.

(** Stable insertion sort. *)
Fixpoint isort {A : Type} (leb : A -> A -> bool) (l : list A) : list A :=
  match l with
  | [] => []
  | x :: t => insert leb x (isort leb t)
  end.

(** [a.argsort()]: the indices that sort [a] in ascending order.  numpy
    promises a permutation of the indices along which the values ascend;
    its default kind is not stable, and the order it gives to equal
    values differs between builds.  The order chosen here is that of an
    insertion sort, which the default kind applies to short arrays. *)
Definition argsort (a : list Q) : list nat :=
  isort (fun i j => Qle_bool (nth i a 0%Q) (nth j a 0%Q)) (seq 0 (length a)).

(** [a[mask]] for a boolean [mask]: the entries of [a] where the mask is
    true; IndexError when the lengths differ. *)
Fixpoint select {A : Type} (mask : list bool) (a : list A) : list A :=
  match mask, a with
  | m :: mask', x :: a' => if m then x :: select mask' a' else select mask' a'
  | _, _ => []
  end.

Definition mask_index {A : Type} (mask : list bool) (a : list A) : option (list A) :=
  if length mask =? length a then Some (select mask a) else None.

(** [a[idx]] for an integer array [idx]; IndexError when an index is out
    of range. *)
Fixpoint take {A : Type} (a : list A) (idx : list nat) : option (list A) :=
  match idx with
  | [] => Some []
  | i :: idx' =>
      x <- nth_error a i ;;
      r <- take a idx' ;;
      Some (x :: r)
  end.

(** [np.count_nonzero]. *)
Definition count_nonzero (a : list Q) : nat :=
  length (filter (fun c => negb (Qeq_bool c 0%Q)) a).

(** [dst[mask] = vals]: the entries of [dst] under a true mask bit are
    replaced by the values in turn.  Wherever the scripts and the library
    use it there are as many values as true bits. *)
Fixpoint put_mask {A : Type} (mask : list bool) (vals : list A) (dst : list A) : list A :=
  match mask, dst with
  | m :: mask', d :: dst' =>
      if m then
        match vals with
        | v :: vals' => v :: put_mask mask' vals' dst'
        | [] => d :: put_mask mask' [] dst'
        end
      else d :: put_mask mask' vals dst'
  | _, _ => dst
  end.

(** [dst[i] = v] for one position. *)
Fixpoint set_nth {A : Type} (i : nat) (v : A) (dst : list A) : list A :=
  match dst, i with
  | [], _ => []
  | _ :: t, 0 => v :: t
  | d :: t, S i' => d :: set_nth i' v t
  end.

(** [dst[idx] = vals] for an integer array [idx]: assignments in turn,
    a later one overwrites an earlier one. *)
Fixpoint put {A : Type} (idx : list nat) (vals : list A) (dst : list A) : list A :=
  match idx, vals with
  | i :: idx', v :: vals' => put idx' vals' (set_nth i v dst)
  | _, _ => dst
  end.

(** [a[start::step]]. *)
Definition slice_step {A : Type} (start step : nat) (a : list A) : list A :=
  map snd
    (filter (fun pa => (start <=? fst pa) && ((fst pa - start) mod step =? 0))
       (combine (seq 0 (length a)) a)).

(** [np.bincount(x, minlength)]. *)
Definition bincount (x : list nat) (minlength : nat) : list nat :=
  let len := match x with
             | [] => minlength
             | _ => Nat.max minlength (S (list_max x))
             end in
  map (fun v => count_occ Nat.eq_dec x v) (seq 0 len).

(** [np.where(mask)[0]]: the positions of the true bits. *)
Definition where_ (mask : list bool) : list nat :=
  select mask (seq 0 (length mask)).

Definition sumQ (a : list Q) : Q := fold_right Qplus 0%Q a.

Definition Qnat (n : nat) : Q := inject_Z (Z.of_nat n).

(** A double that is finite or [inf]. *)
Inductive extended : Type :=
  | fin (q : Q)
  | inf.

(** [1 / x] for a numpy double [x]: dividing by [0.0] gives [inf] (and a
    RuntimeWarning), not an exception. *)
Definition reciprocal (x : Q) : extended :=
  if Qeq_bool x 0 then inf else fin (1 / x)%Q.

(** [0 < x]. *)
Definition positive (x : extended) : bool :=
  match x with
  | fin q => negb (Qle_bool q 0)
  | inf => true
  end.

(** A float array that may hold NaN: all its values, or [None] when one
    of them is NaN. *)
Fixpoint all_finite (a : list (option Q)) : option (list Q) :=
  match a with
  | [] => Some []
  | None :: _ => None
  | Some x :: t => r <- all_finite t ;; Some (x :: r)
  end.

(** [np.mean(a)]: NaN on an empty array and when an entry is NaN. *)
Definition mean (a : list (option Q)) : option Q :=
  xs <- all_finite a ;;
  match xs with
  | [] => None
  | _ => Some (sumQ xs / Qnat (length xs))%Q
  end.

(** The square of [np.std(a, ddof=1)], the sample variance.  The
    standard deviation is its square root, which is irrational in
    general; the aggregate keeps the square.  NaN on fewer than two
    entries. *)
Definition var_ddof1 (a : list (option Q)) : option Q :=
  xs <- all_finite a ;;
  m <- mean a ;;
  match length xs with
  | 0 | 1 => None
  | S n => Some (sumQ (map (fun x => (x - m) * (x - m))%Q xs) / Qnat n)%Q
  end.

(** *** numpy.random.RandomState

    The generator is an interface: a state seeded from an integer and a
    draw of a bounded integer. *)
Class RandomGen (G : Type) := {
  RandomState : Z -> G;
  randint : nat -> G -> nat * G
}.

Fixpoint insert_at {A : Type} (k : nat) (x : A) (l : list A) : list A :=
  match k, l with
  | S k', y :: t => y :: insert_at k' x t
  | _, _ => x :: l
  end.

(** [rng.shuffle] and [rng.permutation]: numpy shuffles by Fisher-Yates
    exchanges; this is the inside-out form of the same shuffle, each
    element placed at a drawn position among those already placed.  Which
    permutation a given generator state yields is left to the generator
    interface. *)
Fixpoint shuffle {G : Type} `{RandomGen G} {A : Type} (a : list A) (rng : G) : list A * G :=
  match a with
  | [] => ([], rng)
  | x :: t =>
      let '(t', rng1) := shuffle t rng in
      let '(k, rng2) := randint (S (length t')) rng1 in
      (insert_at (k mod S (length t')) x t', rng2)
  end.

End np.

(** ** Python dict with float keys (insertion-ordered) *)

Module dict.

Definition t (V : Type) : Type := list (Q * V).

(** [d[k] = v]: an existing key keeps its place and its key object. *)
Fixpoint set {V : Type} (d : t V) (k : Q) (v : V) : t V :=
  match d with
  | [] => [(k, v)]
  | (k', v') :: r => if Qeq_bool k' k then (k', v) :: r else (k', v') :: set r k v
  end.

(** [d[k]]; KeyError when absent. *)
Fixpoint get {V : Type} (d : t V) (k : Q) : option V :=
  match d with
  | [] => None
  | (k', v') :: r => if Qeq_bool k' k then Some v' else get r k
  end.

Definition keys {V : Type} (d : t V) : list Q := map fst d.

(** The keys after [d[k] = v]: [k] is appended unless an equal key is
    there already. *)
Definition add_key (ks : list Q) (k : Q) : list Q :=
  if existsb (fun k' => Qeq_bool k' k) ks then ks else ks ++ [k].

End dict.

(** [sorted(xs)] on floats. *)
Definition sorted (xs : list Q) : list Q := np.isort Qle_bool xs.

(** [x / y] on Python floats: ZeroDivisionError when [y] is zero. *)
Definition truediv (x y : Q) : option Q :=
  if Qeq_bool y 0 then None else Some (x / y)%Q.

(** ** Final-model report (notebooks 3.1, 3.2, 3.3, last code cell) *)

Module Report.

(** [coef != 0]. *)
Definition nonzero_mask (coef : list Q) : list bool :=
  map (fun c => negb (Qeq_bool c 0%Q)) coef.

(** The printed list: [zip(sorted_features, sorted_coefs)]. *)
Definition nonzero_report (columns : list string) (coef : list Q)
  : option (list (string * Q)) :=
  let nonzero_indices := nonzero_mask coef in
  nonzero_coefs <- np.mask_index nonzero_indices coef ;;
  nonzero_features <- np.mask_index nonzero_indices columns ;;
  let sorted_indices := rev (np.argsort (map Qabs nonzero_coefs)) in
  sorted_features <- np.take nonzero_features sorted_indices ;;
  sorted_coefs <- np.take nonzero_coefs sorted_indices ;;
  Some (combine sorted_features sorted_coefs).

(** The (feature, coefficient) pairs with a non-zero coefficient, in
    column order. *)
Definition nonzero_pairs (columns : list string) (coef : list Q) : list (string * Q) :=
  filter (fun p => negb (Qeq_bool (snd p) 0%Q)) (combine columns coef).

(** Every earlier entry is at least as large in magnitude as every later one. *)
Definition descending_magnitude (r : list (string * Q)) : Prop :=
  StronglySorted (fun p q => Qabs (snd q) <= Qabs (snd p))%Q r.

(** Position of a column name in the feature-column order. *)
Fixpoint column_index (columns : list string) (name : string) : option nat :=
  match columns with
  | [] => None
  | c :: t => if String.eqb c name then Some 0
              else option_map S (column_index t name)
  end.

(** Entries of equal magnitude come in column order. *)
Definition ties_in_column_order (columns : list string) (r : list (string * Q)) : Prop :=
  forall i j p q ci cj,
    i < j -> nth_error r i = Some p -> nth_error r j = Some q ->
    (Qabs (snd p) == Qabs (snd q))%Q ->
    column_index columns (fst p) = Some ci ->
    column_index columns (fst q) = Some cj ->
    ci < cj.

End Report.

(** Two index arrays without a common index. *)
Definition disjoint (a b : list nat) : Prop := forall i, In i a -> ~ In i b.

(** A score between 0 and 1. *)
Definition unit_interval (q : Q) : Prop := (0 <= q /\ q <= 1)%Q.

(** ** scikit-learn *)

Module sklearn.

(** Binary outcome labels: [true] is class 1, [false] is class 0. *)
Definition count (c : bool) (y : list bool) : nat := count_occ bool_dec y c.

(** The [random_state] argument: an integer seed, or [None] for numpy's
    global generator. *)
Inductive random_state : Type :=
  | rs_int (seed : Z)
  | rs_none.

Section Generator.
Context {G : Type} `{np.RandomGen G}.

(** [rng = check_random_state(random_state)] followed by code drawing
    from [rng]: an integer seed makes a fresh generator and leaves the
    global one alone; [None] draws from the global one and advances it. *)
Definition with_random_state {A : Type} (rs : random_state)
  (f : G -> option (A * G)) (global : G) : option (A * G) :=
  match rs with
  | rs_int seed => r <- f (np.RandomState seed) ;; Some (fst r, global)
  | rs_none => f global
  end.

(** *** StratifiedKFold *)

Record StratifiedKFold : Type := {
  n_splits : nat;
  shuffle : bool;
  random_state_of : random_state
}.

(** The constructor rejects fewer than two splits, and a seed without
    shuffling. *)
Definition new_StratifiedKFold (n_splits : nat) (shuffle : bool) (rs : random_state)
  : option StratifiedKFold :=
  if n_splits <=? 1 then None
  else match shuffle, rs with
       | false, rs_int _ => None
       | _, _ => Some {| n_splits := n_splits; shuffle := shuffle; random_state_of := rs |}
       end.

(** Classes numbered by order of first appearance in [y]. *)
Definition encode (y : list bool) : list nat :=
  match y with
  | [] => []
  | first :: _ => map (fun b => if Bool.eqb b first then 0 else 1) y
  end.

Definition n_classes (y_encoded : list nat) : nat :=
  match y_encoded with
  | [] => 0
  | _ => S (list_max y_encoded)
  end.

(** [allocation[i][c]]: the number of samples of class [c] in test fold
    [i], by round robin over the sorted labels. *)
Definition allocation (k : nat) (y_encoded : list nat) : list (list nat) :=
  let y_order := np.isort Nat.leb y_encoded in
  map (fun i => np.bincount (np.slice_step i k y_order) (n_classes y_encoded))
      (seq 0 k).

(** [np.arange(k).repeat(allocation[:, c])]. *)
Definition folds_for_class (k : nat) (alloc : list (list nat)) (c : nat) : list nat :=
  flat_map (fun i => repeat i (nth c (nth i alloc []) 0)) (seq 0 k).

(** The loop over the classes: the fold numbers of a class are shuffled
    and written to the positions of its samples. *)
Fixpoint assign_folds (kf : StratifiedKFold) (alloc : list (list nat))
  (y_encoded : list nat) (classes : list nat) (test_folds : list nat) (rng : G)
  : list nat * G :=
  match classes with
  | [] => (test_folds, rng)
  | c :: cs =>
      let folds := folds_for_class (n_splits kf) alloc c in
      let '(folds', rng') :=
        if shuffle kf then np.shuffle folds rng else (folds, rng) in
      assign_folds kf alloc y_encoded cs
        (np.put_mask (map (Nat.eqb c) y_encoded) folds' test_folds) rng'
  end.

(** [_make_test_folds]: the fold number of every sample.  ValueError
    when every class has fewer members than there are splits. *)
Definition make_test_folds (kf : StratifiedKFold) (y : list bool) (rng : G)
  : option (list nat * G) :=
  let y_encoded := encode y in
  let y_counts := np.bincount y_encoded 0 in
  if forallb (fun c => c <? n_splits kf) y_counts then None
  else Some (assign_folds kf (allocation (n_splits kf) y_encoded) y_encoded
               (seq 0 (n_classes y_encoded)) (repeat 0 (length y)) rng).

(** The (train, test) index arrays of the folds. *)
Definition folds_of (k : nat) (test_folds : list nat) : list (list nat * list nat) :=
  map (fun i =>
         let test_mask := map (Nat.eqb i) test_folds in
         (np.where_ (map negb test_mask), np.where_ test_mask))
      (seq 0 k).

(** [kf.split(X, y)].  ValueError with more splits than samples. *)
Definition split (kf : StratifiedKFold) (n_samples : nat) (y : list bool) (global : G)
  : option (list (list nat * list nat) * G) :=
  if n_samples <? n_splits kf then None
  else
    r <- with_random_state (random_state_of kf) (make_test_folds kf y) global ;;
    Some (folds_of (n_splits kf) (fst r), snd r).

(** *** train_test_split with [stratify=y]

    [_approximate_mode] distributes the draws over the classes by
    floating-point rounding and random tie-breaking; it is a parameter. *)
Class ApproximateMode : Type :=
  approximate_mode : list nat -> nat -> G -> list nat * G.

Context `{ApproximateMode}.

Definition classes_of (y : list bool) : list bool :=
  filter (fun c => existsb (Bool.eqb c) y) [false; true].

Definition class_indices (y : list bool) (c : bool) : list nat :=
  np.where_ (map (Bool.eqb c) y).

(** Per class: permute its indices, the first [n] go to train and the
    next [t] to test. *)
Fixpoint draw_classes (cls : list (list nat * (nat * nat))) (rng : G)
  : (list nat * list nat) * G :=
  match cls with
  | [] => (([], []), rng)
  | (ci, (n, t)) :: rest =>
      let '(perm, rng1) := np.shuffle ci rng in
      let '((train, test), rng2) := draw_classes rest rng1 in
      ((firstn n perm ++ train, firstn t (skipn n perm) ++ test), rng2)
  end.

(** One iteration of [StratifiedShuffleSplit]. *)
Definition stratified_shuffle_split (y : list bool) (n_train n_test : nat) (rng : G)
  : option ((list nat * list nat) * G) :=
  let classes := classes_of y in
  let class_counts := map (fun c => count c y) classes in
  if existsb (fun c => c <? 2) class_counts then None
  else if n_train <? length classes then None
  else if n_test <? length classes then None
  else
    let '(n_i, rng1) := approximate_mode class_counts n_train rng in
    let class_counts_remaining :=
      map (fun cn => fst cn - snd cn) (combine class_counts n_i) in
    let '(t_i, rng2) := approximate_mode class_counts_remaining n_test rng1 in
    let cls := combine (map (class_indices y) classes) (combine n_i t_i) in
    let '((train, test), rng3) := draw_classes cls rng2 in
    let '(train', rng4) := np.shuffle train rng3 in
    let '(test', rng5) := np.shuffle test rng4 in
    Some ((train', test'), rng5).

Record split_data : Type := {
  X_train : list (list Q);
  X_holdout : list (list Q);
  y_train : list bool;
  y_holdout : list bool;
  train_index : list nat;
  holdout_index : list nat
}.

(** [train_test_split(X, y, test_size, random_state, stratify=y)].  The
    index arrays are kept next to the four data sets they select. *)
Definition train_test_split (X : list (list Q)) (y : list bool) (test_size : Q)
  (rs : random_state) (global : G) : option (split_data * G) :=
  if negb (length X =? length y) then None
  else if negb (Qle_bool test_size 0) && negb (Qle_bool 1 test_size) then
    let n_samples := length X in
    let n_test := Z.to_nat (Qceiling (test_size * np.Qnat n_samples)) in
    let n_train := n_samples - n_test in
    if n_train =? 0 then None
    else
      r <- with_random_state rs (stratified_shuffle_split y n_train n_test) global ;;
      let '((train, test), global') := r in
      Xtr <- np.take X train ;;
      Xho <- np.take X test ;;
      ytr <- np.take y train ;;
      yho <- np.take y test ;;
      Some ({| X_train := Xtr; X_holdout := Xho; y_train := ytr; y_holdout := yho;
               train_index := train; holdout_index := test |}, global')
  else None.

End Generator.

(** The labels are valid for [k] folds: both classes have at least [k]
    members. *)
Definition enough_of_each (k : nat) (y : list bool) : Prop :=
  k <= count true y /\ k <= count false y.

(** The folds are a [k]-way partition of the samples [0 .. n-1]: every
    sample is in the test part of exactly one fold and in the train part
    of all the others. *)
Definition k_way_partition (n k : nat) (folds : list (list nat * list nat)) : Prop :=
  length folds = k /\
  forall j, j < n ->
    exists i, i < k /\
      forall i' fold, nth_error folds i' = Some fold ->
        (In j (snd fold) <-> i' = i) /\ (In j (fst fold) <-> i' <> i).

(** *** Metrics *)

(** Recall of class [c]: the fraction of its samples predicted as [c]. *)
Definition recall (c : bool) (y_true y_pred : list bool) : Q :=
  (np.Qnat (length (filter (fun tp => Bool.eqb (fst tp) c && Bool.eqb (snd tp) c)
                      (combine y_true y_pred)))
   / np.Qnat (count c y_true))%Q.

(** [balanced_accuracy_score]: the mean recall over the classes present
    in [y_true]. *)
Definition balanced_accuracy_score (y_true y_pred : list bool) : option Q :=
  match count true y_true, count false y_true with
  | 0, 0 => None
  | 0, _ => Some (recall false y_true y_pred)
  | _, 0 => Some (recall true y_true y_pred)
  | _, _ => Some ((recall true y_true y_pred + recall false y_true y_pred) / (2#1))%Q
  end.

(** Credit of a (positive, negative) pair of scores. *)
Definition pair_credit (s_pos s_neg : Q) : Q :=
  if Qle_bool s_pos s_neg then (if Qle_bool s_neg s_pos then (1#2)%Q else 0%Q)
  else 1%Q.

(** [roc_auc_score]: the area under the ROC curve.  sklearn integrates
    the curve by the trapezoidal rule; the area is the fraction of
    (positive, negative) pairs ranked in the right order, ties counting
    one half.  With only one class present in [y_true] the area is not
    defined: [None]. *)
Definition roc_auc_score (y_true : list bool) (y_score : list Q) : option Q :=
  let ys := combine y_true y_score in
  let pos := map snd (filter (fun p => fst p) ys) in
  let neg := map snd (filter (fun p => negb (fst p)) ys) in
  match pos, neg with
  | [], _ | _, [] => None
  | _, _ =>
      Some (np.sumQ (map (fun sp => np.sumQ (map (pair_credit sp) neg)) pos)
            / (np.Qnat (length pos) * np.Qnat (length neg)))%Q
  end.

(** What a direct call of [roc_auc_score] does when the area is not
    defined depends on the version of scikit-learn: before 1.6 it raises
    ValueError, from 1.6 on it warns and returns NaN.  (A scorer inside
    [cross_validate] yields NaN in either case.) *)
Inductive version : Type :=
  | before_1_6
  | since_1_6.

Definition roc_auc_score_call (v : version) (y_true : list bool) (y_score : list Q)
  : option (option Q) :=
  match roc_auc_score y_true y_score, v with
  | Some a, _ => Some (Some a)
  | None, since_1_6 => Some None
  | None, before_1_6 => None
  end.

(** The two scores of a fold are defined and lie between 0 and 1. *)
Definition scores_unit {E : Type} (r : E * (option Q * option Q)) : Prop :=
  (exists b, fst (snd r) = Some b /\ unit_interval b) /\
  (exists a, snd (snd r) = Some a /\ unit_interval a).

(** *** Estimators

    [LogisticRegression(penalty="l1", solver="saga", max_iter, C)] is an
    interface.  [fit] is the solver: it gets the inverse regularisation
    strength [C], the iteration bound and the training data; as
    [random_state] is left unset the solver draws from the global
    generator. *)
Class Estimator (G E : Type) := {
  fit : np.extended -> nat -> list (list Q) -> list bool -> G -> E * G;
  predict : E -> list Q -> bool;
  predict_proba : E -> list Q -> Q;
  decision_function : E -> list Q -> Q;
  coef_ : E -> list Q
}.

Section Fit.
Context {G E : Type} `{Estimator G E}.

(** [model.fit(X, y)]: before the solver runs, the parameter check
    rejects a [C] that is not positive ([inf] passes it) and the label
    check rejects training labels of one class. *)
Definition LogisticRegression_fit (C : np.extended) (max_iter : nat)
  (X : list (list Q)) (y : list bool) (global : G) : option (E * G) :=
  if negb (np.positive C) then None
  else if (count true y =? 0) || (count false y =? 0) then None
  else Some (fit C max_iter X y global).

End Fit.

(** *** cross_validate *)

Record cv_results (E : Type) : Type := {
  test_balanced_accuracy : list (option Q);
  test_roc_auc : list (option Q);
  estimator : list E;
  indices : list (list nat * list nat)
}.
Arguments test_balanced_accuracy {E}.
Arguments test_roc_auc {E}.
Arguments estimator {E}.
Arguments indices {E}.

Section CrossValidate.
Context {G E : Type} `{np.RandomGen G} `{Estimator G E}.

(** One fold: fit on the train rows, score on the test rows.  A scorer
    that raises gives NaN ([error_score]).  A fit that raises ends the
    run: in [cross_validate] when the fits of all folds fail, and else in
    the aggregation cell, which reads [coef_] of the unfitted estimator
    that [cross_validate] hands back for the fold. *)
Definition fit_and_score (C : np.extended) (max_iter : nat) (X : list (list Q))
  (y : list bool) (fold : list nat * list nat) (global : G)
  : option ((E * (option Q * option Q)) * G) :=
  Xtr <- np.take X (fst fold) ;;
  ytr <- np.take y (fst fold) ;;
  Xte <- np.take X (snd fold) ;;
  yte <- np.take y (snd fold) ;;
  r <- LogisticRegression_fit C max_iter Xtr ytr global ;;
  let '(est, global') := r in
  Some ((est, (balanced_accuracy_score yte (map (predict est) Xte),
               roc_auc_score yte (map (decision_function est) Xte))), global').

Fixpoint fit_folds (C : np.extended) (max_iter : nat) (X : list (list Q))
  (y : list bool) (folds : list (list nat * list nat)) (global : G)
  : option (list (E * (option Q * option Q)) * G) :=
  match folds with
  | [] => Some ([], global)
  | fold :: rest =>
      r <- fit_and_score C max_iter X y fold global ;;
      rs <- fit_folds C max_iter X y rest (snd r) ;;
      Some (fst r :: fst rs, snd rs)
  end.

(** [cross_validate(model, X, y, cv=kf, return_estimator=True,
    scoring=['balanced_accuracy', 'roc_auc'], n_jobs=-1)]; [indices]
    records the folds that were used.  The folds are fitted one after the
    other here; sklearn hands them to worker processes, which changes the
    generator state a fit starts from, not the rows it is given. *)
Definition cross_validate (C : np.extended) (max_iter : nat) (X : list (list Q))
  (y : list bool) (kf : StratifiedKFold) (global : G) : option (cv_results E * G) :=
  if negb (length X =? length y) then None
  else
    sp <- split kf (length X) y global ;;
    rs <- fit_folds C max_iter X y (fst sp) (snd sp) ;;
    Some ({| test_balanced_accuracy := map (fun r => fst (snd r)) (fst rs);
             test_roc_auc := map (fun r => snd (snd r)) (fst rs);
             estimator := map fst (fst rs);
             indices := fst sp |}, snd rs).

(** A record of a cross-validation at [C]: for every fold it holds an
    estimator that is the solver's result at [C] on the training rows of
    the fold, and the two scores of this estimator on the test rows of
    the fold. *)
Definition fitted_and_scored (C : np.extended) (max_iter : nat) (X : list (list Q))
  (y : list bool) (cv : cv_results E) : Prop :=
  length (estimator cv) = length (indices cv) /\
  length (test_balanced_accuracy cv) = length (indices cv) /\
  length (test_roc_auc cv) = length (indices cv) /\
  forall i fold, nth_error (indices cv) i = Some fold ->
    exists X_tr y_tr X_te y_te (g : G) est,
      np.take X (fst fold) = Some X_tr /\ np.take y (fst fold) = Some y_tr /\
      np.take X (snd fold) = Some X_te /\ np.take y (snd fold) = Some y_te /\
      est = fst (fit C max_iter X_tr y_tr g) /\
      nth_error (estimator cv) i = Some est /\
      nth_error (test_balanced_accuracy cv) i
      = Some (balanced_accuracy_score y_te (map (predict est) X_te)) /\
      nth_error (test_roc_auc cv) i
      = Some (roc_auc_score y_te (map (decision_function est) X_te)).

End CrossValidate.

End sklearn.

(** ** LASSO notebooks (3.1, 3.2, 3.3) *)

Module Lasso.
Import sklearn.

(** One line of the summary table. *)
Record aggregate : Type := {
  lambda_val : Q;
  mean_bal_acc : option Q;
  var_bal_acc : option Q;
  mean_roc_auc : option Q;
  var_roc_auc : option Q;
  mean_nonzero : option Q;
  var_nonzero : option Q
}.

Section Notebook.
Context {G E : Type} `{np.RandomGen G} `{Estimator G E}.

(** Step 3, first cell: the loop over the lambda values.  They are the
    entries of a numpy array ([np.logspace]), so [1/lambda_val] is numpy's
    division. *)
Fixpoint sweep_loop (lambda_vals : list Q) (max_iter : nat)
  (X_train : list (list Q)) (y_train : list bool) (kf : StratifiedKFold)
  (results_dict : dict.t (cv_results E)) (global : G)
  : option (dict.t (cv_results E) * G) :=
  match lambda_vals with
  | [] => Some (results_dict, global)
  | lambda_val :: rest =>
      r <- cross_validate (np.reciprocal lambda_val) max_iter X_train y_train kf
             global ;;
      sweep_loop rest max_iter X_train y_train kf
        (dict.set results_dict lambda_val (fst r)) (snd r)
  end.

(** Step 3, second cell: the body of the loop over the sorted lambda
    values. *)
Definition aggregate_row (lambda_val : Q) (cv_results : cv_results E) : aggregate :=
  let test_bal_acc := test_balanced_accuracy cv_results in
  let test_roc_auc := test_roc_auc cv_results in
  let nonzero_counts :=
    map (fun estimator => Some (np.Qnat (np.count_nonzero (coef_ estimator))))
        (estimator cv_results) in
  {| lambda_val := lambda_val;
     mean_bal_acc := np.mean test_bal_acc;
     var_bal_acc := np.var_ddof1 test_bal_acc;
     mean_roc_auc := np.mean test_roc_auc;
     var_roc_auc := np.var_ddof1 test_roc_auc;
     mean_nonzero := np.mean nonzero_counts;
     var_nonzero := np.var_ddof1 nonzero_counts |}.

Fixpoint aggregate_loop (results_dict : dict.t (cv_results E)) (lambda_vals : list Q)
  : option (list aggregate) :=
  match lambda_vals with
  | [] => Some []
  | lambda_val :: rest =>
      cv_results <- dict.get results_dict lambda_val ;;
      rows <- aggregate_loop results_dict rest ;;
      Some (aggregate_row lambda_val cv_results :: rows)
  end.

Definition aggregate_metrics (results_dict : dict.t (cv_results E)) : option (list aggregate) :=
  let lambda_vals := sorted (dict.keys results_dict) in
  aggregate_loop results_dict lambda_vals.

(** The sweep: the fold generator is made once, then the loop over the
    candidates, then the aggregation. *)
Definition sweep (X_train : list (list Q)) (y_train : list bool) (Nfolds : nat)
  (lambda_vals : list Q) (max_iter : nat) (random_seed : Z) (global : G)
  : option ((dict.t (cv_results E) * list aggregate) * G) :=
  kf <- new_StratifiedKFold Nfolds true (rs_int random_seed) ;;
  r <- sweep_loop lambda_vals max_iter X_train y_train kf [] global ;;
  rows <- aggregate_metrics (fst r) ;;
  Some ((fst r, rows), snd r).

(** Step 4: fit on the training set, score on the holdout set.  The
    AUROC can be NaN. *)
Record holdout_scores : Type := {
  final_model : E;
  y_holdout_pred_prob : list Q;
  y_holdout_pred : list bool;
  holdout_auroc : option Q;
  holdout_bal_acc : Q
}.

(** [final_lambda] is a Python float, so [1/final_lambda] raises on zero;
    the metrics raise on predictions and labels of different lengths. *)
Definition holdout_evaluation (v : version) (d : split_data) (final_lambda : Q)
  (max_iter : nat) (global : G) : option (holdout_scores * G) :=
  C <- truediv 1 final_lambda ;;
  r <- LogisticRegression_fit (np.fin C) max_iter (X_train d) (y_train d) global ;;
  let '(final_model, global') := r in
  let y_holdout_pred_prob := map (predict_proba final_model) (X_holdout d) in
  let y_holdout_pred := map (predict final_model) (X_holdout d) in
  if negb (length (X_holdout d) =? length (y_holdout d)) then None
  else
    holdout_auroc <- roc_auc_score_call v (y_holdout d) y_holdout_pred_prob ;;
    holdout_bal_acc <- balanced_accuracy_score (y_holdout d) y_holdout_pred ;;
    Some ({| final_model := final_model;
             y_holdout_pred_prob := y_holdout_pred_prob;
             y_holdout_pred := y_holdout_pred;
             holdout_auroc := holdout_auroc;
             holdout_bal_acc := holdout_bal_acc |}, global').

(** Step 4, the printed coefficients. *)
Definition final_report (columns : list string) (s : holdout_scores)
  : option (list (string * Q)) :=
  Report.nonzero_report columns (coef_ (final_model s)).

End Notebook.

Section Pipeline.
Context {G E : Type} `{np.RandomGen G} `{@ApproximateMode G} `{Estimator G E}.

Record outcome : Type := {
  table : list aggregate;
  holdout : holdout_scores (E := E);
  coefficients : list (string * Q)
}.

(** A notebook from Step 2 to Step 4: split, sweep, final model. *)
Definition notebook (v : version) (columns : list string) (X : list (list Q))
  (y : list bool) (Nfolds : nat) (lambda_vals : list Q) (final_lambda : Q)
  (max_iter : nat) (random_seed : Z) (global : G) : option (outcome * G) :=
  sp <- train_test_split X y (1#5) (rs_int random_seed) global ;;
  sw <- sweep (X_train (fst sp)) (y_train (fst sp)) Nfolds lambda_vals max_iter
          random_seed (snd sp) ;;
  ev <- holdout_evaluation v (fst sp) final_lambda max_iter (snd sw) ;;
  report <- final_report columns (fst ev) ;;
  Some ({| table := snd (fst sw); holdout := fst ev; coefficients := report |},
        snd ev).

End Pipeline.

(** Feature column [j]. *)
Definition column (j : nat) (X : list (list Q)) : list Q :=
  map (fun row => nth j row 0%Q) X.

(** A data set with [p] standardized features: every column has mean 0
    and (population) variance 1, that is, its entries add up to 0 and
    their squares to the number of samples. *)
Definition standardized (X : list (list Q)) (p : nat) : bool :=
  forallb (fun row => length row =? p) X
  && forallb (fun j =>
                let c := column j X in
                Qeq_bool (np.sumQ c) 0
                && Qeq_bool (np.sumQ (map (fun x => x * x)%Q c)) (np.Qnat (length c)))
       (seq 0 p).

End Lasso.

(** ** statsmodels: multipletests(method='fdr_bh') *)

Module statsmodels.

Definition Qltb (a b : Q) : bool := negb (Qle_bool b a).

Definition minimum (a b : Q) : Q := if Qle_bool a b then a else b.

(** [np.minimum.accumulate]. *)
Fixpoint minimum_accumulate_from (m : Q) (a : list Q) : list Q :=
  match a with
  | [] => []
  | x :: t => minimum m x :: minimum_accumulate_from (minimum m x) t
  end.

Definition minimum_accumulate (a : list Q) : list Q :=
  match a with
  | [] => []
  | x :: t => x :: minimum_accumulate_from x t
  end.

(** [_ecdf]: [arange(1, nobs+1) / nobs]. *)
Definition ecdf (nobs : nat) : list Q :=
  map (fun i => (np.Qnat i / np.Qnat nobs)%Q) (seq 1 nobs).

(** [a[a > 1] = 1]. *)
Definition clip_one (a : list Q) : list Q :=
  map (fun p => if Qltb 1 p then 1%Q else p) a.

(** [reject[:rejectmax] = True] with [rejectmax] the last true position. *)
Definition reject_upto_max (reject : list bool) : list bool :=
  match rev (np.where_ reject) with
  | [] => reject
  | rejectmax :: _ => repeat true rejectmax ++ skipn rejectmax reject
  end.

(** [fdrcorrection(pvals, alpha, method='indep', is_sorted=True)], in
    exact arithmetic. *)
Definition fdrcorrection (pvals_sorted : list Q) (alpha : Q) : list bool * list Q :=
  let ecdffactor := ecdf (length pvals_sorted) in
  let reject :=
    map (fun pe => Qle_bool (fst pe) (snd pe * alpha)) (combine pvals_sorted ecdffactor) in
  let pvals_corrected_raw :=
    map (fun pe => (fst pe / snd pe)%Q) (combine pvals_sorted ecdffactor) in
  let pvals_corrected := rev (minimum_accumulate (rev pvals_corrected_raw)) in
  (reject_upto_max reject, clip_one pvals_corrected).

(** [multipletests(pvals, alpha, method='fdr_bh')]: the rejection flags
    and the corrected p-values, in the order of [pvals].  What happens to
    an empty vector depends on the version of statsmodels (0.14 raises
    ZeroDivisionError at [1./ntests]); here it comes back empty. *)
Definition multipletests (pvals : list Q) (alpha : Q) : option (list bool * list Q) :=
  let sortind := np.argsort pvals in
  pvals_sorted <- np.take pvals sortind ;;
  let '(reject, pvals_corrected) := fdrcorrection pvals_sorted alpha in
  let pvals_corrected := clip_one pvals_corrected in
  Some (np.put sortind reject (repeat false (length pvals)),
        np.put sortind pvals_corrected (repeat 0%Q (length pvals))).

End statsmodels.

(** ** FDR notebooks (4.1, 4.2, 4.3) *)

Module FDR.
Import statsmodels.

(** A float read from a CSV column: odds ratios can be infinite or NaN. *)
Inductive float : Type :=
  | finite (q : Q)
  | pos_inf
  | neg_inf
  | nan.

(** The odds ratio is exactly 1.0. *)
Definition is_one (o : float) : Prop :=
  match o with
  | finite q => (q == 1)%Q
  | _ => False
  end.

(** [col < alpha], [col != 1.0], [a & b], [mask.sum()] on pandas Series. *)
Definition series_lt (col : list Q) (alpha : Q) : list bool :=
  map (fun p => Qltb p alpha) col.

Definition series_ne_one (col : list float) : list bool :=
  map (fun o => match o with
                | finite q => negb (Qeq_bool q 1)
                | _ => true
                end) col.

Definition series_and (a b : list bool) : list bool :=
  map (fun ab => fst ab && snd ab) (combine a b).

Definition series_sum (mask : list bool) : nat :=
  length (filter (fun b => b) mask).

(** Notebooks 4.2 and 4.3: the numbers of uncorrected and of corrected
    p-values below [alpha]. *)
Definition significance_counts (p_value : list Q) (alpha : Q) : option (nat * nat) :=
  r <- multipletests p_value alpha ;;
  let p_value_adjust := snd r in
  let N_uncorr_acc := series_sum (series_lt p_value alpha) in
  let N_corr_acc := series_sum (series_lt p_value_adjust alpha) in
  Some (N_uncorr_acc, N_corr_acc).

(** Notebook 4.1: a row of [data9]. *)
Record pathway : Type := {
  odds_ratios : float;
  two_sided_p_values : Q
}.

Record pathway_analysis : Type := {
  two_sided_p_values_adjusted : list Q;
  N_uncorr_acc : nat;
  N_corr_acc : nat
}.

Definition pathway_counts (data9 : list pathway) (alpha : Q) : option pathway_analysis :=
  let p := map two_sided_p_values data9 in
  let o := map odds_ratios data9 in
  r <- multipletests p alpha ;;
  let adjusted := snd r in
  if negb (length adjusted =? length data9) then None
  else
    Some {| two_sided_p_values_adjusted := adjusted;
            N_uncorr_acc := series_sum (series_and (series_lt p alpha) (series_ne_one o));
            N_corr_acc := series_sum (series_and (series_lt adjusted alpha) (series_ne_one o)) |}.

End FDR.

(** ** Reference instances

    A small generator and a small learner, for running the notebooks on
    concrete data. *)

Module Reference.

(** A linear congruential generator. *)
Definition lcg_next (g : nat) : nat := (g * 33 + 7) mod 251.

#[global] Instance lcg : np.RandomGen nat := {|
  np.RandomState := fun seed => Z.to_nat (Z.abs seed);
  np.randint := fun _ g => (lcg_next g, lcg_next g)
|}.

(** Draws proportional to the class counts; the draws left over by the
    rounding go to the classes with the largest remainders. *)
#[global] Instance proportional : sklearn.ApproximateMode (G := nat) :=
  fun class_counts n_draws g =>
    let total := list_sum class_counts in
    let floors := map (fun c => (c * n_draws) / total) class_counts in
    let rems := map (fun c => (c * n_draws) mod total) class_counts in
    let order :=
      rev (np.isort (fun i j => nth i rems 0 <=? nth j rems 0)
             (seq 0 (length class_counts))) in
    let chosen := firstn (n_draws - list_sum floors) order in
    (map (fun i => nth i floors 0 + if existsb (Nat.eqb i) chosen then 1 else 0)
       (seq 0 (length class_counts)), g).

Definition soft_threshold (t v : Q) : Q :=
  if Qle_bool v t then (if Qle_bool (- t) v then 0 else v + t)%Q else (v - t)%Q.

Definition dot (w x : list Q) : Q :=
  np.sumQ (map (fun wx => (fst wx * snd wx)%Q) (combine w x)).

(** One soft-thresholded step from zero: the class-signed column sums,
    shrunk by [1/C] (by nothing for an infinite [C]). *)
Definition shrunken_sums (C : np.extended) (X : list (list Q)) (y : list bool)
  : list Q :=
  let p := match X with
           | [] => 0
           | row :: _ => length row
           end in
  map (fun j =>
         soft_threshold (match C with
                         | np.fin c => 1 / c
                         | np.inf => 0
                         end)%Q
           (np.sumQ (map (fun xy => if snd xy : bool then nth j (fst xy) 0%Q
                                    else (- nth j (fst xy) 0)%Q)
                       (combine X y))))
      (seq 0 p).

#[global] Instance learner : sklearn.Estimator nat (list Q) := {|
  sklearn.fit := fun C _ X y g => (shrunken_sums C X y, lcg_next g);
  sklearn.predict := fun w x => negb (Qle_bool (dot w x) 0);
  sklearn.predict_proba := fun w x =>
    ((1#2) + dot w x / ((2#1) * (1 + Qabs (dot w x))))%Q;
  sklearn.decision_function := fun w x => dot w x;
  sklearn.coef_ := fun w => w
|}.

(** A solver that uses its draws, as saga does when it picks samples:
    one soft-thresholded step from the row it draws.  It is no instance,
    so that the learner above stays the one that is found. *)
Definition drawn_row (C : np.extended) (X : list (list Q)) (y : list bool) (g : nat)
  : list Q * nat :=
  let '(i, g') := np.randint (length X) g in
  let row := nth (i mod length X) X [] in
  let c := nth (i mod length X) y false in
  (map (fun x => soft_threshold (match C with
                                 | np.fin c => 1 / c
                                 | np.inf => 0
                                 end)%Q
                   (if c then x else (- x)%Q)) row, g').

Definition sampling : sklearn.Estimator nat (list Q) := {|
  sklearn.fit := fun C _ X y g => drawn_row C X y g;
  sklearn.predict := fun w x => negb (Qle_bool (dot w x) 0);
  sklearn.predict_proba := fun w x =>
    ((1#2) + dot w x / ((2#1) * (1 + Qabs (dot w x))))%Q;
  sklearn.decision_function := fun w x => dot w x;
  sklearn.coef_ := fun w => w
|}.

(** Eight samples with two features, four of either class. *)
Definition small_X : list (list Q) :=
  [[3; 1]; [1; 0]; [-(1); 2]; [-(2); -(1)];
   [2; 2]; [1; -(3)]; [-(3); 0]; [-(1); -(1)]]%Q.

Definition small_y : list bool :=
  [true; true; false; false; true; true; false; false].

(** A data set of [n] samples and [p] features: the labels change every
    two rows; the first feature is 1 on class 1 and -1 on class 0, the
    other features alternate between 1 and -1 from row to row. *)
Definition toy_y (n : nat) : list bool :=
  map (fun i => i mod 4 <? 2) (seq 0 n).

Definition toy_X (n p : nat) : list (list Q) :=
  map (fun i =>
         map (fun j =>
                if (if j =? 0 then i mod 4 <? 2 else Nat.even i)
                then 1%Q else (-(1))%Q)
             (seq 0 p))
      (seq 0 n).

(** Holdout scores of a model with the coefficients [w]. *)
Definition toy_scores (w : list Q) : Lasso.holdout_scores (E := list Q) := {|
  Lasso.final_model := w;
  Lasso.y_holdout_pred_prob := [];
  Lasso.y_holdout_pred := [];
  Lasso.holdout_auroc := Some 1%Q;
  Lasso.holdout_bal_acc := 1
|}.

End Reference.

(** ** pandas *)

Module pandas.

(** A cell of an object column is a value or NaN: [option].  Two cells
    are the same key or the same value when both are NaN or both hold
    equal values; this is how [isin], [unique], [drop_duplicates] and
    [merge] treat them. *)
Definition cell_eqb {A : Type} (eqb : A -> A -> bool) (x y : option A) : bool :=
  match x, y with
  | Some a, Some b => eqb a b
  | None, None => true
  | _, _ => false
  end.

(** [s == v]: NaN is equal to nothing. *)
Definition series_eq {A : Type} (eqb : A -> A -> bool) (s : list (option A)) (v : A)
  : list bool :=
  map (fun c => match c with
                | Some x => eqb x v
                | None => false
                end) s.

(** [s.isin(values)]. *)
Definition isin {A : Type} (eqb : A -> A -> bool) (s values : list (option A))
  : list bool :=
  map (fun c => existsb (cell_eqb eqb c) values) s.

(** [s.unique()]: the distinct cells in the order of their first
    appearance. *)
Fixpoint unique {A : Type} (eqb : A -> A -> bool) (s : list (option A))
  : list (option A) :=
  match s with
  | [] => []
  | x :: t => x :: filter (fun y => negb (cell_eqb eqb y x)) (unique eqb t)
  end.

(** A frame or a series with its index: the rows, each with its label. *)
Definition indexed (R : Type) : Type := list (nat * R).

(** [pd.DataFrame(array)] and [pd.read_csv]: a [RangeIndex]. *)
Definition range_index {R : Type} (rows : list R) : indexed R :=
  combine (seq 0 (length rows)) rows.

Definition notna {A : Type} (c : option A) : bool :=
  match c with
  | Some _ => true
  | None => false
  end.

(** [df.dropna(subset=cols)]: the rows without NaN in the columns
    [cols]; they keep their labels. *)
Definition dropna {R A : Type} (cols : list (R -> option A)) (df : indexed R)
  : indexed R :=
  filter (fun lr => forallb (fun col => notna (col (snd lr))) cols) df.

(** [s.reset_index(drop=True)]. *)
Definition reset_index {R : Type} (s : indexed R) : indexed R :=
  range_index (map snd s).

Fixpoint lookup {V : Type} (label : nat) (s : indexed V) : option V :=
  match s with
  | [] => None
  | (l, v) :: t => if l =? label then Some v else lookup label t
  end.

Fixpoint has_duplicates (labels : list nat) : bool :=
  match labels with
  | [] => false
  | l :: t => existsb (Nat.eqb l) t || has_duplicates t
  end.

(** [df[col] = s] for a series [s]: the column that is stored.  The
    series is aligned on the index of the frame: a row gets the value
    that has its label in [s], or NaN when [s] has no such label.  A
    series with the very index of the frame is stored as it is, and so
    is any series when the frame has no rows yet; another one with a
    repeated label cannot be reindexed (ValueError). *)
Definition setitem_series {V : Type} (index : list nat) (s : indexed (option V))
  : option (list (option V)) :=
  if list_eq_dec Nat.eq_dec (map fst s) index then Some (map snd s)
  else if length index =? 0 then Some (map snd s)
  else if has_duplicates (map fst s) then None
  else Some (map (fun l => match lookup l s with
                           | Some v => v
                           | None => None
                           end) index).

(** [s.map(d)] for a dict [d]: a cell whose value is no key of [d]
    becomes NaN, and NaN stays NaN. *)
Definition series_map {K V : Type} (eqb : K -> K -> bool) (d : list (K * V))
  (s : list (option K)) : list (option V) :=
  map (fun c => match c with
                | Some k => option_map snd (find (fun kv => eqb (fst kv) k) d)
                | None => None
                end) s.

(** [df.drop_duplicates(subset=key, keep="first")]. *)
Fixpoint drop_duplicates_from {R K : Type} (eqb : K -> K -> bool) (key : R -> option K)
  (seen : list (option K)) (df : list R) : list R :=
  match df with
  | [] => []
  | r :: t =>
      if existsb (cell_eqb eqb (key r)) seen
      then drop_duplicates_from eqb key seen t
      else r :: drop_duplicates_from eqb key (key r :: seen) t
  end.

Definition drop_duplicates {R K : Type} (eqb : K -> K -> bool) (key : R -> option K)
  (df : list R) : list R :=
  drop_duplicates_from eqb key [] df.

(** [pd.merge(left, right, on=key, how="left")]: the rows of [left] in
    their order, each once per row of [right] with the same key, and
    once with NaN in the columns of [right] when there is none. *)
Definition merge_left {L R K : Type} (eqb : K -> K -> bool)
  (key_l : L -> option K) (key_r : R -> option K) (left : list L) (right : list R)
  : list (L * option R) :=
  flat_map (fun l =>
              match filter (fun r => cell_eqb eqb (key_r r) (key_l l)) right with
              | [] => [(l, None)]
              | matches => map (fun r => (l, Some r)) matches
              end) left.

End pandas.

(** ** Contingency tables (notebooks 1.1, 1.2, 1.3) *)

Module Fisher.

(** The 2x2 table, as the notebooks name its cells. *)
Record table : Type := {
  a : nat;
  b : nat;
  c : nat;
  d : nat
}.

(** [len(df[(df[c1] == v1) & (df[c2] == v2)])]. *)
Definition cell_count {R V : Type} (eqb : V -> V -> bool) (c1 c2 : R -> option V)
  (v1 v2 : V) (df : list R) : nat :=
  length (np.select
            (FDR.series_and (pandas.series_eq eqb (map c1 df) v1)
                            (pandas.series_eq eqb (map c2 df) v2))
            df).

Definition contingency_table {R V : Type} (eqb : V -> V -> bool)
  (feature outcome : R -> option V) (yes no : V) (df : list R) : table :=
  {| a := cell_count eqb feature outcome yes yes df;
     b := cell_count eqb feature outcome yes no df;
     c := cell_count eqb feature outcome no yes df;
     d := cell_count eqb feature outcome no no df |}.

(** Notebook 1.1: a row of [data1], and the table of entanglement
    against misfolding. *)
Record protein : Type := {
  gene : option string;
  NativeEnt : option bool;
  NonRefoldable : option bool
}.

Definition misfolding_table (data1 : list protein) : table :=
  contingency_table Bool.eqb NativeEnt NonRefoldable true false data1.

(** [len(data1["gene"].unique())]. *)
Definition N_unique (genes : list (option string)) : nat :=
  length (pandas.unique String.eqb genes).

(** Notebook 1.2: a row of [data2], with its two "Yes"/"No" columns. *)
Record association : Type := {
  association_gene : option string;
  entanglement : option string;
  disease_linked : option string
}.

(** A cell that holds "Yes" or "No". *)
Definition yes_or_no (x : option string) : bool :=
  match x with
  | Some s => String.eqb s "Yes" || String.eqb s "No"
  | None => false
  end.

Definition disease_table (data2 : list association) : table :=
  contingency_table String.eqb entanglement disease_linked "Yes"%string "No"%string
    data2.

(** Notebook 1.3: a row of [data3], one per residue. *)
Record residue : Type := {
  residue_gene : option string;
  mapped_resid : option Q;
  region : option bool;
  cut_C_Rall : option bool
}.

(** The two filters: high-quality proteins only, then the residues with
    a mapped position. *)
Definition data3_filtered (data3 : pandas.indexed residue)
  (data3_mask_gene : list (option string)) : pandas.indexed residue :=
  let data3_filtered :=
    np.select (pandas.isin String.eqb (map (fun lr => residue_gene (snd lr)) data3)
                 data3_mask_gene) data3 in
  pandas.dropna [mapped_resid] data3_filtered.

Definition residue_table (data3 : pandas.indexed residue)
  (data3_mask_gene : list (option string)) : table :=
  contingency_table Bool.eqb (fun lr => region (snd lr)) (fun lr => cut_C_Rall (snd lr))
    true false (data3_filtered data3 data3_mask_gene).

End Fisher.

(** ** Confounders (notebooks 2.1, 2.2) and the recoding of outcomes *)

Module Confounder.

(** A row of [data4_p2]. *)
Record length_row : Type := {
  gene : option string;
  uniprot_length : option Q
}.

(** Notebook 2.1, Step 1: duplicates of a gene are dropped from
    [data4_p2], then its lengths are merged into [data4_p1]. *)
Definition data4_final (data4_p1 : list Fisher.protein) (data4_p2 : list length_row)
  : list (Fisher.protein * option length_row) :=
  let data4_p2 := pandas.drop_duplicates String.eqb gene data4_p2 in
  pandas.merge_left String.eqb Fisher.gene gene data4_p1 data4_p2.

(** A value of an object column that holds strings and numbers. *)
Inductive value : Type :=
  | str (s : string)
  | num (q : Q).

(** Equality of Python values: a string equals no number. *)
Definition value_eqb (x y : value) : bool :=
  match x, y with
  | str s, str t => String.eqb s t
  | num p, num q => Qeq_bool p q
  | _, _ => false
  end.

(** [recode_map = {"Yes": 1, "No": 0}] and [col.map(recode_map)]
    (notebooks 2.2 and 3.3). *)
Definition recode_map : list (value * value) :=
  [(str "Yes", num 1); (str "No", num 0)].

Definition recode (col : list (option value)) : list (option value) :=
  pandas.series_map value_eqb recode_map col.

End Confounder.

(** ** Feature scaling (notebook 3.3, Step 1) *)

Module Scaling.

(** A row of [data8]: the feature columns and the outcome. *)
Record row : Type := {
  features : list (option Q);
  disease_linked : option Confounder.value
}.

(** The scaling cell.  [fit_transform] returns a bare array, so [scaled]
    gets a fresh [RangeIndex]; the outcome column is attached by
    assignment of a series.  [StandardScaler] is a parameter; it returns
    one row for each row it is given. *)
Definition scaled (fit_transform : list (list (option Q)) -> list (list (option Q)))
  (data8 : pandas.indexed row)
  : option (list (list (option Q) * option Confounder.value)) :=
  let features := map (fun lr => features (snd lr)) data8 in
  let outcome := map (fun lr => (fst lr, disease_linked (snd lr))) data8 in
  let scaled_features := fit_transform features in
  let scaled := pandas.range_index scaled_features in
  column <- pandas.setitem_series (map fst scaled) (pandas.reset_index outcome) ;;
  Some (combine scaled_features column).

End Scaling.

(** ** Balancing the classes (pre-process-yeast-data-v2) *)

Module Preprocess.

(** A row of the yeast data: the features and the outcome. *)
Record segment : Type := {
  features : list Q;
  target_value : option Q
}.

Section Generator.
Context {G : Type} `{np.RandomGen G}.

(** [sklearn.utils.resample(df, replace=False, n_samples, random_state)]:
    the rows at the first [n_samples] positions of a shuffled [arange];
    ValueError when there are fewer rows than [n_samples]. *)
Definition resample {R : Type} (df : list R) (n_samples : nat)
  (rs : sklearn.random_state) (global : G) : option (list R * G) :=
  if length df <? n_samples then None
  else
    sklearn.with_random_state rs
      (fun rng =>
         let '(indices, rng') := np.shuffle (seq 0 (length df)) rng in
         rows <- np.take df (firstn n_samples indices) ;;
         Some (rows, rng'))
      global.

(** [df.sample(frac=1, random_state).reset_index(drop=True)]: the rows
    in the order of a permutation drawn from the generator. *)
Definition sample_all {R : Type} (df : list R) (rs : sklearn.random_state) (global : G)
  : option (list R * G) :=
  sklearn.with_random_state rs
    (fun rng =>
       let '(locs, rng') := np.shuffle (seq 0 (length df)) rng in
       rows <- np.take df locs ;;
       Some (rows, rng'))
    global.

(** [data3[data3["target_value"] == v]]. *)
Definition of_class (v : Q) (data3 : list segment) : list segment :=
  np.select (pandas.series_eq Qeq_bool (map target_value data3) v) data3.

(** The down-sampling cell, with the number of rows kept per class
    ([7500] in the notebook) as a parameter. *)
Definition balanced (data3 : list segment) (n_samples : nat) (random_seed : Z)
  (global : G) : option (list segment * G) :=
  let majority := of_class 0%Q data3 in
  let minority := of_class 1%Q data3 in
  majority_downsampled <-
    resample majority n_samples (sklearn.rs_int random_seed) global ;;
  minority_downsampled <-
    resample minority n_samples (sklearn.rs_int random_seed)
      (snd majority_downsampled) ;;
  sample_all (fst majority_downsampled ++ fst minority_downsampled)
    (sklearn.rs_int random_seed) (snd minority_downsampled).

End Generator.

End Preprocess.

(** ** Auxiliary notions

    Used in the statements of lemmas only. *)

(** The samples of class [c] that are predicted as [c]. *)
Definition hits (c : bool) (y_true y_pred : list bool) : nat :=
  length (filter (fun tp => Bool.eqb (fst tp) c && Bool.eqb (snd tp) c)
            (combine y_true y_pred)).

(** [x] clipped at 1. *)
Definition clip (p : Q) : Q := if statsmodels.Qltb 1 p then 1%Q else p.

(** At most one element. *)
Definition option_list {A : Type} (o : option A) : list A :=
  match o with
  | Some x => [x]
  | None => []
  end.

(** * Properties *)

(** ** Lists, sorting and indexing *)

Section Sorting.
Context {A : Type} (leb : A -> A -> bool).

Lemma insert_perm (x : A) (l : list A) : Permutation (np.insert leb x l) (x :: l).
Proof.
  induction l as [|y t IH]; simpl.
  - apply Permutation_refl.
  - destruct (leb x y).
    + apply Permutation_refl.
    + eapply perm_trans; [apply perm_skip, IH | apply perm_swap].
Qed.

Lemma isort_perm (l : list A) : Permutation (np.isort leb l) l.
Proof.
  induction l as [|x t IH]; simpl.
  - constructor.
  - eapply perm_trans; [apply insert_perm | apply perm_skip, IH].
Qed.

Lemma isort_length (l : list A) : length (np.isort leb l) = length l.
Proof. apply Permutation_length, isort_perm. Qed.

Hypothesis leb_total : forall a b, leb a b = true \/ leb b a = true.
Hypothesis leb_trans : forall a b c, leb a b = true -> leb b c = true -> leb a c = true.

Lemma insert_sorted (x : A) (l : list A) :
  StronglySorted (fun a b => leb a b = true) l ->
  StronglySorted (fun a b => leb a b = true) (np.insert leb x l).
Proof.
  induction 1 as [|y t Hs IH Hy]; simpl.
  - repeat constructor.
  - destruct (leb x y) eqn:Hxy.
    + constructor.
      * constructor; assumption.
      * constructor; [assumption|].
        eapply Forall_impl; [|exact Hy].
        intros b Hb. eapply leb_trans; eassumption.
    + constructor; [exact IH|].
      assert (Hyx : leb y x = true).
      { destruct (leb_total x y) as [E|E]; [congruence | exact E]. }
      eapply Permutation_Forall.
      * apply Permutation_sym, insert_perm.
      * constructor; assumption.
Qed.

Lemma isort_sorted (l : list A) :
  StronglySorted (fun a b => leb a b = true) (np.isort leb l).
Proof.
  induction l as [|x t IH]; simpl.
  - constructor.
  - apply insert_sorted, IH.
Qed.

End Sorting.

Lemma StronglySorted_app_single {A : Type} (R : A -> A -> Prop) (l : list A) (x : A) :
  StronglySorted R l -> Forall (fun a => R a x) l -> StronglySorted R (l ++ [x]).
Proof.
  induction 1 as [|y t Hs IH Hy]; intros Hx; simpl.
  - repeat constructor.
  - inversion Hx; subst. constructor.
    + apply IH; assumption.
    + apply Forall_app; split; [assumption | repeat constructor; assumption].
Qed.

Lemma StronglySorted_rev {A : Type} (R : A -> A -> Prop) (l : list A) :
  StronglySorted R l -> StronglySorted (fun a b => R b a) (rev l).
Proof.
  induction 1 as [|y t Hs IH Hy]; simpl.
  - constructor.
  - apply StronglySorted_app_single; [exact IH|].
    apply Forall_rev. exact Hy.
Qed.

Lemma StronglySorted_map {A B : Type} (R : B -> B -> Prop) (f : A -> B) (l : list A) :
  StronglySorted (fun a b => R (f a) (f b)) l -> StronglySorted R (map f l).
Proof.
  induction 1 as [|y t Hs IH Hy]; simpl; constructor.
  - exact IH.
  - apply Forall_map. exact Hy.
Qed.

Lemma StronglySorted_weaken {A : Type} (R S : A -> A -> Prop) (l : list A) :
  (forall a b, In a l -> In b l -> R a b -> S a b) ->
  StronglySorted R l -> StronglySorted S l.
Proof.
  intros HRS Hs. induction Hs as [|y t Hs IH Hy]; constructor.
  - apply IH. intros a b Ha Hb. apply HRS; right; assumption.
  - rewrite Forall_forall in *. intros b Hb.
    apply HRS; [left; reflexivity | right; exact Hb | apply Hy, Hb].
Qed.

(** [argsort] returns a permutation of the positions along which the
    values ascend. *)
Lemma argsort_perm (a : list Q) : Permutation (np.argsort a) (seq 0 (length a)).
Proof. apply isort_perm. Qed.

Lemma argsort_sorted (a : list Q) :
  StronglySorted (fun i j => (nth i a 0 <= nth j a 0)%Q) (np.argsort a).
Proof.
  unfold np.argsort.
  eapply StronglySorted_weaken;
    [| apply (isort_sorted (fun i j => Qle_bool (nth i a 0%Q) (nth j a 0%Q)))].
  - intros i j _ _ Hij. apply Qle_bool_iff. exact Hij.
  - intros i j.
    destruct (Qlt_le_dec (nth j a 0%Q) (nth i a 0%Q)) as [Hlt|Hle].
    + right. apply Qle_bool_iff, Qlt_le_weak, Hlt.
    + left. apply Qle_bool_iff, Hle.
  - intros i j k Hij Hjk. apply Qle_bool_iff.
    apply Qle_bool_iff in Hij. apply Qle_bool_iff in Hjk.
    eapply Qle_trans; eassumption.
Qed.

Lemma argsort_bound (a : list Q) : Forall (fun i => i < length a) (np.argsort a).
Proof.
  eapply Permutation_Forall; [apply Permutation_sym, argsort_perm|].
  apply Forall_forall. intros i Hi. apply in_seq in Hi. lia.
Qed.

Lemma take_some {A : Type} (d : A) (a : list A) (idx : list nat) :
  Forall (fun i => i < length a) idx ->
  np.take a idx = Some (map (fun i => nth i a d) idx).
Proof.
  induction 1 as [|i t Hi Ht IH]; simpl.
  - reflexivity.
  - destruct (nth_error a i) as [x|] eqn:Hx.
    + simpl. rewrite IH. simpl.
      rewrite (nth_error_nth _ _ d Hx). reflexivity.
    + apply nth_error_None in Hx. lia.
Qed.

Lemma take_inv {A : Type} (a : list A) (idx : list nat) (r : list A) :
  np.take a idx = Some r ->
  Forall2 (fun i x => nth_error a i = Some x) idx r.
Proof.
  revert r. induction idx as [|i t IH]; simpl; intros r Hr.
  - inversion Hr. constructor.
  - destruct (nth_error a i) as [x|] eqn:Hx; simpl in Hr; [|discriminate].
    destruct (np.take a t) as [r'|]; simpl in Hr; [|discriminate].
    inversion Hr; subst. constructor; [exact Hx | apply IH; reflexivity].
Qed.

Lemma select_filter {A : Type} (f : A -> bool) (a : list A) :
  np.select (map f a) a = filter f a.
Proof.
  induction a as [|x t IH]; simpl; [reflexivity|].
  destruct (f x); rewrite IH; reflexivity.
Qed.

Lemma select_combine {A B : Type} (mask : list bool) (a : list A) (b : list B) :
  combine (np.select mask a) (np.select mask b) = np.select mask (combine a b).
Proof.
  revert a b. induction mask as [|m mask IH]; intros [|x a] [|y b]; simpl;
    try reflexivity.
  - destruct m; [|destruct (np.select mask a)]; reflexivity.
  - destruct m; simpl; rewrite IH; reflexivity.
Qed.

Lemma select_length {A B : Type} (mask : list bool) (a : list A) (b : list B) :
  length a = length b -> length (np.select mask a) = length (np.select mask b).
Proof.
  revert a b. induction mask as [|m mask IH]; intros [|x a] [|y b] Hl; simpl in *;
    try reflexivity; try discriminate.
  destruct m; simpl; rewrite (IH a b); auto.
Qed.

Lemma map_nth_seq {A : Type} (d : A) (l : list A) :
  map (fun i => nth i l d) (seq 0 (length l)) = l.
Proof.
  induction l as [|x t IH]; simpl; [reflexivity|].
  rewrite <- seq_shift, map_map. simpl. rewrite IH. reflexivity.
Qed.

Lemma combine_map_nth {A B : Type} (da : A) (db : B) (a : list A) (b : list B)
  (idx : list nat) :
  Forall (fun i => i < length a) idx -> length a = length b ->
  combine (map (fun i => nth i a da) idx) (map (fun i => nth i b db) idx)
  = map (fun i => nth i (combine a b) (da, db)) idx.
Proof.
  intros Hidx Hl. induction Hidx as [|i t Hi Ht IH]; simpl; [reflexivity|].
  rewrite IH. f_equal. rewrite combine_nth by exact Hl. reflexivity.
Qed.

(** ** Final-model report *)

Lemma select_map_combine {A : Type} (f : Q -> bool) (a : list A) (b : list Q) :
  np.select (map f b) (combine a b) = filter (fun p => f (snd p)) (combine a b).
Proof.
  revert a. induction b as [|y b IH]; intros [|x a]; simpl; try reflexivity.
  destruct (f y); rewrite IH; reflexivity.
Qed.

(** The report is the list of non-zero pairs read along the reversed
    argsort of the magnitudes. *)
Lemma nonzero_report_eq (columns : list string) (coef : list Q) :
  length columns = length coef ->
  Report.nonzero_report columns coef
  = Some (map (fun i => nth i (Report.nonzero_pairs columns coef) (EmptyString, 0%Q))
            (rev (np.argsort
                    (map Qabs (filter (fun c => negb (Qeq_bool c 0%Q)) coef))))).
Proof.
  intros Hl. unfold Report.nonzero_report, Report.nonzero_mask, np.mask_index.
  rewrite !length_map, Nat.eqb_refl, Hl, Nat.eqb_refl. simpl.
  rewrite select_filter.
  set (f := fun c : Q => negb (Qeq_bool c 0%Q)).
  set (nzc := filter f coef).
  set (nzf := np.select (map f coef) columns).
  set (idx := rev (np.argsort (map Qabs nzc))).
  assert (Hlen : length nzf = length nzc).
  { unfold nzf, nzc. rewrite <- (select_filter f coef).
    apply select_length. exact Hl. }
  assert (Hidx : Forall (fun i => i < length nzc) idx).
  { unfold idx. apply Forall_rev.
    rewrite <- (length_map Qabs nzc). apply argsort_bound. }
  assert (Hidx' : Forall (fun i => i < length nzf) idx).
  { eapply Forall_impl; [|exact Hidx]. intros i Hi. simpl in Hi. lia. }
  rewrite (take_some EmptyString nzf idx) by exact Hidx'.
  rewrite (take_some 0%Q nzc idx) by exact Hidx.
  simpl. f_equal.
  rewrite combine_map_nth by assumption.
  unfold nzf, nzc at 1. rewrite <- (select_filter f coef), select_combine.
  rewrite select_map_combine. reflexivity.
Qed.

Lemma nonzero_pairs_length (columns : list string) (coef : list Q) :
  length columns = length coef ->
  length (Report.nonzero_pairs columns coef)
  = length (filter (fun c => negb (Qeq_bool c 0%Q)) coef).
Proof.
  unfold Report.nonzero_pairs. revert coef.
  induction columns as [|x a IH]; intros [|y b] Hl; simpl in *; try discriminate;
    [reflexivity|].
  destruct (negb (Qeq_bool y 0)); simpl; rewrite IH; auto.
Qed.

Lemma nonzero_pairs_snd (columns : list string) (coef : list Q) :
  length columns = length coef ->
  map snd (Report.nonzero_pairs columns coef)
  = filter (fun c => negb (Qeq_bool c 0%Q)) coef.
Proof.
  unfold Report.nonzero_pairs. revert coef.
  induction columns as [|x a IH]; intros [|y b] Hl; simpl in *; try discriminate;
    [reflexivity|].
  destruct (negb (Qeq_bool y 0)); simpl; rewrite IH; auto.
Qed.

Lemma report_permutation (columns : list string) (coef : list Q) (r : list (string * Q)) :
  length columns = length coef ->
  Report.nonzero_report columns coef = Some r ->
  Permutation r (Report.nonzero_pairs columns coef).
Proof.
  intros Hl Hr. rewrite (nonzero_report_eq _ _ Hl) in Hr. inversion Hr; subst r; clear Hr.
  set (L := Report.nonzero_pairs columns coef).
  eapply perm_trans;
    [apply Permutation_map | rewrite (map_nth_seq (EmptyString, 0%Q) L); apply Permutation_refl].
  eapply perm_trans; [apply Permutation_sym, Permutation_rev|].
  eapply perm_trans; [apply argsort_perm|].
  rewrite length_map. unfold L. rewrite nonzero_pairs_length by exact Hl.
  apply Permutation_refl.
Qed.

Lemma report_descending (columns : list string) (coef : list Q) (r : list (string * Q)) :
  length columns = length coef ->
  Report.nonzero_report columns coef = Some r ->
  Report.descending_magnitude r.
Proof.
  intros Hl Hr. rewrite (nonzero_report_eq _ _ Hl) in Hr. inversion Hr; subst r; clear Hr.
  unfold Report.descending_magnitude.
  set (nzc := filter (fun c => negb (Qeq_bool c 0%Q)) coef).
  apply StronglySorted_map.
  eapply StronglySorted_weaken;
    [| apply StronglySorted_rev, (argsort_sorted (map Qabs nzc))].
  intros i j Hi Hj Hij. simpl in Hij.
  assert (Hb : forall k, In k (rev (np.argsort (map Qabs nzc))) ->
               Qabs (snd (nth k (Report.nonzero_pairs columns coef) (EmptyString, 0%Q)))
               = nth k (map Qabs nzc) 0%Q).
  { intros k _.
    transitivity (Qabs (nth k nzc 0%Q)); [|symmetry; exact (map_nth Qabs nzc 0%Q k)].
    f_equal. unfold nzc. rewrite <- (nonzero_pairs_snd columns coef Hl).
    symmetry. exact (map_nth snd _ (EmptyString, 0%Q) k). }
  rewrite (Hb i Hi), (Hb j Hj). exact Hij.
Qed.

(** The report on [a = 1/2], [b = -1/2]: the two magnitudes are equal and
    [b], the later column, comes first. *)
Example report_tie :
  Report.nonzero_report ["a"; "b"]%string [1#2; -(1#2)]%Q
  = Some [("b", -(1#2)); ("a", 1#2)]%string%Q.
Proof. reflexivity. Qed.

Example report_mixed :
  Report.nonzero_report ["a"; "b"; "c"; "d"]%string [1#2; 0; -(3#1); 1#4]%Q
  = Some [("c", -(3#1)); ("a", 1#2); ("d", 1#4)]%string%Q.
Proof. reflexivity. Qed.

(** C1, as stated, fails: on the columns [a], [b] with coefficients
    [1/2] and [-1/2] the report lists [b] before [a], although both have
    the same magnitude and [a] is the earlier column. *)
Lemma final_report_ties_not_in_column_order :
  exists r,
    Report.nonzero_report ["a"; "b"]%string [1#2; -(1#2)]%Q = Some r /\
    Permutation r (Report.nonzero_pairs ["a"; "b"]%string [1#2; -(1#2)]%Q) /\
    Report.descending_magnitude r /\
    ~ Report.ties_in_column_order ["a"; "b"]%string r.
Proof.
  exists [("b", -(1#2)); ("a", 1#2)]%string%Q.
  split; [reflexivity|].
  split; [apply perm_swap|].
  split.
  - repeat constructor. simpl. apply Qle_refl.
  - intros Hties.
    specialize (Hties 0 1 ("b", -(1#2))%string%Q ("a", 1#2)%string%Q 1 0).
    assert (Habs : 1 < 0); [|lia].
    apply Hties; try reflexivity. lia.
Qed.

Lemma nonzero_report_lengths (columns : list string) (coef : list Q) r :
  Report.nonzero_report columns coef = Some r -> length columns = length coef.
Proof.
  unfold Report.nonzero_report, Report.nonzero_mask, np.mask_index.
  rewrite !length_map, Nat.eqb_refl. cbn [obind].
  destruct (Nat.eqb_spec (length coef) (length columns)) as [E|E];
    [intros _; symmetry; exact E | discriminate].
Qed.

(** C1 (amended): the final-model report lists exactly the (feature,
    coefficient) pairs whose fitted coefficient is non-zero, and every
    earlier entry has an absolute magnitude greater than or equal to that
    of every later entry; the report is printed whenever the model has
    one coefficient per feature column.  The order among entries of equal
    magnitude is left open. *)
Theorem final_report_nonzero_descending
  {G E : Type} `{sklearn.Estimator G E}
  (columns : list string) (s : Lasso.holdout_scores) :
  (forall r, Lasso.final_report columns s = Some r ->
     Permutation r (Report.nonzero_pairs columns (sklearn.coef_ (Lasso.final_model s))) /\
     Report.descending_magnitude r) /\
  (length columns = length (sklearn.coef_ (Lasso.final_model s)) ->
   exists r, Lasso.final_report columns s = Some r).
Proof.
  unfold Lasso.final_report. split.
  - intros r Hr. pose proof (nonzero_report_lengths _ _ _ Hr) as Hl. split.
    + apply report_permutation; assumption.
    + eapply report_descending; eassumption.
  - intros Hl. rewrite (nonzero_report_eq _ _ Hl). eauto.
Qed.

(** The report of a model with the coefficients 1/2, 0, -3, -1/2. *)
Lemma final_report_nonzero_descending_witness :
  let columns := ["a"; "b"; "c"; "d"]%string in
  let s := Reference.toy_scores [1#2; 0; -(3#1); -(1#2)]%Q in
  length columns = length (sklearn.coef_ (Lasso.final_model s)) /\
  exists r,
    Lasso.final_report columns s = Some r /\
    Permutation r (Report.nonzero_pairs columns (sklearn.coef_ (Lasso.final_model s))) /\
    Report.descending_magnitude r.
Proof.
  intros columns s.
  assert (Hl : length columns = length (sklearn.coef_ (Lasso.final_model s)))
    by reflexivity.
  split; [exact Hl|].
  destruct (final_report_nonzero_descending (G := nat) columns s) as [Hinv Hret].
  destruct (Hret Hl) as [r Hr].
  exists r. split; [exact Hr | exact (Hinv r Hr)].
Defined.

(** ** Folds and cross-validation *)

Lemma obind_inv {A B : Type} (o : option A) (k : A -> option B) (b : B) :
  obind o k = Some b -> exists a, o = Some a /\ k a = Some b.
Proof. destruct o as [a|]; simpl; [eauto | discriminate]. Qed.

Ltac obind_inv H :=
  let a := fresh "a" in
  let Ha := fresh "Ha" in
  apply obind_inv in H; destruct H as (a & Ha & H).

Lemma select_incl {A : Type} (mask : list bool) (a : list A) (x : A) :
  In x (np.select mask a) -> In x a.
Proof.
  revert a. induction mask as [|m mask IH]; intros [|y a]; simpl; try tauto.
  destruct m; simpl; intros Hx.
  - destruct Hx; [left; assumption | right; apply IH; assumption].
  - right; apply IH; assumption.
Qed.

Lemma where_bound (mask : list bool) :
  Forall (fun i => i < length mask) (np.where_ mask).
Proof.
  apply Forall_forall. intros i Hi. apply select_incl in Hi.
  apply in_seq in Hi. lia.
Qed.

Lemma select_offset (mask : list bool) (a x : nat) :
  In x (np.select mask (seq a (length mask))) <->
  a <= x /\ nth_error mask (x - a) = Some true.
Proof.
  revert a. induction mask as [|m mask IH]; intros a; simpl.
  - split; [tauto|]. intros [_ Hn]. destruct (x - a); discriminate.
  - destruct m; simpl; rewrite ?IH; split.
    + intros [<-|[Hle Hn]].
      * rewrite Nat.sub_diag. auto.
      * split; [lia|]. replace (x - a) with (S (x - S a)) by lia. exact Hn.
    + intros [Hle Hn]. destruct (x - a) as [|j] eqn:Hj; [left; lia|].
      right. split; [lia|]. replace (x - S a) with j by lia. exact Hn.
    + intros [Hle Hn]. split; [lia|].
      replace (x - a) with (S (x - S a)) by lia. exact Hn.
    + intros [Hle Hn]. destruct (x - a) as [|j] eqn:Hj; [discriminate|].
      split; [lia|]. replace (x - S a) with j by lia. exact Hn.
Qed.

Lemma where_iff (mask : list bool) (i : nat) :
  In i (np.where_ mask) <-> nth_error mask i = Some true.
Proof.
  unfold np.where_. rewrite select_offset, Nat.sub_0_r.
  split; [tauto | intros Hn; split; [lia | exact Hn]].
Qed.

Lemma put_mask_length {A : Type} (mask : list bool) (vals dst : list A) :
  length (np.put_mask mask vals dst) = length dst.
Proof.
  revert vals dst. induction mask as [|m mask IH]; intros vals [|d dst]; simpl;
    try reflexivity.
  destruct m; [destruct vals|]; simpl; rewrite IH; reflexivity.
Qed.

Section Folds.
Context {G : Type} `{np.RandomGen G}.

Lemma assign_folds_length (kf : sklearn.StratifiedKFold) alloc ye cs tf (rng : G) :
  length (fst (sklearn.assign_folds kf alloc ye cs tf rng)) = length tf.
Proof.
  revert tf rng. induction cs as [|c cs IH]; intros tf rng; simpl; [reflexivity|].
  destruct (sklearn.shuffle kf); [destruct (np.shuffle _ rng)|];
    rewrite IH, put_mask_length; reflexivity.
Qed.

Lemma make_test_folds_length (kf : sklearn.StratifiedKFold) y (rng : G) r :
  sklearn.make_test_folds kf y rng = Some r -> length (fst r) = length y.
Proof.
  unfold sklearn.make_test_folds.
  destruct (forallb _ _); [discriminate|].
  intros Hr. inversion Hr; subst r. rewrite assign_folds_length, repeat_length.
  reflexivity.
Qed.

Lemma folds_of_bound (k : nat) (tf : list nat) (fold : list nat * list nat) :
  In fold (sklearn.folds_of k tf) ->
  Forall (fun i => i < length tf) (fst fold) /\
  Forall (fun i => i < length tf) (snd fold).
Proof.
  unfold sklearn.folds_of. intros Hf. apply in_map_iff in Hf.
  destruct Hf as (i & <- & _). simpl. split.
  - rewrite <- (length_map (Nat.eqb i) tf), <- (length_map negb). apply where_bound.
  - rewrite <- (length_map (Nat.eqb i) tf). apply where_bound.
Qed.

Lemma folds_of_length (k : nat) (tf : list nat) : length (sklearn.folds_of k tf) = k.
Proof. unfold sklearn.folds_of. rewrite length_map, length_seq. reflexivity. Qed.

(** With an integer seed the split is a function of the seed and the
    labels: it does not read the global generator and leaves it as it
    was. *)
Lemma split_seeded (kf : sklearn.StratifiedKFold) (seed : Z) n y (global : G) :
  sklearn.random_state_of kf = sklearn.rs_int seed ->
  sklearn.split kf n y global
  = (r <- sklearn.split kf n y (np.RandomState seed) ;; Some (fst r, global)).
Proof.
  intros Hrs. unfold sklearn.split. rewrite Hrs.
  destruct (n <? sklearn.n_splits kf); [reflexivity|]. simpl.
  destruct (sklearn.make_test_folds kf y (np.RandomState seed)); reflexivity.
Qed.

Lemma count_encode (y : list bool) (first : bool) :
  count_occ Nat.eq_dec (map (fun b => if Bool.eqb b first then 0 else 1) y) 0
  = sklearn.count first y.
Proof.
  unfold sklearn.count. induction y as [|b y IH]; simpl; [reflexivity|].
  destruct b, first; simpl; rewrite IH; reflexivity.
Qed.

Lemma count_le_length (c : bool) (y : list bool) : sklearn.count c y <= length y.
Proof. apply count_occ_bound. Qed.

Lemma bincount_not_all_below (k : nat) (x : list nat) :
  x <> [] -> k <= count_occ Nat.eq_dec x 0 ->
  forallb (fun c => c <? k) (np.bincount x 0) = false.
Proof.
  intros Hx Hc. unfold np.bincount.
  destruct x as [|e x']; [congruence|].
  remember (e :: x') as x eqn:Ex.
  cbn [Nat.max seq map forallb].
  apply andb_false_intro1. apply Nat.ltb_ge. exact Hc.
Qed.

Lemma make_test_folds_some (kf : sklearn.StratifiedKFold) y (rng : G) :
  0 < sklearn.n_splits kf ->
  sklearn.enough_of_each (sklearn.n_splits kf) y ->
  exists r, sklearn.make_test_folds kf y rng = Some r.
Proof.
  intros Hk [Ht Hf]. unfold sklearn.make_test_folds.
  rewrite bincount_not_all_below; [eauto | |].
  - destruct y; [simpl in Ht; lia | discriminate].
  - destruct y as [|first y]; [simpl in Ht; lia|].
    unfold sklearn.encode. rewrite count_encode.
    destruct first; assumption.
Qed.

Lemma split_some (kf : sklearn.StratifiedKFold) (seed : Z) n y (global : G) :
  sklearn.random_state_of kf = sklearn.rs_int seed ->
  0 < sklearn.n_splits kf ->
  sklearn.enough_of_each (sklearn.n_splits kf) y ->
  n = length y ->
  exists tf, sklearn.make_test_folds kf y (np.RandomState seed) = Some tf /\
    sklearn.split kf n y global
    = Some (sklearn.folds_of (sklearn.n_splits kf) (fst tf), global).
Proof.
  intros Hrs Hk Hy Hn.
  destruct (make_test_folds_some kf y (np.RandomState seed) Hk Hy) as [tf Htf].
  exists tf. split; [exact Htf|].
  unfold sklearn.split. rewrite Hrs. simpl. rewrite Htf. simpl.
  replace (n <? sklearn.n_splits kf) with false; [reflexivity|].
  symmetry. apply Nat.ltb_ge. subst n. destruct Hy as [Ht _].
  pose proof (count_le_length true y). lia.
Qed.

End Folds.

(** *** Stratification: every fold holds both classes *)

Lemma insert_zero (l : list nat) : np.insert Nat.leb 0 l = 0 :: l.
Proof. destruct l; reflexivity. Qed.

Lemma insert_one (a b : nat) :
  np.insert Nat.leb 1 (repeat 0 a ++ repeat 1 b) = repeat 0 a ++ repeat 1 (S b).
Proof.
  induction a as [|a IH]; simpl.
  - destruct b; reflexivity.
  - rewrite IH. reflexivity.
Qed.

(** Sorting labels encoded by 0 and 1 puts the zeros before the ones. *)
Lemma isort_01 (l : list nat) :
  Forall (fun v => v <= 1) l ->
  np.isort Nat.leb l
  = repeat 0 (count_occ Nat.eq_dec l 0) ++ repeat 1 (count_occ Nat.eq_dec l 1).
Proof.
  induction 1 as [|x t Hx Ht IH]; simpl; [reflexivity|].
  rewrite IH. destruct x as [|[|x]]; [| |lia].
  - rewrite insert_zero. reflexivity.
  - rewrite insert_one. reflexivity.
Qed.

Lemma combine_seq {A : Type} (d : A) (l : list A) (a : nat) :
  combine (seq a (length l)) l = map (fun p => (p, nth (p - a) l d)) (seq a (length l)).
Proof.
  revert a. induction l as [|x t IH]; intros a; simpl; [reflexivity|].
  rewrite Nat.sub_diag. f_equal. rewrite IH.
  apply map_ext_in. intros p Hp. apply in_seq in Hp.
  replace (p - a) with (S (p - S a)) by lia. reflexivity.
Qed.

Lemma filter_map_comm {A B : Type} (f : B -> bool) (g : A -> B) (l : list A) :
  filter f (map g l) = map g (filter (fun x => f (g x)) l).
Proof.
  induction l as [|x t IH]; simpl; [reflexivity|].
  destruct (f (g x)); simpl; rewrite IH; reflexivity.
Qed.

Lemma stride_mod (i k p : nat) :
  i < k -> (i <=? p) && ((p - i) mod k =? 0) = (p mod k =? i).
Proof.
  intros Hik.
  destruct (Nat.eqb_spec (p mod k) i) as [Hm|Hm].
  - assert (Hp : p = k * (p / k) + i) by (rewrite <- Hm; apply Nat.div_mod_eq).
    assert (Hle : i <= p) by lia.
    apply andb_true_intro. split; [apply Nat.leb_le; exact Hle|].
    apply Nat.eqb_eq.
    replace (p - i) with ((p / k) * k) by lia.
    apply Nat.Div0.mod_mul.
  - apply andb_false_iff.
    destruct (Nat.leb_spec i p) as [Hle|Hlt]; [right | left; reflexivity].
    apply Nat.eqb_neq. intros H0. apply Hm.
    replace p with (i + (p - i)) by lia.
    rewrite Nat.Div0.add_mod, H0, Nat.add_0_r, Nat.Div0.mod_mod.
    apply Nat.mod_small. exact Hik.
Qed.

(** [a[i::k]] holds the entries at the positions congruent to [i]. *)
Lemma slice_step_nth {A : Type} (d : A) (i k : nat) (l : list A) :
  i < k ->
  np.slice_step i k l
  = map (fun p => nth p l d) (filter (fun p => p mod k =? i) (seq 0 (length l))).
Proof.
  intros Hik. unfold np.slice_step.
  rewrite (combine_seq d), filter_map_comm, map_map. simpl.
  rewrite (filter_ext (fun x => (i <=? x) && ((x - i) mod k =? 0))
             (fun p => p mod k =? i)) by (intros p; apply stride_mod; exact Hik).
  apply map_ext. intros p. rewrite Nat.sub_0_r. reflexivity.
Qed.

Lemma count_occ_map_filter {A : Type} (g : A -> nat) (c : nat) (s : list A) :
  count_occ Nat.eq_dec (map g s) c = length (filter (fun p => g p =? c) s).
Proof.
  induction s as [|x t IH]; simpl; [reflexivity|].
  destruct (Nat.eq_dec (g x) c) as [E|E].
  - rewrite (proj2 (Nat.eqb_eq _ _) E). simpl. rewrite IH. reflexivity.
  - rewrite (proj2 (Nat.eqb_neq _ _) E). exact IH.
Qed.

Lemma indicator_sum (k v : nat) :
  v < k -> list_sum (map (fun i => if v =? i then 1 else 0) (seq 0 k)) = 1.
Proof.
  intros Hv.
  assert (Hgen : forall a n, list_sum (map (fun i => if v =? i then 1 else 0) (seq a n))
                             = if (a <=? v) && (v <? a + n) then 1 else 0).
  { intros a n. revert a. induction n as [|n IH]; intros a; simpl.
    - destruct (Nat.leb_spec a v), (Nat.ltb_spec v (a + 0)); simpl; lia.
    - rewrite IH.
      destruct (Nat.eqb_spec v a), (Nat.leb_spec (S a) v), (Nat.ltb_spec v (S a + n)),
        (Nat.leb_spec a v), (Nat.ltb_spec v (a + S n)); simpl; lia. }
  rewrite Hgen. simpl.
  destruct (Nat.ltb_spec v k); [reflexivity | lia].
Qed.

Lemma list_sum_map_add {A : Type} (f g : A -> nat) (s : list A) :
  list_sum (map (fun i => f i + g i) s) = list_sum (map f s) + list_sum (map g s).
Proof. induction s as [|x t IH]; simpl; [reflexivity | rewrite IH; lia]. Qed.

Lemma list_sum_map_zero {A : Type} (s : list A) : list_sum (map (fun _ => 0) s) = 0.
Proof. induction s as [|x t IH]; simpl; [reflexivity | exact IH]. Qed.

(** The residue classes of the positions split a list. *)
Lemma residue_classes_split (k : nat) (h : nat -> bool) (s : list nat) :
  0 < k ->
  list_sum (map (fun i => length (filter (fun p => h p) (filter (fun p => p mod k =? i) s)))
              (seq 0 k))
  = length (filter h s).
Proof.
  intros Hk. induction s as [|p t IH]; simpl.
  - apply list_sum_map_zero.
  - rewrite (map_ext
               (fun i => length (filter (fun p0 => h p0)
                                   (if p mod k =? i
                                    then p :: filter (fun p0 => p0 mod k =? i) t
                                    else filter (fun p0 => p0 mod k =? i) t)))
               (fun i => (if p mod k =? i then (if h p then 1 else 0) else 0)
                         + length (filter (fun p0 => h p0)
                                     (filter (fun p0 => p0 mod k =? i) t)))).
    + rewrite list_sum_map_add, IH.
      destruct (h p); simpl.
      * rewrite indicator_sum by (apply Nat.mod_upper_bound; lia). reflexivity.
      * rewrite (map_ext _ (fun _ => 0)) by (intros i; destruct (_ =? _); reflexivity).
        rewrite list_sum_map_zero. reflexivity.
    + intros i. destruct (p mod k =? i); simpl; [destruct (h p)|]; reflexivity.
Qed.

(** Round robin: the folds' shares of a class add up to the class. *)
Lemma slices_count (k c : nat) (l : list nat) :
  0 < k ->
  list_sum (map (fun i => count_occ Nat.eq_dec (np.slice_step i k l) c) (seq 0 k))
  = count_occ Nat.eq_dec l c.
Proof.
  intros Hk.
  rewrite (map_ext_in _
             (fun i => length (filter (fun p => nth p l 0 =? c)
                                 (filter (fun p => p mod k =? i) (seq 0 (length l)))))).
  - rewrite (residue_classes_split k (fun p => nth p l 0 =? c)) by exact Hk.
    rewrite <- count_occ_map_filter, map_nth_seq. reflexivity.
  - intros i Hi. apply in_seq in Hi.
    rewrite (slice_step_nth 0) by lia. apply count_occ_map_filter.
Qed.

Lemma nth_zeros_ones (c0 c1 p : nat) :
  p < c0 + c1 ->
  nth p (repeat 0 c0 ++ repeat 1 c1) 0 = if p <? c0 then 0 else 1.
Proof.
  intros Hp. destruct (Nat.ltb_spec p c0) as [Hlt|Hge].
  - rewrite app_nth1 by (rewrite repeat_length; exact Hlt).
    apply nth_repeat_lt. exact Hlt.
  - rewrite app_nth2 by (rewrite repeat_length; exact Hge).
    rewrite repeat_length. apply nth_repeat_lt. lia.
Qed.

(** With at least [k] members of either class, each of the [k] slices
    of the sorted labels holds a member of the class. *)
Lemma slice_has_class (k c0 c1 i c : nat) :
  i < k -> k <= c0 -> k <= c1 -> c <= 1 ->
  0 < count_occ Nat.eq_dec (np.slice_step i k (repeat 0 c0 ++ repeat 1 c1)) c.
Proof.
  intros Hi H0 H1 Hc.
  apply (count_occ_In Nat.eq_dec).
  rewrite (slice_step_nth 0) by exact Hi.
  rewrite length_app, !repeat_length.
  apply in_map_iff.
  destruct c as [|c].
  - exists i. rewrite nth_zeros_ones by lia.
    split.
    + destruct (Nat.ltb_spec i c0); [reflexivity | lia].
    + apply filter_In. split; [apply in_seq; lia|].
      apply Nat.eqb_eq, Nat.mod_small, Hi.
  - assert (c = 0) by lia. subst c.
    set (t := (k + i - c0 mod k) mod k).
    assert (Hk : k <> 0) by lia.
    assert (Ht : t < k) by (apply Nat.mod_upper_bound; exact Hk).
    assert (Hr : c0 mod k < k) by (apply Nat.mod_upper_bound; exact Hk).
    exists (c0 + t). rewrite nth_zeros_ones by lia.
    split.
    + destruct (Nat.ltb_spec (c0 + t) c0); [lia | reflexivity].
    + apply filter_In. split; [apply in_seq; lia|].
      apply Nat.eqb_eq. unfold t.
      rewrite <- Nat.Div0.add_mod_idemp_l, Nat.Div0.add_mod_idemp_r.
      replace (c0 mod k + (k + i - c0 mod k)) with (i + 1 * k) by lia.
      rewrite Nat.Div0.mod_add. apply Nat.mod_small, Hi.
Qed.

Lemma nth_map_seq {A : Type} (f : nat -> A) (d : A) (n i : nat) :
  i < n -> nth i (map f (seq 0 n)) d = f i.
Proof.
  intros Hi. rewrite (nth_indep _ d (f 0)) by (rewrite length_map, length_seq; exact Hi).
  rewrite map_nth, seq_nth by exact Hi. reflexivity.
Qed.

Lemma bincount_nth (x : list nat) (minlength c : nat) :
  c < minlength -> nth c (np.bincount x minlength) 0 = count_occ Nat.eq_dec x c.
Proof.
  intros Hc. unfold np.bincount. apply nth_map_seq. destruct x; lia.
Qed.

Lemma allocation_nth (k : nat) (ye : list nat) (i c : nat) :
  i < k -> c < sklearn.n_classes ye ->
  nth c (nth i (sklearn.allocation k ye) []) 0
  = count_occ Nat.eq_dec (np.slice_step i k (np.isort Nat.leb ye)) c.
Proof.
  intros Hi Hc. unfold sklearn.allocation.
  rewrite nth_map_seq by exact Hi. apply bincount_nth. exact Hc.
Qed.

Lemma length_flat_map_repeat (f : nat -> nat) (s : list nat) :
  length (flat_map (fun i => repeat i (f i)) s) = list_sum (map f s).
Proof.
  induction s as [|x t IH]; simpl; [reflexivity|].
  rewrite length_app, repeat_length, IH. reflexivity.
Qed.

(** A class gets as many fold numbers as it has members. *)
Lemma folds_for_class_length (k : nat) (ye : list nat) (c : nat) :
  0 < k -> c < sklearn.n_classes ye ->
  length (sklearn.folds_for_class k (sklearn.allocation k ye) c)
  = count_occ Nat.eq_dec ye c.
Proof.
  intros Hk Hc. unfold sklearn.folds_for_class.
  rewrite length_flat_map_repeat.
  rewrite (map_ext_in _
             (fun i => count_occ Nat.eq_dec (np.slice_step i k (np.isort Nat.leb ye)) c)).
  - rewrite slices_count by exact Hk.
    apply Permutation_count_occ, isort_perm.
  - intros i Hin. apply in_seq in Hin. apply allocation_nth; [lia | exact Hc].
Qed.

Lemma insert_at_perm {A : Type} (k : nat) (x : A) (l : list A) :
  Permutation (np.insert_at k x l) (x :: l).
Proof.
  revert k. induction l as [|y t IH]; intros [|k]; simpl; try apply Permutation_refl.
  eapply perm_trans; [apply perm_skip, IH | apply perm_swap].
Qed.

Lemma shuffle_perm {G : Type} `{np.RandomGen G} {A : Type} (a : list A) (rng : G) :
  Permutation (fst (np.shuffle a rng)) a.
Proof.
  revert rng. induction a as [|x t IH]; intros rng; simpl; [constructor|].
  specialize (IH rng). destruct (np.shuffle t rng) as [t' rng1]. simpl in IH.
  destruct (np.randint _ rng1) as [k rng2]. simpl.
  eapply perm_trans; [apply insert_at_perm | apply perm_skip, IH].
Qed.

Lemma select_put_mask_same {A : Type} (mask : list bool) (vals dst : list A) :
  length mask = length dst -> length vals = sklearn.count true mask ->
  np.select mask (np.put_mask mask vals dst) = vals.
Proof.
  unfold sklearn.count. revert vals dst.
  induction mask as [|m mask IH]; intros vals [|d dst] Hl Hv; simpl in *;
    try discriminate.
  - destruct vals; [reflexivity | discriminate].
  - destruct m; simpl in Hv.
    + destruct vals as [|v vals]; [discriminate|]. simpl in *.
      rewrite IH; [reflexivity | lia | lia].
    + simpl. apply IH; lia.
Qed.

Lemma select_put_mask_other {A : Type} (mask mask' : list bool) (vals dst : list A) :
  Forall2 (fun a b => a && b = false) mask mask' ->
  np.select mask' (np.put_mask mask vals dst) = np.select mask' dst.
Proof.
  intros Hd. revert vals dst.
  induction Hd as [|m m' mask mask' Hm Hd IH]; intros vals [|d dst]; simpl;
    try reflexivity.
  destruct m, m'; simpl in *; try discriminate.
  - destruct vals; simpl; apply IH.
  - rewrite IH. reflexivity.
  - apply IH.
Qed.

Lemma select_In_nth {A : Type} (mask : list bool) (l : list A) (x : A) :
  In x (np.select mask l) ->
  exists j, nth_error mask j = Some true /\ nth_error l j = Some x.
Proof.
  revert l. induction mask as [|m mask IH]; intros [|y l]; simpl; try tauto.
  destruct m; simpl.
  - intros [->|Hx]; [exists 0; auto|].
    destruct (IH l Hx) as (j & Hj). exists (S j). exact Hj.
  - intros Hx. destruct (IH l Hx) as (j & Hj). exists (S j). exact Hj.
Qed.

Lemma where_In (mask : list bool) (j : nat) :
  nth_error mask j = Some true -> In j (np.where_ mask).
Proof.
  unfold np.where_.
  assert (Hgen : forall a, nth_error mask j = Some true ->
                           In (a + j) (np.select mask (seq a (length mask)))).
  { revert j. induction mask as [|m mask IH]; intros [|j] a Hj; simpl in *;
      try discriminate.
    - inversion Hj; subst. left. lia.
    - specialize (IH j (S a) Hj).
      replace (a + S j) with (S a + j) by lia.
      destruct m; [right|]; exact IH. }
  intros Hj. apply (Hgen 0). exact Hj.
Qed.

Lemma class_mask_count (c : nat) (ye : list nat) :
  sklearn.count true (map (Nat.eqb c) ye) = count_occ Nat.eq_dec ye c.
Proof.
  unfold sklearn.count. induction ye as [|e t IH]; simpl; [reflexivity|].
  destruct (Nat.eq_dec e c) as [E|E].
  - subst e. rewrite Nat.eqb_refl. simpl. rewrite IH. reflexivity.
  - replace (c =? e) with false by (symmetry; apply Nat.eqb_neq; congruence).
    simpl. exact IH.
Qed.

Lemma class_masks_disjoint (c c' : nat) (ye : list nat) :
  c <> c' ->
  Forall2 (fun a b => a && b = false) (map (Nat.eqb c) ye) (map (Nat.eqb c') ye).
Proof.
  intros Hc. induction ye as [|e t IH]; simpl; constructor; [|exact IH].
  destruct (Nat.eqb_spec c e), (Nat.eqb_spec c' e); simpl; congruence.
Qed.

Section Stratification.
Context {G : Type} `{np.RandomGen G}.

Lemma maybe_shuffle_perm (b : bool) (l : list nat) (rng : G) :
  Permutation (fst (if b then np.shuffle l rng else (l, rng))) l.
Proof. destruct b; [apply shuffle_perm | apply Permutation_refl]. Qed.

Lemma assign_folds_other kf alloc ye cs tf (rng : G) (c : nat) :
  ~ In c cs ->
  np.select (map (Nat.eqb c) ye) (fst (sklearn.assign_folds kf alloc ye cs tf rng))
  = np.select (map (Nat.eqb c) ye) tf.
Proof.
  revert tf rng. induction cs as [|c' cs IH]; intros tf rng Hc; simpl; [reflexivity|].
  destruct (if sklearn.shuffle kf then _ else _) as [v rng'].
  rewrite IH by (intros Hin; apply Hc; right; exact Hin).
  apply select_put_mask_other, class_masks_disjoint.
  intros ->. apply Hc. left. reflexivity.
Qed.

(** After the loop the samples of a class carry the fold numbers allotted
    to the class, in some order. *)
Lemma assign_folds_class kf alloc ye cs tf (rng : G) (c : nat) :
  NoDup cs -> In c cs -> length tf = length ye ->
  (forall c', In c' cs ->
     length (sklearn.folds_for_class (sklearn.n_splits kf) alloc c')
     = count_occ Nat.eq_dec ye c') ->
  Permutation
    (np.select (map (Nat.eqb c) ye) (fst (sklearn.assign_folds kf alloc ye cs tf rng)))
    (sklearn.folds_for_class (sklearn.n_splits kf) alloc c).
Proof.
  intros Hnd. revert tf rng.
  induction Hnd as [|c' cs Hc' Hnd IH]; intros tf rng Hin Hl Hlen; [destruct Hin|].
  simpl.
  pose proof (maybe_shuffle_perm (sklearn.shuffle kf)
                (sklearn.folds_for_class (sklearn.n_splits kf) alloc c') rng) as Hperm.
  destruct (if sklearn.shuffle kf then _ else _) as [v rng']. simpl in Hperm.
  destruct (Nat.eq_dec c' c) as [->|Hne].
  - rewrite assign_folds_other by exact Hc'.
    rewrite select_put_mask_same; [exact Hperm | rewrite length_map; lia |].
    rewrite (Permutation_length Hperm), class_mask_count.
    apply Hlen. left. reflexivity.
  - apply IH.
    + destruct Hin as [Hin|Hin]; [congruence | exact Hin].
    + rewrite put_mask_length. exact Hl.
    + intros c0 Hc0. apply Hlen. right. exact Hc0.
Qed.

Lemma encode_le (y : list bool) : Forall (fun v => v <= 1) (sklearn.encode y).
Proof.
  unfold sklearn.encode. destruct y as [|first y]; [constructor|].
  apply Forall_forall. intros v Hv. apply in_map_iff in Hv.
  destruct Hv as (b & <- & _). destruct (Bool.eqb b first); lia.
Qed.

Lemma count_encode_other (y : list bool) (first : bool) :
  count_occ Nat.eq_dec (map (fun b => if Bool.eqb b first then 0 else 1) y) 1
  = sklearn.count (negb first) y.
Proof.
  unfold sklearn.count. induction y as [|b y IH]; simpl; [reflexivity|].
  destruct b, first; simpl; rewrite IH; reflexivity.
Qed.

(** The code of a label: 0 for the label of the first sample. *)
Lemma encode_counts (k : nat) (y : list bool) :
  sklearn.enough_of_each k y ->
  k <= count_occ Nat.eq_dec (sklearn.encode y) 0 /\
  k <= count_occ Nat.eq_dec (sklearn.encode y) 1.
Proof.
  intros [Ht Hf]. unfold sklearn.encode.
  destruct y as [|first y].
  - simpl in *. lia.
  - rewrite count_encode, count_encode_other. destruct first; simpl negb; auto.
Qed.

Lemma n_classes_two (k : nat) (y : list bool) :
  0 < k -> sklearn.enough_of_each k y -> sklearn.n_classes (sklearn.encode y) = 2.
Proof.
  intros Hk Hy. destruct (encode_counts k y Hy) as [H0 H1].
  pose proof (encode_le y) as Hle.
  unfold sklearn.n_classes.
  destruct (sklearn.encode y) as [|e ye] eqn:He; [simpl in H0; lia|].
  rewrite <- He in *. f_equal.
  apply Nat.le_antisymm.
  - apply list_max_le. exact Hle.
  - destruct (list_max (sklearn.encode y)) as [|m] eqn:Hm; [|lia].
    exfalso.
    assert (Hall : Forall (fun v => v <= 0) (sklearn.encode y))
      by (apply list_max_le; lia).
    assert (Hin : In 1 (sklearn.encode y))
      by (apply (count_occ_In Nat.eq_dec); lia).
    rewrite Forall_forall in Hall. specialize (Hall 1 Hin). lia.
Qed.

Lemma encode_nth (y : list bool) (j e : nat) :
  nth_error (sklearn.encode y) j = Some e ->
  exists b first, nth_error y j = Some b /\ nth_error y 0 = Some first /\
                  e = if Bool.eqb b first then 0 else 1.
Proof.
  unfold sklearn.encode. destruct y as [|first y]; [destruct j; discriminate|].
  intros Hj. rewrite nth_error_map in Hj.
  destruct (nth_error (first :: y) j) as [b|] eqn:Hb; [|discriminate].
  inversion Hj. exists b, first. auto.
Qed.

(** Every test fold holds a sample of either class. *)
Lemma test_folds_cover (kf : sklearn.StratifiedKFold) (y : list bool) (rng : G) r :
  sklearn.make_test_folds kf y rng = Some r ->
  0 < sklearn.n_splits kf ->
  sklearn.enough_of_each (sklearn.n_splits kf) y ->
  forall i c, i < sklearn.n_splits kf ->
    exists j, nth_error (fst r) j = Some i /\ nth_error y j = Some c.
Proof.
  intros Hr Hk Hy i c Hi.
  unfold sklearn.make_test_folds in Hr.
  destruct (forallb _ _); [discriminate|]. inversion Hr; subst r; clear Hr.
  set (ye := sklearn.encode y) in *.
  set (k := sklearn.n_splits kf) in *.
  pose proof (n_classes_two k y Hk Hy) as Hnc. fold ye in Hnc.
  destruct (encode_counts k y Hy) as [H0 H1]. fold ye in H0, H1.
  assert (Hfirst : exists first, nth_error y 0 = Some first).
  { destruct y as [|first y']; [|exists first; reflexivity].
    destruct Hy as [Hy _]. simpl in Hy. lia. }
  destruct Hfirst as [first Hfirst].
  set (cc := if Bool.eqb c first then 0 else 1).
  assert (Hcc : cc < 2) by (unfold cc; destruct (Bool.eqb c first); lia).
  assert (Hperm := assign_folds_class kf (sklearn.allocation k ye) ye
                     (seq 0 (sklearn.n_classes ye)) (repeat 0 (length y)) rng cc).
  rewrite Hnc in Hperm.
  assert (Hin : In i (sklearn.folds_for_class k (sklearn.allocation k ye) cc)).
  { unfold sklearn.folds_for_class. apply in_flat_map. exists i.
    split; [apply in_seq; lia|].
    rewrite allocation_nth by (rewrite ?Hnc; lia).
    rewrite (isort_01 ye (encode_le y)).
    pose proof (slice_has_class k _ _ i cc Hi H0 H1 ltac:(lia)) as Hpos.
    destruct (count_occ _ _ cc); [lia | left; reflexivity]. }
  eapply Permutation_in in Hin; [|apply Permutation_sym, Hperm].
  - apply select_In_nth in Hin. destruct Hin as (j & Hm & Hj).
    exists j. split; [rewrite Hnc; exact Hj|].
    rewrite nth_error_map in Hm.
    destruct (nth_error ye j) as [e|] eqn:He; [|discriminate].
    simpl in Hm. inversion Hm as [Hce]. apply Nat.eqb_eq in Hce. subst e.
    apply encode_nth in He. destruct He as (b & f' & Hb & Hf' & Hcode).
    rewrite Hb. f_equal.
    rewrite Hfirst in Hf'. inversion Hf'; subst f'.
    unfold cc in Hcode. destruct b, c, first; simpl in Hcode; congruence.
  - apply seq_NoDup.
  - apply in_seq. lia.
  - rewrite repeat_length. unfold ye, sklearn.encode.
    destruct y; [reflexivity | rewrite length_map; reflexivity].
  - intros c' Hc'. apply in_seq in Hc'.
    apply folds_for_class_length; [exact Hk | rewrite Hnc; lia].
Qed.

(** With two folds or more, the training part of every fold holds a
    sample of either class: it contains the test part of another fold. *)
Lemma folds_of_train_both (kf : sklearn.StratifiedKFold) (y : list bool) (rng : G) r :
  sklearn.make_test_folds kf y rng = Some r ->
  2 <= sklearn.n_splits kf ->
  sklearn.enough_of_each (sklearn.n_splits kf) y ->
  forall fold c, In fold (sklearn.folds_of (sklearn.n_splits kf) (fst r)) ->
    exists j, In j (fst fold) /\ nth_error y j = Some c.
Proof.
  intros Hr Hk Hy fold c Hfold. unfold sklearn.folds_of in Hfold.
  apply in_map_iff in Hfold. destruct Hfold as (i & <- & Hi). apply in_seq in Hi.
  set (i' := if i =? 0 then 1 else 0).
  assert (Hi' : i' < sklearn.n_splits kf /\ (i =? i') = false).
  { unfold i'. destruct i as [|i]; simpl; split; try reflexivity; lia. }
  destruct Hi' as [Hlt Hne].
  destruct (test_folds_cover kf y rng r Hr (Nat.lt_le_trans _ _ _ Nat.lt_0_2 Hk) Hy i' c Hlt) as (j & Hj & Hc).
  exists j. split; [|exact Hc]. simpl. apply where_In.
  rewrite !nth_error_map, Hj. simpl. rewrite Hne. reflexivity.
Qed.

End Stratification.

(** *** Fitting and scoring the folds *)

Section CrossValidation.
Context {G E : Type} `{np.RandomGen G} `{sklearn.Estimator G E}.

(** The checks before the solver pass for a positive [C] and labels of
    both classes, and only then. *)
Lemma LogisticRegression_fit_some C mi (X : list (list Q)) y (g : G) :
  np.positive C = true -> 0 < sklearn.count true y -> 0 < sklearn.count false y ->
  sklearn.LogisticRegression_fit C mi X y g = Some (sklearn.fit C mi X y g).
Proof.
  intros HC Ht Hf. unfold sklearn.LogisticRegression_fit. rewrite HC. cbn [negb].
  destruct (sklearn.count true y) as [|t]; [lia|].
  destruct (sklearn.count false y) as [|f]; [lia|]. reflexivity.
Qed.

Lemma LogisticRegression_fit_inv C mi (X : list (list Q)) y (g : G) (r : E * G) :
  sklearn.LogisticRegression_fit C mi X y g = Some r ->
  r = sklearn.fit C mi X y g /\
  np.positive C = true /\ 0 < sklearn.count true y /\ 0 < sklearn.count false y.
Proof.
  unfold sklearn.LogisticRegression_fit.
  destruct (np.positive C) eqn:Hq; [|discriminate]. cbn [negb].
  destruct (sklearn.count true y) as [|t]; [discriminate|].
  destruct (sklearn.count false y) as [|f]; [discriminate|]. simpl.
  intros Hr. inversion Hr. split; [reflexivity|]. split; [reflexivity | lia].
Qed.

Lemma fit_and_score_some C mi (X : list (list Q)) y fold (g : G) :
  np.positive C = true ->
  length X = length y ->
  Forall (fun i => i < length y) (fst fold) ->
  Forall (fun i => i < length y) (snd fold) ->
  (forall c, exists j, In j (fst fold) /\ nth_error y j = Some c) ->
  exists r, sklearn.fit_and_score C mi X y fold g = Some r.
Proof.
  intros HC Hl Htr Hte Hboth. unfold sklearn.fit_and_score.
  rewrite (take_some [] X (fst fold)) by (rewrite Hl; exact Htr).
  rewrite (take_some false y (fst fold)) by exact Htr.
  rewrite (take_some [] X (snd fold)) by (rewrite Hl; exact Hte).
  rewrite (take_some false y (snd fold)) by exact Hte.
  cbn [obind].
  assert (Hc : forall c,
             0 < sklearn.count c (map (fun i => nth i y false) (fst fold))).
  { intros c. destruct (Hboth c) as (j & Hj & Hyj).
    apply (count_occ_In bool_dec). apply in_map_iff. exists j.
    split; [apply nth_error_nth; exact Hyj | exact Hj]. }
  rewrite LogisticRegression_fit_some by auto. cbn [obind].
  destruct (sklearn.fit _ _ _ _ _). eauto.
Qed.

(** What a fold's scores are computed from: the estimator of the fold
    and the test rows of the fold. *)
Lemma fit_and_score_inv C mi (X : list (list Q)) y fold (g : G) r :
  sklearn.fit_and_score C mi X y fold g = Some r ->
  exists Xte yte,
    np.take X (snd fold) = Some Xte /\ np.take y (snd fold) = Some yte /\
    fst (snd (fst r))
    = sklearn.balanced_accuracy_score yte (map (sklearn.predict (fst (fst r))) Xte) /\
    snd (snd (fst r))
    = sklearn.roc_auc_score yte (map (sklearn.decision_function (fst (fst r))) Xte).
Proof.
  unfold sklearn.fit_and_score. intros Hr.
  obind_inv Hr. obind_inv Hr. obind_inv Hr. obind_inv Hr. obind_inv Hr.
  destruct a3 as [est g'].
  inversion Hr; subst r. simpl. eauto 6.
Qed.

Lemma fit_folds_some C mi (X : list (list Q)) y folds (g : G) :
  (forall fold g, In fold folds -> exists r, sklearn.fit_and_score C mi X y fold g = Some r) ->
  exists r, sklearn.fit_folds C mi X y folds g = Some r.
Proof.
  revert g. induction folds as [|fold rest IH]; intros g Hf; simpl; [eauto|].
  destruct (Hf fold g (or_introl eq_refl)) as [r Hr]. rewrite Hr. simpl.
  destruct (IH (snd r)) as [rs Hrs].
  - intros f g' Hin. apply Hf. right. exact Hin.
  - rewrite Hrs. simpl. eauto.
Qed.

Lemma fit_folds_inv C mi (X : list (list Q)) y folds (g : G) rs :
  sklearn.fit_folds C mi X y folds g = Some rs ->
  Forall2 (fun fold r => exists g1 g2,
             sklearn.fit_and_score C mi X y fold g1 = Some (r, g2))
          folds (fst rs).
Proof.
  revert g rs. induction folds as [|fold rest IH]; intros g rs; simpl; intros Hrs.
  - inversion Hrs. constructor.
  - obind_inv Hrs. obind_inv Hrs. inversion Hrs; subst rs; simpl.
    constructor.
    + exists g, (snd a). rewrite Ha. destruct a; reflexivity.
    + eapply IH. exact Ha0.
Qed.

Lemma cross_validate_inv C mi (X : list (list Q)) y kf (g : G) r :
  sklearn.cross_validate C mi X y kf g = Some r ->
  exists sp rs,
    sklearn.split kf (length X) y g = Some sp /\
    sklearn.fit_folds C mi X y (fst sp) (snd sp) = Some rs /\
    sklearn.indices (fst r) = fst sp /\
    sklearn.test_balanced_accuracy (fst r) = map (fun r => fst (snd r)) (fst rs) /\
    sklearn.test_roc_auc (fst r) = map (fun r => snd (snd r)) (fst rs) /\
    sklearn.estimator (fst r) = map fst (fst rs).
Proof.
  unfold sklearn.cross_validate. destruct (negb _); [discriminate|].
  intros Hr. obind_inv Hr. obind_inv Hr. inversion Hr; subst r. simpl.
  exists a, a0. auto 7.
Qed.

(** On valid input a cross-validation returns, for every positive [C]
    and every state of the global generator, and it ran on the folds that
    the seed determines. *)
Lemma cross_validate_some C mi (X : list (list Q)) y kf seed (g : G) :
  sklearn.random_state_of kf = sklearn.rs_int seed ->
  2 <= sklearn.n_splits kf ->
  sklearn.enough_of_each (sklearn.n_splits kf) y ->
  length X = length y ->
  np.positive C = true ->
  exists tf r,
    sklearn.make_test_folds kf y (np.RandomState seed) = Some tf /\
    sklearn.cross_validate C mi X y kf g = Some r /\
    sklearn.indices (fst r) = sklearn.folds_of (sklearn.n_splits kf) (fst tf).
Proof.
  intros Hrs Hk Hy Hl HC.
  destruct (split_some kf seed (length X) y g Hrs
              (Nat.lt_le_trans _ _ _ Nat.lt_0_2 Hk) Hy Hl)
    as (tf & Htf & Hsp).
  exists tf. unfold sklearn.cross_validate.
  rewrite Hl, Nat.eqb_refl. simpl. rewrite <- Hl, Hsp. simpl.
  destruct (fit_folds_some C mi X y
              (sklearn.folds_of (sklearn.n_splits kf) (fst tf)) g) as [rs Hrs'].
  - intros fold g' Hin.
    pose proof (folds_of_train_both kf y _ tf Htf Hk Hy fold) as Hboth.
    apply folds_of_bound in Hin as Hbd.
    rewrite (make_test_folds_length _ _ _ _ Htf) in Hbd.
    apply fit_and_score_some; try tauto.
    intros c. apply Hboth. exact Hin.
  - rewrite Hrs'. simpl. eexists. split; [exact Htf|]. split; reflexivity.
Qed.

(** *** The loop over the candidates *)

Lemma set_Forall {V : Type} (P : V -> Prop) (d : dict.t V) (k : Q) (v : V) :
  Forall (fun kv => P (snd kv)) d -> P v ->
  Forall (fun kv => P (snd kv)) (dict.set d k v).
Proof.
  intros Hd Hv. induction Hd as [|[k' v'] r Hkv Hr IH]; simpl.
  - repeat constructor. exact Hv.
  - destruct (Qeq_bool k' k); constructor; assumption.
Qed.

Lemma keys_set {V : Type} (d : dict.t V) (k : Q) (v : V) :
  dict.keys (dict.set d k v) = dict.add_key (dict.keys d) k.
Proof.
  unfold dict.add_key, dict.keys. induction d as [|[k' v'] r IH]; simpl.
  - reflexivity.
  - destruct (Qeq_bool k' k); simpl; [reflexivity|].
    rewrite IH. destruct (existsb _ _); reflexivity.
Qed.

Lemma Qinv_candidate (l : Q) : (0 < l)%Q -> (0 < 1 / l)%Q.
Proof.
  intros Hl. unfold Qdiv. rewrite Qmult_1_l. apply Qinv_lt_0_compat. exact Hl.
Qed.

Lemma fin_positive (q : Q) : np.positive (np.fin q) = true <-> (0 < q)%Q.
Proof.
  simpl. split.
  - intros Hq. apply Qnot_le_lt. intros Hle. apply Qle_bool_iff in Hle.
    rewrite Hle in Hq. discriminate.
  - intros Hq. destruct (Qle_bool q 0) eqn:Hle; [|reflexivity].
    apply Qle_bool_iff in Hle. exfalso. exact (Qlt_not_le _ _ Hq Hle).
Qed.

(** The reciprocal of a positive candidate is finite and positive. *)
Lemma reciprocal_candidate (l : Q) :
  (0 < l)%Q -> np.reciprocal l = np.fin (1 / l) /\ np.positive (np.reciprocal l) = true.
Proof.
  intros Hl. unfold np.reciprocal.
  destruct (Qeq_bool l 0) eqn:Hz.
  - apply Qeq_bool_iff in Hz. rewrite Hz in Hl. discriminate.
  - split; [reflexivity|]. apply fin_positive, Qinv_candidate, Hl.
Qed.

Lemma sweep_loop_some lambda_vals mi (X : list (list Q)) y kf d (g : G) :
  (forall C g, np.positive C = true ->
               exists r, sklearn.cross_validate C mi X y kf g = Some r) ->
  Forall (fun l => (0 < l)%Q) lambda_vals ->
  exists r, Lasso.sweep_loop lambda_vals mi X y kf d g = Some r.
Proof.
  intros Hcv Hpos. revert d g.
  induction Hpos as [|l rest Hl Hrest IH]; intros d g; simpl.
  - eauto.
  - destruct (Hcv (np.reciprocal l) g (proj2 (reciprocal_candidate l Hl))) as [r Hr].
    rewrite Hr. simpl. apply IH.
Qed.

Lemma sweep_loop_Forall (P : sklearn.cv_results E -> Prop)
  lambda_vals mi (X : list (list Q)) y kf d (g : G) r :
  (forall C g r, sklearn.cross_validate C mi X y kf g = Some r -> P (fst r)) ->
  Forall (fun kv => P (snd kv)) d ->
  Lasso.sweep_loop lambda_vals mi X y kf d g = Some r ->
  Forall (fun kv => P (snd kv)) (fst r).
Proof.
  intros Hcv. revert d g. induction lambda_vals as [|l rest IH]; intros d g Hd; simpl.
  - intros Hr. inversion Hr; subst r. exact Hd.
  - intros Hr. obind_inv Hr. eapply IH; [|exact Hr].
    apply set_Forall; [exact Hd|]. eapply Hcv. exact Ha.
Qed.

Lemma sweep_loop_keys lambda_vals mi (X : list (list Q)) y kf d (g : G) r :
  Lasso.sweep_loop lambda_vals mi X y kf d g = Some r ->
  dict.keys (fst r) = fold_left dict.add_key lambda_vals (dict.keys d).
Proof.
  revert d g. induction lambda_vals as [|l rest IH]; intros d g; simpl.
  - intros Hr. inversion Hr; subst r. reflexivity.
  - intros Hr. obind_inv Hr. rewrite (IH _ _ Hr), keys_set. reflexivity.
Qed.

End CrossValidation.

(** ** Keys of the results dictionary and their sorted order *)

Lemma existsb_InA (ks : list Q) (k : Q) :
  existsb (fun k' => Qeq_bool k' k) ks = true <-> InA Qeq k ks.
Proof.
  rewrite existsb_exists, InA_alt. split.
  - intros (x & Hx & Hq). exists x. split; [|exact Hx].
    apply Qeq_bool_iff in Hq. symmetry. exact Hq.
  - intros (x & Hq & Hx). exists x. split; [exact Hx|].
    apply Qeq_bool_iff. symmetry. exact Hq.
Qed.

Lemma add_key_NoDupA (ks : list Q) (k : Q) :
  NoDupA Qeq ks -> NoDupA Qeq (dict.add_key ks k).
Proof.
  intros Hks. unfold dict.add_key.
  destruct (existsb _ ks) eqn:Hex; [exact Hks|].
  apply NoDupA_app; [apply Q_Setoid | exact Hks | repeat constructor; inversion 1 |].
  intros x Hx Hxk. inversion Hxk as [? ? Heq|? ? Hnil]; subst; [|inversion Hnil].
  assert (Hin : InA Qeq k ks).
  { eapply InA_eqA; [apply Q_Setoid | exact Heq | exact Hx]. }
  apply existsb_InA in Hin. congruence.
Qed.

Lemma fold_add_key_NoDupA (ls ks : list Q) :
  NoDupA Qeq ks -> NoDupA Qeq (fold_left dict.add_key ls ks).
Proof.
  revert ks. induction ls as [|l ls IH]; intros ks Hks; simpl; [exact Hks|].
  apply IH, add_key_NoDupA, Hks.
Qed.

Lemma add_key_In (ks : list Q) (k x : Q) :
  In x (dict.add_key ks k) -> In x ks \/ x = k.
Proof.
  unfold dict.add_key. destruct (existsb _ ks); [tauto|].
  intros Hx. apply in_app_or in Hx. simpl in Hx. intuition.
Qed.

Lemma fold_add_key_In (ls ks : list Q) (x : Q) :
  In x (fold_left dict.add_key ls ks) -> In x ks \/ In x ls.
Proof.
  revert ks. induction ls as [|l ls IH]; intros ks; simpl; [tauto|].
  intros Hx. apply IH in Hx. destruct Hx as [Hx|Hx]; [|tauto].
  apply add_key_In in Hx. intuition.
Qed.

Lemma add_key_InA (ks : list Q) (k x : Q) :
  InA Qeq x ks \/ (x == k)%Q -> InA Qeq x (dict.add_key ks k).
Proof.
  unfold dict.add_key. destruct (existsb _ ks) eqn:Hex.
  - intros [Hx|Hx]; [exact Hx|].
    apply existsb_InA in Hex.
    eapply InA_eqA; [apply Q_Setoid | symmetry; exact Hx | exact Hex].
  - intros [Hx|Hx]; apply InA_app_iff; [left; exact Hx | right].
    constructor. exact Hx.
Qed.

Lemma fold_add_key_InA (ls ks : list Q) (x : Q) :
  InA Qeq x ks \/ InA Qeq x ls -> InA Qeq x (fold_left dict.add_key ls ks).
Proof.
  revert ks. induction ls as [|l ls IH]; intros ks; simpl.
  - intros [Hx|Hx]; [exact Hx | inversion Hx].
  - intros [Hx|Hx]; apply IH.
    + left. apply add_key_InA. left. exact Hx.
    + inversion Hx; subst.
      * left. apply add_key_InA. right. assumption.
      * right. assumption.
Qed.

(** A strictly ascending candidate list is stored key by key, in order. *)
Lemma fold_add_key_ascending (ls ks : list Q) :
  StronglySorted Qlt (ks ++ ls) -> fold_left dict.add_key ls ks = ks ++ ls.
Proof.
  revert ks. induction ls as [|l ls IH]; intros ks Hs; simpl.
  - rewrite app_nil_r. reflexivity.
  - assert (Hnew : dict.add_key ks l = ks ++ [l]).
    { unfold dict.add_key. destruct (existsb _ ks) eqn:Hex; [|reflexivity].
      exfalso. apply existsb_exists in Hex. destruct Hex as (x & Hx & Hq).
      apply Qeq_bool_iff in Hq.
      assert (Hlt : (x < l)%Q).
      { clear IH Hq. induction ks as [|k ks IHk]; [destruct Hx|].
        simpl in Hs. inversion Hs as [|? ? Hs' Hall]; subst.
        destruct Hx as [->|Hx]; [|apply IHk; assumption].
        rewrite Forall_forall in Hall. apply Hall.
        apply in_or_app. right. left. reflexivity. }
      rewrite Hq in Hlt. exact (Qlt_irrefl _ Hlt). }
    rewrite Hnew, IH; rewrite <- app_assoc; [reflexivity | exact Hs].
Qed.

Lemma insert_strict (x : Q) (l : list Q) :
  StronglySorted Qlt l -> ~ InA Qeq x l ->
  StronglySorted Qlt (np.insert Qle_bool x l).
Proof.
  induction 1 as [|y t Hs IH Hy]; intros Hx; simpl.
  - repeat constructor.
  - assert (Hxy : ~ (x == y)%Q) by (intros Heq; apply Hx; constructor; exact Heq).
    assert (Hxt : ~ InA Qeq x t) by (intros Hin; apply Hx; constructor 2; exact Hin).
    destruct (Qle_bool x y) eqn:Hle.
    + apply Qle_bool_iff in Hle.
      assert (Hlt : (x < y)%Q).
      { apply Qle_lteq in Hle. destruct Hle; [assumption | contradiction]. }
      constructor; [constructor; assumption|].
      constructor; [exact Hlt|].
      eapply Forall_impl; [|exact Hy]. intros b Hb. eapply Qlt_trans; eassumption.
    + assert (Hlt : (y < x)%Q).
      { apply Qnot_le_lt. intros Hc. apply Qle_bool_iff in Hc. congruence. }
      constructor; [apply IH; exact Hxt|].
      eapply Permutation_Forall; [apply Permutation_sym, insert_perm|].
      constructor; assumption.
Qed.

Lemma sorted_strict (l : list Q) : NoDupA Qeq l -> StronglySorted Qlt (sorted l).
Proof.
  unfold sorted. induction 1 as [|x t Hx Ht IH]; simpl.
  - constructor.
  - apply insert_strict; [exact IH|].
    intros Hin. apply Hx. rewrite InA_alt in *.
    destruct Hin as (z & Hz & Hin). exists z. split; [exact Hz|].
    eapply Permutation_in; [apply isort_perm | exact Hin].
Qed.

Lemma sorted_ascending_id (l : list Q) : StronglySorted Qlt l -> sorted l = l.
Proof.
  unfold sorted. induction 1 as [|x t Hs IH Hx]; simpl; [reflexivity|].
  rewrite IH. destruct t as [|y t']; simpl; [reflexivity|].
  inversion Hx; subst.
  replace (Qle_bool x y) with true; [reflexivity|].
  symmetry. apply Qle_bool_iff, Qlt_le_weak. assumption.
Qed.

Lemma sorted_perm (l : list Q) : Permutation (sorted l) l.
Proof. apply isort_perm. Qed.

(** ** Aggregation *)

Lemma get_some {V : Type} (d : dict.t V) (k : Q) :
  In k (dict.keys d) -> exists v, dict.get d k = Some v /\ In v (map snd d).
Proof.
  unfold dict.keys. induction d as [|[k' v'] r IH]; simpl; [tauto|].
  intros Hk. destruct (Qeq_bool k' k) eqn:Hq.
  - exists v'. auto.
  - destruct Hk as [->|Hk].
    + rewrite (proj2 (Qeq_bool_iff k k) (Qeq_refl k)) in Hq. discriminate.
    + destruct (IH Hk) as (v & Hv & Hin). exists v. auto.
Qed.

Section Aggregation.
Context {G E : Type} `{sklearn.Estimator G E}.

(** The aggregation yields one row per key it is given, in that order,
    each row computed from the cross-validation stored under its key. *)
Lemma aggregate_loop_some (d : dict.t (sklearn.cv_results E)) (ks : list Q) :
  Forall (fun k => In k (dict.keys d)) ks ->
  exists rows,
    Lasso.aggregate_loop d ks = Some rows /\
    map Lasso.lambda_val rows = ks /\
    Forall (fun row => exists cv, In cv (map snd d) /\
                       row = Lasso.aggregate_row (Lasso.lambda_val row) cv) rows.
Proof.
  induction 1 as [|k ks Hk Hks IH]; simpl.
  - exists []. repeat constructor.
  - destruct (get_some d k Hk) as (cv & Hcv & Hin). rewrite Hcv. simpl.
    destruct IH as (rows & -> & Hmap & Hall). simpl.
    eexists. split; [reflexivity|]. split; [simpl; rewrite Hmap; reflexivity|].
    constructor; [|exact Hall]. exists cv. split; [exact Hin | reflexivity].
Qed.

Lemma aggregate_metrics_some (d : dict.t (sklearn.cv_results E)) :
  exists rows,
    Lasso.aggregate_metrics d = Some rows /\
    map Lasso.lambda_val rows = sorted (dict.keys d) /\
    Forall (fun row => exists cv, In cv (map snd d) /\
                       row = Lasso.aggregate_row (Lasso.lambda_val row) cv) rows.
Proof.
  unfold Lasso.aggregate_metrics. apply aggregate_loop_some.
  apply Forall_forall. intros k Hk.
  eapply Permutation_in; [apply sorted_perm | exact Hk].
Qed.

End Aggregation.

(** ** The sweep *)

Section Sweep.
Context {G E : Type} `{np.RandomGen G} `{sklearn.Estimator G E}.

(** What a cross-validation stored in the results was computed on: the
    folds in its [indices], for some candidate. *)
Lemma cross_validate_on_indices C mi (X : list (list Q)) y kf (g : G) r :
  sklearn.cross_validate C mi X y kf g = Some r ->
  exists g1 rs,
    sklearn.fit_folds C mi X y (sklearn.indices (fst r)) g1 = Some rs /\
    sklearn.estimator (fst r) = map fst (fst rs) /\
    sklearn.test_balanced_accuracy (fst r) = map (fun r => fst (snd r)) (fst rs) /\
    sklearn.test_roc_auc (fst r) = map (fun r => snd (snd r)) (fst rs).
Proof.
  intros Hr. apply cross_validate_inv in Hr.
  destruct Hr as (sp & rs & _ & Hrs & Hi & Hb & Ha & He).
  exists (snd sp), rs. rewrite Hi. auto.
Qed.

Lemma sweep_some (X : list (list Q)) y k lambda_vals mi seed (g : G) :
  2 <= k -> sklearn.enough_of_each k y -> length X = length y ->
  Forall (fun l => (0 < l)%Q) lambda_vals ->
  exists tf d rows g',
    sklearn.make_test_folds
      {| sklearn.n_splits := k; sklearn.shuffle := true;
         sklearn.random_state_of := sklearn.rs_int seed |} y (np.RandomState seed)
    = Some tf /\
    Lasso.sweep X y k lambda_vals mi seed g = Some ((d, rows), g') /\
    Forall (fun kv =>
              sklearn.indices (snd kv) = sklearn.folds_of k (fst tf) /\
              exists C g1 rs,
                sklearn.fit_folds C mi X y (sklearn.indices (snd kv)) g1 = Some rs /\
                sklearn.estimator (snd kv) = map fst (fst rs) /\
                sklearn.test_balanced_accuracy (snd kv)
                = map (fun r => fst (snd r)) (fst rs) /\
                sklearn.test_roc_auc (snd kv) = map (fun r => snd (snd r)) (fst rs)) d /\
    dict.keys d = fold_left dict.add_key lambda_vals [] /\
    map Lasso.lambda_val rows = sorted (dict.keys d) /\
    Forall (fun row => exists cv, In cv (map snd d) /\
                       row = Lasso.aggregate_row (Lasso.lambda_val row) cv) rows.
Proof.
  intros Hk Hy Hl Hpos.
  set (kf := {| sklearn.n_splits := k; sklearn.shuffle := true;
                sklearn.random_state_of := sklearn.rs_int seed |}).
  assert (Hk0 : 0 < sklearn.n_splits kf) by (simpl; lia).
  destruct (make_test_folds_some kf y (np.RandomState seed) Hk0 Hy) as [tf Htf].
  assert (Hcv : forall C g, np.positive C = true ->
                  exists r, sklearn.cross_validate C mi X y kf g = Some r).
  { intros C g0 HC.
    destruct (cross_validate_some C mi X y kf seed g0 eq_refl Hk Hy Hl HC)
      as (_ & r & _ & Hr & _).
    eauto. }
  destruct (sweep_loop_some lambda_vals mi X y kf [] g Hcv Hpos) as [[d g'] Hd].
  destruct (aggregate_metrics_some d) as (rows & Hrows & Hmap & Hall).
  exists tf, d, rows, g'. split; [exact Htf|]. split.
  - unfold Lasso.sweep, sklearn.new_StratifiedKFold.
    replace (k <=? 1) with false by (symmetry; apply Nat.leb_gt; lia).
    simpl. fold kf. rewrite Hd. simpl. rewrite Hrows. reflexivity.
  - split; [|split; [|split]]; try assumption.
    + apply (sweep_loop_Forall
               (fun cv =>
                  sklearn.indices cv = sklearn.folds_of k (fst tf) /\
                  exists C g1 rs,
                    sklearn.fit_folds C mi X y (sklearn.indices cv) g1 = Some rs /\
                    sklearn.estimator cv = map fst (fst rs) /\
                    sklearn.test_balanced_accuracy cv
                    = map (fun r => fst (snd r)) (fst rs) /\
                    sklearn.test_roc_auc cv = map (fun r => snd (snd r)) (fst rs))
               lambda_vals mi X y kf [] g (d, g'));
        [|constructor | exact Hd].
      intros C g0 r Hr. split.
      * destruct (cross_validate_inv _ _ _ _ _ _ _ Hr) as (sp & rs & Hsp & _ & Hi & _).
        destruct (split_some kf seed (length X) y g0 eq_refl Hk0 Hy Hl)
          as (tf' & Htf' & Hsp').
        rewrite Htf in Htf'. inversion Htf'; subst tf'.
        rewrite Hsp in Hsp'. inversion Hsp'; subst sp. exact Hi.
      * exists C. eapply cross_validate_on_indices. exact Hr.
    + apply (sweep_loop_keys lambda_vals mi X y kf [] g (d, g')). exact Hd.
Qed.

Lemma sweep_inv (X : list (list Q)) y k lambda_vals mi seed (g : G) d rows g' :
  Lasso.sweep X y k lambda_vals mi seed g = Some ((d, rows), g') ->
  2 <= k /\
  Lasso.sweep_loop lambda_vals mi X y
    {| sklearn.n_splits := k; sklearn.shuffle := true;
       sklearn.random_state_of := sklearn.rs_int seed |} [] g = Some (d, g') /\
  Lasso.aggregate_metrics d = Some rows.
Proof.
  unfold Lasso.sweep, sklearn.new_StratifiedKFold.
  destruct (Nat.leb_spec k 1) as [Hle|Hgt]; [discriminate|].
  cbn [obind]. intros Hs. obind_inv Hs. obind_inv Hs.
  inversion Hs; subst. destruct a as [d0 g0]. simpl in *. auto.
Qed.

(** A cross-validation under an integer seed ran on the folds that the
    split yields from every state of the global generator. *)
Lemma cross_validate_split C mi (X : list (list Q)) y kf seed (g : G) r :
  sklearn.random_state_of kf = sklearn.rs_int seed ->
  sklearn.cross_validate C mi X y kf g = Some r ->
  forall g0 : G,
    sklearn.split kf (length X) y g0 = Some (sklearn.indices (fst r), g0).
Proof.
  intros Hrs Hr g0. apply cross_validate_inv in Hr.
  destruct Hr as (sp & rs & Hsp & _ & Hi & _).
  rewrite (split_seeded kf seed _ _ g Hrs) in Hsp.
  rewrite (split_seeded kf seed _ _ g0 Hrs).
  obind_inv Hsp. rewrite Ha. cbn [obind]. inversion Hsp; subst sp.
  rewrite Hi. reflexivity.
Qed.

End Sweep.

(** C6, as stated, fails: for the candidates 10, 1 (in this order) the
    aggregate lists the row of 1 before the row of 10. *)
Lemma sweep_rows_not_in_supplied_order :
  exists d rows g',
    Lasso.sweep (Reference.toy_X 8 2) (Reference.toy_y 8) 2 [10#1; 1]%Q 100 1%Z 0
    = Some ((d, rows), g') /\
    map Lasso.lambda_val rows = [1; 10#1]%Q /\
    map Lasso.lambda_val rows <> [10#1; 1]%Q.
Proof.
  destruct (Lasso.sweep (Reference.toy_X 8 2) (Reference.toy_y 8) 2 [10#1; 1]%Q 100 1%Z 0)
    as [[[d rows] g']|] eqn:Hs; [|vm_compute in Hs; discriminate].
  exists d, rows, g'. split; [reflexivity|].
  assert (Hrows : map Lasso.lambda_val rows = [1; 10#1]%Q).
  { vm_compute in Hs. inversion Hs; subst. reflexivity. }
  split; [exact Hrows|]. rewrite Hrows. discriminate.
Qed.

(** C6 (amended): the sweep's aggregate output lists one result row per
    distinct regularization candidate, in strictly ascending order of the
    candidate value; the rows' candidates are supplied ones and every
    supplied candidate has its row.  The rows are in the supplied order
    exactly when the caller supplies the candidates in strictly ascending
    order.  The sweep returns for two folds or more, positive candidates
    and a training set with at least [k] samples of either class. *)
Theorem sweep_rows_ascending
  {G E : Type} `{np.RandomGen G} `{sklearn.Estimator G E}
  (X : list (list Q)) (y : list bool) (k : nat) (lambda_vals : list Q)
  (max_iter : nat) (seed : Z) (g : G) :
  (forall d rows g',
      Lasso.sweep X y k lambda_vals max_iter seed g = Some ((d, rows), g') ->
      StronglySorted Qlt (map Lasso.lambda_val rows) /\
      (forall l, In l (map Lasso.lambda_val rows) -> In l lambda_vals) /\
      (forall l, In l lambda_vals -> InA Qeq l (map Lasso.lambda_val rows)) /\
      (map Lasso.lambda_val rows = lambda_vals <-> StronglySorted Qlt lambda_vals)) /\
  (2 <= k -> sklearn.enough_of_each k y -> length X = length y ->
   Forall (fun l => (0 < l)%Q) lambda_vals ->
   exists d rows g',
     Lasso.sweep X y k lambda_vals max_iter seed g = Some ((d, rows), g')).
Proof.
  split.
  - intros d rows g' Hsw. apply sweep_inv in Hsw. destruct Hsw as (_ & Hloop & Hagg).
    pose proof (sweep_loop_keys _ _ _ _ _ _ _ _ Hloop) as Hkeys. simpl in Hkeys.
    destruct (aggregate_metrics_some d) as (rows' & Hrows' & Hmap & _).
    rewrite Hagg in Hrows'. inversion Hrows'; subst rows'.
    rewrite Hmap, Hkeys. split; [|split; [|split]].
    + apply sorted_strict, fold_add_key_NoDupA. constructor.
    + intros l Hin.
      apply (Permutation_in _ (sorted_perm _)) in Hin.
      apply fold_add_key_In in Hin. destruct Hin as [[]|Hin]. exact Hin.
    + intros l Hin.
      assert (HA : InA Qeq l (fold_left dict.add_key lambda_vals [])).
      { apply fold_add_key_InA. right. apply In_InA; [apply Q_Setoid | exact Hin]. }
      rewrite InA_alt in *. destruct HA as (z & Hz & Hzin). exists z.
      split; [exact Hz|].
      eapply Permutation_in; [apply Permutation_sym, sorted_perm | exact Hzin].
    + split.
      * intros Heq. rewrite <- Heq.
        apply sorted_strict, fold_add_key_NoDupA. constructor.
      * intros Hasc.
        rewrite (fold_add_key_ascending lambda_vals []) by exact Hasc.
        apply sorted_ascending_id. exact Hasc.
  - intros Hk Hy Hl Hpos.
    destruct (sweep_some X y k lambda_vals max_iter seed g Hk Hy Hl Hpos)
      as (_ & d & rows & g' & _ & Hsw & _).
    eauto.
Qed.

(** A 2-fold sweep over the unsorted grid 10, 0.1, 1, 10. *)
Lemma sweep_rows_ascending_witness :
  let X := Reference.toy_X 8 2 in
  let y := Reference.toy_y 8 in
  let lambda_vals := [10#1; 1#10; 1; 10#1]%Q in
  (2 <= 2 /\ sklearn.enough_of_each 2 y /\ length X = length y /\
   Forall (fun l => (0 < l)%Q) lambda_vals) /\
  exists d rows g',
    Lasso.sweep X y 2 lambda_vals 100 1%Z 0 = Some ((d, rows), g') /\
    StronglySorted Qlt (map Lasso.lambda_val rows) /\
    (forall l, In l (map Lasso.lambda_val rows) -> In l lambda_vals) /\
    (forall l, In l lambda_vals -> InA Qeq l (map Lasso.lambda_val rows)) /\
    (map Lasso.lambda_val rows = lambda_vals <-> StronglySorted Qlt lambda_vals).
Proof.
  intros X y lambda_vals.
  assert (Hk : 2 <= 2) by lia.
  assert (Hy : sklearn.enough_of_each 2 y) by (split; vm_compute; lia).
  assert (Hl : length X = length y) by reflexivity.
  assert (Hp : Forall (fun l => (0 < l)%Q) lambda_vals)
    by (repeat constructor).
  split; [tauto|].
  destruct (sweep_rows_ascending X y 2 lambda_vals 100 1%Z 0) as [Hinv Hret].
  destruct (Hret Hk Hy Hl Hp) as (d & rows & g' & Hsw).
  exists d, rows, g'. split; [exact Hsw | exact (Hinv d rows g' Hsw)].
Defined.

(** ** Ranges of the metrics *)

Lemma Qnat_nonneg (n : nat) : (0 <= np.Qnat n)%Q.
Proof. unfold np.Qnat, Qle. simpl. lia. Qed.

Lemma Qnat_pos (n : nat) : 0 < n -> (0 < np.Qnat n)%Q.
Proof. unfold np.Qnat, Qlt. simpl. lia. Qed.

Lemma Qnat_le (a b : nat) : a <= b -> (np.Qnat a <= np.Qnat b)%Q.
Proof. unfold np.Qnat, Qle. simpl. lia. Qed.

Lemma Qnat_S (n : nat) : (np.Qnat (S n) == np.Qnat n + 1)%Q.
Proof.
  unfold np.Qnat. rewrite Nat2Z.inj_succ, <- Z.add_1_r, inject_Z_plus. reflexivity.
Qed.

Lemma ratio_unit (a b : nat) : a <= b -> 0 < b -> unit_interval (np.Qnat a / np.Qnat b).
Proof.
  intros Hab Hb. split.
  - apply Qle_shift_div_l; [apply Qnat_pos, Hb|].
    rewrite Qmult_0_l. apply Qnat_nonneg.
  - apply Qle_shift_div_r; [apply Qnat_pos, Hb|].
    rewrite Qmult_1_l. apply Qnat_le, Hab.
Qed.

Lemma sumQ_bounds (M : Q) (l : list Q) :
  Forall (fun x => 0 <= x /\ x <= M)%Q l ->
  (0 <= np.sumQ l /\ np.sumQ l <= np.Qnat (length l) * M)%Q.
Proof.
  induction 1 as [|x t [Hx0 HxM] Ht [IH0 IHM]]; simpl.
  - split; [apply Qle_refl|]. rewrite Qmult_0_l. apply Qle_refl.
  - split.
    + rewrite <- (Qplus_0_l 0). apply Qplus_le_compat; assumption.
    + change (np.Qnat (S (length t))) with (np.Qnat (S (length t))).
      rewrite Qnat_S, Qmult_plus_distr_l, Qmult_1_l, Qplus_comm.
      apply Qplus_le_compat; assumption.
Qed.

Lemma recall_hits_le (c : bool) (y_true y_pred : list bool) :
  length (filter (fun tp => Bool.eqb (fst tp) c && Bool.eqb (snd tp) c)
            (combine y_true y_pred))
  <= sklearn.count c y_true.
Proof.
  unfold sklearn.count. revert y_pred.
  induction y_true as [|t yt IH]; intros [|p yp]; simpl; try lia.
  specialize (IH yp).
  destruct t, c, p; simpl; lia.
Qed.

Lemma recall_unit (c : bool) (y_true y_pred : list bool) :
  0 < sklearn.count c y_true -> unit_interval (sklearn.recall c y_true y_pred).
Proof.
  intros Hc. unfold sklearn.recall. apply ratio_unit; [apply recall_hits_le | exact Hc].
Qed.

Lemma balanced_accuracy_unit (y_true y_pred : list bool) :
  0 < sklearn.count true y_true -> 0 < sklearn.count false y_true ->
  exists b, sklearn.balanced_accuracy_score y_true y_pred = Some b /\ unit_interval b.
Proof.
  intros Ht Hf. unfold sklearn.balanced_accuracy_score.
  destruct (sklearn.count true y_true) as [|nt] eqn:Et; [lia|].
  destruct (sklearn.count false y_true) as [|nf] eqn:Ef; [lia|].
  eexists. split; [reflexivity|].
  destruct (recall_unit true y_true y_pred) as [Ht0 Ht1]; [lia|].
  destruct (recall_unit false y_true y_pred) as [Hf0 Hf1]; [lia|].
  split.
  - apply Qle_shift_div_l; [reflexivity|]. rewrite Qmult_0_l.
    rewrite <- (Qplus_0_l 0). apply Qplus_le_compat; assumption.
  - apply Qle_shift_div_r; [reflexivity|].
    change (1 * (2 # 1))%Q with (1 + 1)%Q. apply Qplus_le_compat; assumption.
Qed.

Lemma pair_credit_unit (sp sn : Q) :
  (0 <= sklearn.pair_credit sp sn /\ sklearn.pair_credit sp sn <= 1)%Q.
Proof.
  unfold sklearn.pair_credit.
  destruct (Qle_bool sp sn); [destruct (Qle_bool sn sp)|]; split; discriminate.
Qed.

Lemma roc_auc_unit (y_true : list bool) (y_score : list Q) :
  length y_score = length y_true ->
  In true y_true -> In false y_true ->
  exists a, sklearn.roc_auc_score y_true y_score = Some a /\ unit_interval a.
Proof.
  intros Hl Ht Hf. unfold sklearn.roc_auc_score.
  set (ys := combine y_true y_score).
  assert (Hin : forall c, In c y_true -> exists s, In (c, s) ys).
  { intros c Hc. apply In_nth_error in Hc. destruct Hc as [j Hj].
    assert (Hjl : j < length y_score).
    { rewrite Hl. apply nth_error_Some. congruence. }
    exists (nth j y_score 0%Q). unfold ys.
    rewrite <- (nth_error_nth _ _ c Hj).
    rewrite <- combine_nth by (symmetry; exact Hl).
    apply nth_In. rewrite length_combine. lia. }
  set (pos := map snd (filter (fun p => fst p) ys)).
  set (neg := map snd (filter (fun p => negb (fst p)) ys)).
  assert (Hpos : 0 < length pos).
  { destruct (Hin true Ht) as [s Hs]. unfold pos. rewrite length_map.
    destruct (filter (fun p => fst p) ys) eqn:Ef; [|simpl; lia].
    assert (Hc : In (true, s) (filter (fun p => fst p) ys))
      by (apply filter_In; auto).
    rewrite Ef in Hc. destruct Hc. }
  assert (Hneg : 0 < length neg).
  { destruct (Hin false Hf) as [s Hs]. unfold neg. rewrite length_map.
    destruct (filter (fun p => negb (fst p)) ys) eqn:Ef; [|simpl; lia].
    assert (Hc : In (false, s) (filter (fun p => negb (fst p)) ys))
      by (apply filter_In; auto).
    rewrite Ef in Hc. destruct Hc. }
  destruct pos as [|p0 pos'] eqn:Ep; [simpl in Hpos; lia|].
  destruct neg as [|n0 neg'] eqn:En; [simpl in Hneg; lia|].
  rewrite <- Ep, <- En. eexists. split; [reflexivity|].
  assert (Hinner : Forall (fun x => 0 <= x /\ x <= np.Qnat (length neg))%Q
                     (map (fun sp => np.sumQ (map (sklearn.pair_credit sp) neg)) pos)).
  { apply Forall_forall. intros x Hx. apply in_map_iff in Hx.
    destruct Hx as (sp & <- & _).
    pose proof (sumQ_bounds 1 (map (sklearn.pair_credit sp) neg)) as Hb.
    rewrite length_map, Qmult_1_r in Hb. apply Hb.
    apply Forall_forall. intros c Hc. apply in_map_iff in Hc.
    destruct Hc as (sn & <- & _). apply pair_credit_unit. }
  apply sumQ_bounds in Hinner. rewrite length_map in Hinner.
  destruct Hinner as [H0 H1].
  assert (Hden : (0 < np.Qnat (length pos) * np.Qnat (length neg))%Q).
  { rewrite <- (Qmult_0_l 0). apply Qmult_lt_compat_nonneg.
    - split; [apply Qle_refl | apply Qnat_pos; rewrite Ep; exact Hpos].
    - split; [apply Qle_refl | apply Qnat_pos; rewrite En; exact Hneg]. }
  split.
  - apply Qle_shift_div_l; [exact Hden|]. rewrite Qmult_0_l. exact H0.
  - apply Qle_shift_div_r; [exact Hden|]. rewrite Qmult_1_l. exact H1.
Qed.

Lemma all_finite_Forall (P : Q -> Prop) (a : list (option Q)) :
  Forall (fun o => exists q, o = Some q /\ P q) a ->
  exists xs, np.all_finite a = Some xs /\ Forall P xs /\ length xs = length a.
Proof.
  induction 1 as [|o t (q & -> & Hq) Ht (xs & Hxs & HP & Hlen)]; simpl.
  - exists []. auto.
  - rewrite Hxs. simpl. exists (q :: xs). simpl. auto.
Qed.

Lemma mean_unit (a : list (option Q)) :
  0 < length a ->
  Forall (fun o => exists q, o = Some q /\ unit_interval q) a ->
  exists m, np.mean a = Some m /\ unit_interval m.
Proof.
  intros Hlen Ha. unfold np.mean.
  destruct (all_finite_Forall _ a Ha) as (xs & -> & HP & Hl). simpl.
  destruct xs as [|x xs'] eqn:Ex; [simpl in Hl; lia|].
  rewrite <- Ex in *. eexists. split; [reflexivity|].
  destruct (sumQ_bounds 1 xs HP) as [H0 H1]. rewrite Qmult_1_r in H1.
  assert (Hpos : (0 < np.Qnat (length xs))%Q) by (apply Qnat_pos; lia).
  split.
  - apply Qle_shift_div_l; [exact Hpos|]. rewrite Qmult_0_l. exact H0.
  - apply Qle_shift_div_r; [exact Hpos|]. rewrite Qmult_1_l. exact H1.
Qed.

(** ** Scores of a sweep *)

Lemma Forall2_In_l {A B : Type} (R : A -> B -> Prop) (l : list A) (l' : list B) (a : A) :
  Forall2 R l l' -> In a l -> exists b, In b l' /\ R a b.
Proof.
  induction 1 as [|x y l l' Hxy Hl IH]; intros Hin; [destruct Hin|].
  destruct Hin as [->|Hin].
  - exists y. split; [left; reflexivity | exact Hxy].
  - destruct (IH Hin) as (b & Hb & HR). exists b. split; [right; exact Hb | exact HR].
Qed.

Lemma Forall2_Forall_r {A B : Type} (R : A -> B -> Prop) (P : B -> Prop)
  (l : list A) (l' : list B) :
  Forall2 R l l' -> (forall a b, In a l -> R a b -> P b) -> Forall P l'.
Proof.
  induction 1 as [|x y l l' Hxy Hl IH]; intros HP; constructor.
  - apply (HP x y); [left; reflexivity | exact Hxy].
  - apply IH. intros a b Ha. apply HP. right. exact Ha.
Qed.

Lemma count_true_false (y : list bool) :
  sklearn.count true y + sklearn.count false y = length y.
Proof.
  unfold sklearn.count. induction y as [|[|] y IH]; simpl; lia.
Qed.

Section Scores.
Context {G E : Type} `{np.RandomGen G} `{sklearn.Estimator G E}.

Lemma fold_scores_unit C mi (X : list (list Q)) y kf (rng g1 : G) tf rs :
  sklearn.make_test_folds kf y rng = Some tf ->
  0 < sklearn.n_splits kf ->
  sklearn.enough_of_each (sklearn.n_splits kf) y ->
  sklearn.fit_folds C mi X y (sklearn.folds_of (sklearn.n_splits kf) (fst tf)) g1
  = Some rs ->
  Forall sklearn.scores_unit (fst rs) /\ length (fst rs) = sklearn.n_splits kf.
Proof.
  intros Htf Hk Hy Hrs. apply fit_folds_inv in Hrs. split.
  - eapply Forall2_Forall_r; [exact Hrs|].
    intros fold r Hfold (g2 & g3 & Hfs).
    apply fit_and_score_inv in Hfs.
    destruct Hfs as (Xte & yte & HX & Hyte & Hb & Ha). simpl in Hb, Ha.
    unfold sklearn.folds_of in Hfold. apply in_map_iff in Hfold.
    destruct Hfold as (i & <- & Hi). apply in_seq in Hi. simpl in HX, Hyte.
    apply take_inv in HX. apply take_inv in Hyte.
    assert (Hlen : length Xte = length yte).
    { rewrite <- (Forall2_length HX), <- (Forall2_length Hyte). reflexivity. }
    assert (Hin : forall c, In c yte).
    { intros c.
      destruct (test_folds_cover kf y rng tf Htf Hk Hy i c) as (j & Hj & Hc); [lia|].
      assert (Hjin : In j (np.where_ (map (Nat.eqb i) (fst tf)))).
      { apply where_In. rewrite nth_error_map, Hj. simpl.
        rewrite Nat.eqb_refl. reflexivity. }
      destruct (Forall2_In_l _ _ _ _ Hyte Hjin) as (b & Hb' & Hjb).
      rewrite Hc in Hjb. inversion Hjb; subst b. exact Hb'. }
    assert (Hct : forall c, 0 < sklearn.count c yte).
    { intros c. apply (count_occ_In bool_dec). apply Hin. }
    split.
    + rewrite Hb. apply balanced_accuracy_unit; apply Hct.
    + rewrite Ha. apply roc_auc_unit; [rewrite length_map; exact Hlen | apply Hin ..].
  - rewrite <- (Forall2_length Hrs). apply folds_of_length.
Qed.

(** On valid input the sweep returns, and every row of the aggregate has
    a mean balanced accuracy and a mean AUROC between 0 and 1. *)
Lemma sweep_means_unit (X : list (list Q)) y k lambda_vals mi seed (g : G) :
  2 <= k -> sklearn.enough_of_each k y -> length X = length y ->
  Forall (fun l => (0 < l)%Q) lambda_vals ->
  exists d rows g',
    Lasso.sweep X y k lambda_vals mi seed g = Some ((d, rows), g') /\
    map Lasso.lambda_val rows = sorted (fold_left dict.add_key lambda_vals []) /\
    Forall (fun row =>
              (exists b, Lasso.mean_bal_acc row = Some b /\ unit_interval b) /\
              (exists a, Lasso.mean_roc_auc row = Some a /\ unit_interval a)) rows.
Proof.
  intros Hk Hy Hl Hpos.
  destruct (sweep_some X y k lambda_vals mi seed g Hk Hy Hl Hpos)
    as (tf & d & rows & g' & Htf & Hsw & Hd & Hkeys & Hmap & Hrows).
  exists d, rows, g'. split; [exact Hsw|]. split; [rewrite Hmap, Hkeys; reflexivity|].
  eapply Forall_impl; [|exact Hrows].
  intros row (cv & Hcv & Hrow).
  apply in_map_iff in Hcv. destruct Hcv as (kv & <- & Hkv).
  rewrite Forall_forall in Hd.
  destruct (Hd kv Hkv) as (Hi & C & g1 & rs & Hrs & _ & Hb & Ha).
  rewrite Hi in Hrs.
  destruct (fold_scores_unit C mi X y _ _ g1 tf rs Htf) as [Hunit Hlen];
    [simpl; lia | exact Hy | exact Hrs |].
  simpl in Hlen. rewrite Hrow. simpl. rewrite Hb, Ha. split.
  - apply mean_unit; [rewrite length_map; lia|].
    apply Forall_map. eapply Forall_impl; [|exact Hunit].
    intros r [Hr _]. exact Hr.
  - apply mean_unit; [rewrite length_map; lia|].
    apply Forall_map. eapply Forall_impl; [|exact Hunit].
    intros r [_ Hr]. exact Hr.
Qed.

End Scores.

(** ** The folds form a stratified k-way partition *)

Lemma select_nth_In {A : Type} (mask : list bool) (l : list A) (j : nat) (x : A) :
  nth_error mask j = Some true -> nth_error l j = Some x -> In x (np.select mask l).
Proof.
  revert l j. induction mask as [|m mask IH]; intros [|y l] [|j]; simpl;
    try discriminate.
  - intros Hm Hx. inversion Hm; subst. inversion Hx; subst. left. reflexivity.
  - intros Hm Hx. specialize (IH l j Hm Hx). destruct m; [right|]; exact IH.
Qed.

Lemma folds_for_class_range (k : nat) alloc (c x : nat) :
  In x (sklearn.folds_for_class k alloc c) -> x < k.
Proof.
  unfold sklearn.folds_for_class. intros Hx. apply in_flat_map in Hx.
  destruct Hx as (i & Hi & Hx). apply repeat_spec in Hx. subst x.
  apply in_seq in Hi. lia.
Qed.

Section Partition.
Context {G : Type} `{np.RandomGen G}.

(** Every sample gets one of the fold numbers [0 .. k-1]. *)
Lemma test_folds_range (kf : sklearn.StratifiedKFold) (y : list bool) (rng : G) r :
  sklearn.make_test_folds kf y rng = Some r ->
  0 < sklearn.n_splits kf ->
  sklearn.enough_of_each (sklearn.n_splits kf) y ->
  Forall (fun f => f < sklearn.n_splits kf) (fst r).
Proof.
  intros Hr Hk Hy.
  pose proof (make_test_folds_length kf y rng r Hr) as Hlen.
  unfold sklearn.make_test_folds in Hr.
  destruct (forallb _ _); [discriminate|]. inversion Hr; subst r; clear Hr.
  set (ye := sklearn.encode y) in *.
  set (k := sklearn.n_splits kf) in *.
  pose proof (n_classes_two k y Hk Hy) as Hnc. fold ye in Hnc.
  rewrite Hnc in *.
  set (tf := fst (sklearn.assign_folds kf (sklearn.allocation k ye) ye (seq 0 2)
                    (repeat 0 (length y)) rng)) in *.
  assert (Hye : length ye = length y).
  { unfold ye, sklearn.encode. destruct y; [reflexivity | apply length_map]. }
  apply Forall_forall. intros x Hx. apply In_nth_error in Hx. destruct Hx as [j Hj].
  assert (Hjl : j < length ye).
  { rewrite Hye, <- Hlen. apply nth_error_Some. congruence. }
  destruct (nth_error ye j) as [c|] eqn:Hc; [|apply nth_error_None in Hc; lia].
  assert (Hc2 : c < 2).
  { pose proof (encode_le y) as Hle. fold ye in Hle. rewrite Forall_forall in Hle.
    specialize (Hle c (nth_error_In _ _ Hc)). lia. }
  assert (Hin : In x (np.select (map (Nat.eqb c) ye) tf)).
  { apply (select_nth_In _ _ j); [|exact Hj].
    rewrite nth_error_map, Hc. simpl. rewrite Nat.eqb_refl. reflexivity. }
  eapply Permutation_in in Hin.
  - eapply folds_for_class_range. exact Hin.
  - apply assign_folds_class.
    + apply seq_NoDup.
    + apply in_seq. lia.
    + rewrite repeat_length. symmetry. exact Hye.
    + intros c' Hc'. apply in_seq in Hc'.
      apply folds_for_class_length; [exact Hk | rewrite Hnc; lia].
Qed.

End Partition.

Lemma folds_of_nth (k : nat) (tf : list nat) (i : nat) (fold : list nat * list nat) :
  nth_error (sklearn.folds_of k tf) i = Some fold ->
  i < k /\
  fold = (np.where_ (map negb (map (Nat.eqb i) tf)), np.where_ (map (Nat.eqb i) tf)).
Proof.
  unfold sklearn.folds_of. rewrite nth_error_map.
  destruct (nth_error (seq 0 k) i) as [i'|] eqn:Hi; [|discriminate].
  simpl. intros Hf. inversion Hf; subst fold; clear Hf.
  assert (Hlt : i < k).
  { assert (Hlt' : i < length (seq 0 k)) by (apply nth_error_Some; congruence).
    rewrite length_seq in Hlt'. exact Hlt'. }
  rewrite (nth_error_nth' _ 0) in Hi by (rewrite length_seq; exact Hlt).
  rewrite seq_nth in Hi by exact Hlt. inversion Hi; subst i'. auto.
Qed.

Lemma folds_of_partition (k : nat) (tf : list nat) :
  Forall (fun f => f < k) tf ->
  sklearn.k_way_partition (length tf) k (sklearn.folds_of k tf).
Proof.
  intros Hr. split; [apply folds_of_length|].
  intros j Hj.
  destruct (nth_error tf j) as [f|] eqn:Hf; [|apply nth_error_None in Hf; lia].
  exists f. split.
  - rewrite Forall_forall in Hr. apply Hr. eapply nth_error_In. exact Hf.
  - intros i' fold Hfold. apply folds_of_nth in Hfold. destruct Hfold as [_ ->].
    simpl. rewrite !where_iff, !nth_error_map, Hf. simpl.
    destruct (Nat.eqb_spec i' f) as [E|E]; simpl; split; split;
      try congruence; try tauto; intros; discriminate.
Qed.

Lemma Forall2_nth {A B : Type} (R : A -> B -> Prop) (l : list A) (l' : list B)
  (i : nat) (x : A) :
  Forall2 R l l' -> nth_error l i = Some x ->
  exists y, nth_error l' i = Some y /\ R x y.
Proof.
  intros HF. revert i. induction HF as [|a b l l' Hab _ IH]; intros [|i] Hi;
    simpl in Hi; try discriminate.
  - inversion Hi; subst. exists b. split; [reflexivity | exact Hab].
  - exact (IH i Hi).
Qed.

Section Fitted.
Context {G E : Type} `{np.RandomGen G} `{sklearn.Estimator G E}.

(** One fold, in full: the estimator is the solver's result on the
    training rows, the scores are those of its predictions on the test
    rows. *)
Lemma fit_and_score_fold C mi (X : list (list Q)) y fold (g : G) r :
  sklearn.fit_and_score C mi X y fold g = Some r ->
  exists X_tr y_tr X_te y_te,
    np.take X (fst fold) = Some X_tr /\ np.take y (fst fold) = Some y_tr /\
    np.take X (snd fold) = Some X_te /\ np.take y (snd fold) = Some y_te /\
    fst (fst r) = fst (sklearn.fit C mi X_tr y_tr g) /\
    fst (snd (fst r))
    = sklearn.balanced_accuracy_score y_te (map (sklearn.predict (fst (fst r))) X_te) /\
    snd (snd (fst r))
    = sklearn.roc_auc_score y_te (map (sklearn.decision_function (fst (fst r))) X_te).
Proof.
  unfold sklearn.fit_and_score. intros Hr.
  obind_inv Hr. obind_inv Hr. obind_inv Hr. obind_inv Hr. obind_inv Hr.
  apply LogisticRegression_fit_inv in Ha3. destruct Ha3 as (-> & _).
  destruct (sklearn.fit C mi a a0 g) as [est g1] eqn:Hfit.
  inversion Hr; subst r. simpl.
  exists a, a0, a1, a2. rewrite Hfit. auto 8.
Qed.

Lemma cross_validate_fitted C mi (X : list (list Q)) y kf (g : G) r :
  sklearn.cross_validate C mi X y kf g = Some r ->
  sklearn.fitted_and_scored C mi X y (fst r).
Proof.
  intros Hr. apply cross_validate_inv in Hr.
  destruct Hr as (sp & rs & _ & Hrs & Hi & Hb & Ha & He).
  apply fit_folds_inv in Hrs. rewrite <- Hi in Hrs.
  pose proof (Forall2_length Hrs) as Hlen.
  unfold sklearn.fitted_and_scored. rewrite Hb, Ha, He, !length_map.
  repeat (split; [symmetry; exact Hlen|]).
  intros i fold Hfold.
  destruct (Forall2_nth _ _ _ _ _ Hrs Hfold) as (ri & Hri & g1 & g2 & Hfs).
  apply fit_and_score_fold in Hfs. cbn [fst snd] in Hfs.
  destruct Hfs as (X_tr & y_tr & X_te & y_te & H1 & H2 & H3 & H4 & Hest & Hbal & Hauc).
  exists X_tr, y_tr, X_te, y_te, g1, (fst ri).
  rewrite !nth_error_map, Hri. cbn [option_map].
  rewrite <- Hbal, <- Hauc. auto 10.
Qed.

(** An assignment to the dictionary changes or adds one entry, under a
    key equal to the assigned one. *)
Lemma set_entries {V : Type} (P : Q * V -> Prop) (d : dict.t V) (k : Q) (v : V) :
  Forall P d -> (forall k', (k' == k)%Q -> P (k', v)) ->
  Forall P (dict.set d k v).
Proof.
  intros Hd Hv. induction Hd as [|[k' v'] r Hkv Hr IH]; simpl.
  - constructor; [apply Hv; reflexivity | constructor].
  - destruct (Qeq_bool k' k) eqn:Hk; constructor; try assumption.
    apply Hv. apply Qeq_bool_iff. exact Hk.
Qed.

(** Every entry of the dictionary that the loop leaves holds what the
    cross-validation of a candidate equal to its key returned. *)
Lemma sweep_loop_entries (P : Q -> sklearn.cv_results E -> Prop) (all : list Q)
  lambda_vals mi (X : list (list Q)) y kf d (g : G) r :
  (forall l g r, sklearn.cross_validate (np.reciprocal l) mi X y kf g = Some r ->
                 P l (fst r)) ->
  incl lambda_vals all ->
  Forall (fun kv => exists l, In l all /\ (l == fst kv)%Q /\ P l (snd kv)) d ->
  Lasso.sweep_loop lambda_vals mi X y kf d g = Some r ->
  Forall (fun kv => exists l, In l all /\ (l == fst kv)%Q /\ P l (snd kv)) (fst r).
Proof.
  intros Hcv. revert d g.
  induction lambda_vals as [|l rest IH]; intros d g Hincl Hd; simpl.
  - intros Hr. inversion Hr; subst r. exact Hd.
  - intros Hr. obind_inv Hr. eapply IH; [| |exact Hr].
    + intros x Hx. apply Hincl. right. exact Hx.
    + apply set_entries; [exact Hd|]. intros k' Hk'. exists l. simpl.
      split; [apply Hincl; left; reflexivity|].
      split; [symmetry; exact Hk' | eapply Hcv; exact Ha].
Qed.

(** A key that is in the dictionary up to equality of numbers can be
    looked up. *)
Lemma get_InA {V : Type} (d : dict.t V) (k : Q) :
  InA Qeq k (dict.keys d) ->
  exists k' v, In (k', v) d /\ (k' == k)%Q /\ dict.get d k = Some v.
Proof.
  unfold dict.keys. induction d as [|[k0 v0] r IH]; simpl; intros Hin.
  - inversion Hin.
  - destruct (Qeq_bool k0 k) eqn:Hk.
    + exists k0, v0. split; [left; reflexivity|].
      split; [apply Qeq_bool_iff; exact Hk | reflexivity].
    + inversion Hin as [? ? Heq|? ? Hr]; subst.
      * symmetry in Heq. apply Qeq_bool_iff in Heq. congruence.
      * destruct (IH Hr) as (k' & v & Hkv & Hk' & Hget).
        exists k', v. auto.
Qed.

End Fitted.

(** C5: within one sweep invocation there is one stratified k-way
    partition of the training set.  The fold generator made before the
    loop yields it from the seed and the labels alone, whatever the state
    of the global generator and without advancing it.  Every candidate of
    the grid has an entry in the results, and every entry is the
    cross-validation of a candidate equal to its key on exactly this
    partition: for each fold, the estimator is the solver's result at
    [C = 1/lambda] on the training rows of the fold and the two scores
    are those of this estimator on the test rows of the fold.  For two
    folds or more, positive candidates and a training set with at least
    [k] samples of either class the sweep returns, the partition assigns
    every sample to exactly one test fold, and every test fold holds both
    classes. *)
Theorem sweep_single_partition
  {G E : Type} `{np.RandomGen G} `{sklearn.Estimator G E}
  (X : list (list Q)) (y : list bool) (k : nat) (lambda_vals : list Q)
  (max_iter : nat) (seed : Z) (g : G) :
  let kf := {| sklearn.n_splits := k; sklearn.shuffle := true;
               sklearn.random_state_of := sklearn.rs_int seed |} in
  (forall d rows g',
      Lasso.sweep X y k lambda_vals max_iter seed g = Some ((d, rows), g') ->
      (forall l, In l lambda_vals ->
         exists l0 cv, In (l0, cv) d /\ (l0 == l)%Q /\ dict.get d l = Some cv) /\
      (forall l0 cv, In (l0, cv) d ->
         (forall g0 : G,
             sklearn.split kf (length X) y g0 = Some (sklearn.indices cv, g0)) /\
         exists l, In l lambda_vals /\ (l == l0)%Q /\
                   sklearn.fitted_and_scored (np.reciprocal l) max_iter X y cv) /\
      (forall l1 cv1 l2 cv2, In (l1, cv1) d -> In (l2, cv2) d ->
         sklearn.indices cv1 = sklearn.indices cv2)) /\
  (2 <= k -> sklearn.enough_of_each k y -> length X = length y ->
   Forall (fun l => (0 < l)%Q) lambda_vals ->
   exists partition d rows g',
     Lasso.sweep X y k lambda_vals max_iter seed g = Some ((d, rows), g') /\
     (forall g0 : G, sklearn.split kf (length X) y g0 = Some (partition, g0)) /\
     sklearn.k_way_partition (length y) k partition /\
     (forall fold c, In fold partition ->
        exists j, In j (snd fold) /\ nth_error y j = Some c)).
Proof.
  intros kf. split.
  - intros d rows g' Hsw. apply sweep_inv in Hsw. destruct Hsw as (_ & Hloop & _).
    fold kf in Hloop.
    assert (Hd : Forall (fun kv : Q * sklearn.cv_results E =>
                exists l, In l lambda_vals /\ (l == fst kv)%Q /\
                  ((forall g0 : G,
                       sklearn.split kf (length X) y g0
                       = Some (sklearn.indices (snd kv), g0)) /\
                   sklearn.fitted_and_scored (np.reciprocal l) max_iter X y (snd kv)))
              d).
    { apply (sweep_loop_entries
               (fun l cv =>
                  (forall g0 : G,
                      sklearn.split kf (length X) y g0
                      = Some (sklearn.indices cv, g0)) /\
                  sklearn.fitted_and_scored (np.reciprocal l) max_iter X y cv)
               lambda_vals lambda_vals max_iter X y kf [] g (d, g'));
        [|apply incl_refl | constructor | exact Hloop].
      intros l g0 r Hr. split.
      - exact (cross_validate_split _ max_iter X y kf seed g0 r eq_refl Hr).
      - exact (cross_validate_fitted _ _ _ _ _ _ _ Hr). }
    rewrite Forall_forall in Hd. split; [|split].
    + intros l Hl.
      apply get_InA.
      pose proof (sweep_loop_keys _ _ _ _ _ _ _ _ Hloop) as Hkeys.
      simpl in Hkeys. rewrite Hkeys.
      apply fold_add_key_InA. right. apply In_InA; [exact Q_Setoid | exact Hl].
    + intros l0 cv Hin. destruct (Hd (l0, cv) Hin) as (l & Hl & Heq & Hs & Hf).
      simpl in *. split; [exact Hs|]. exists l. auto.
    + intros l1 cv1 l2 cv2 H1 H2.
      destruct (Hd _ H1) as (_ & _ & _ & Hs1 & _).
      destruct (Hd _ H2) as (_ & _ & _ & Hs2 & _). simpl in *.
      specialize (Hs1 g). specialize (Hs2 g). rewrite Hs1 in Hs2.
      inversion Hs2. reflexivity.
  - intros Hk Hy Hl Hpos.
    assert (Hk0 : 0 < sklearn.n_splits kf) by (simpl; lia).
    destruct (sweep_some X y k lambda_vals max_iter seed g Hk Hy Hl Hpos)
      as (tf & d & rows & g' & Htf & Hsw & _).
    fold kf in Htf.
    exists (sklearn.folds_of k (fst tf)), d, rows, g'.
    split; [exact Hsw|]. split; [|split].
    + intros g0.
      destruct (split_some kf seed (length X) y g0 eq_refl Hk0 Hy Hl)
        as (tf' & Htf' & Hsp).
      rewrite Htf in Htf'. inversion Htf'; subst tf'. exact Hsp.
    + rewrite <- (make_test_folds_length kf y _ tf Htf).
      apply folds_of_partition.
      exact (test_folds_range kf y _ tf Htf Hk0 Hy).
    + intros fold c Hfold. unfold sklearn.folds_of in Hfold.
      apply in_map_iff in Hfold. destruct Hfold as (i & <- & Hi). apply in_seq in Hi.
      destruct (test_folds_cover kf y _ tf Htf Hk0 Hy i c) as (j & Hj & Hc);
        [simpl; lia|].
      exists j. split; [|exact Hc]. simpl. apply where_In.
      rewrite nth_error_map, Hj. simpl. rewrite Nat.eqb_refl. reflexivity.
Qed.

(** A 2-fold sweep over three candidates on the reference data. *)
Lemma sweep_single_partition_witness :
  let X := Reference.toy_X 8 2 in
  let y := Reference.toy_y 8 in
  let lambda_vals := [1#10; 1; 10#1]%Q in
  let kf := {| sklearn.n_splits := 2; sklearn.shuffle := true;
               sklearn.random_state_of := sklearn.rs_int 1 |} in
  (2 <= 2 /\ sklearn.enough_of_each 2 y /\ length X = length y /\
   Forall (fun l => (0 < l)%Q) lambda_vals) /\
  exists partition d rows g',
    Lasso.sweep X y 2 lambda_vals 100 1%Z 0 = Some ((d, rows), g') /\
    (forall g0 : nat, sklearn.split kf (length X) y g0 = Some (partition, g0)) /\
    sklearn.k_way_partition (length y) 2 partition /\
    (forall fold c, In fold partition ->
       exists j, In j (snd fold) /\ nth_error y j = Some c) /\
    (forall l, In l lambda_vals ->
       exists l0 cv, In (l0, cv) d /\ (l0 == l)%Q /\ dict.get d l = Some cv) /\
    (forall l0 cv, In (l0, cv) d ->
       sklearn.indices cv = partition /\
       exists l, In l lambda_vals /\ (l == l0)%Q /\
                 sklearn.fitted_and_scored (np.reciprocal l) 100 X y cv).
Proof.
  intros X y lambda_vals kf.
  assert (Hk : 2 <= 2) by lia.
  assert (Hy : sklearn.enough_of_each 2 y) by (split; vm_compute; lia).
  assert (Hl : length X = length y) by reflexivity.
  assert (Hp : Forall (fun l => (0 < l)%Q) lambda_vals)
    by (repeat constructor).
  split; [tauto|].
  destruct (sweep_single_partition X y 2 lambda_vals 100 1%Z 0) as [Hinv Hret].
  destruct (Hret Hk Hy Hl Hp) as (partition & d & rows & g' & Hsw & Hsp & Hpart & Hcls).
  exists partition, d, rows, g'.
  split; [exact Hsw|]. split; [exact Hsp|]. split; [exact Hpart|].
  split; [exact Hcls|].
  destruct (Hinv d rows g' Hsw) as (Hcover & Hall & _).
  split; [exact Hcover|].
  intros l0 cv Hin.
  destruct (Hall l0 cv Hin) as [Hcv Hfit].
  split; [|exact Hfit].
  specialize (Hcv 0). specialize (Hsp 0).
  unfold kf in Hsp. rewrite Hcv in Hsp. inversion Hsp. reflexivity.
Defined.


(** C7: for a data set of 1,000 samples with 20 standardized features
    and balanced binary labels, a 5-fold sweep over the regularization
    grid 0.1, 1, 10, 100 returns exactly 4 aggregate rows, and in every
    row the mean balanced accuracy and the mean AUROC lie in [0, 1]. *)
Theorem sweep_end_to_end
  {G E : Type} `{np.RandomGen G} `{sklearn.Estimator G E}
  (X : list (list Q)) (y : list bool) (max_iter : nat) (seed : Z) (g : G) :
  length X = 1000 -> Lasso.standardized X 20 = true ->
  length y = 1000 -> sklearn.count true y = 500 ->
  exists d rows g',
    Lasso.sweep X y 5 [1#10; 1; 10#1; 100#1]%Q max_iter seed g = Some ((d, rows), g') /\
    length rows = 4 /\
    Forall (fun row =>
              (exists b, Lasso.mean_bal_acc row = Some b /\ unit_interval b) /\
              (exists a, Lasso.mean_roc_auc row = Some a /\ unit_interval a)) rows.
Proof.
  intros HX _ Hy Ht.
  assert (Hf : sklearn.count false y = 500).
  { pose proof (count_true_false y) as Hc. rewrite Hy, Ht in Hc.
    apply (Nat.add_cancel_l _ _ 500). exact Hc. }
  destruct (sweep_means_unit X y 5 [1#10; 1; 10#1; 100#1]%Q max_iter seed g)
    as (d & rows & g' & Hsw & Hmap & Hrows).
  - repeat constructor.
  - split; [rewrite Ht | rewrite Hf]; apply (Nat.leb_le 5 500); reflexivity.
  - rewrite HX, Hy. reflexivity.
  - repeat constructor.
  - exists d, rows, g'. split; [exact Hsw|]. split; [|exact Hrows].
    rewrite <- (length_map Lasso.lambda_val), Hmap. reflexivity.
Qed.

(** The scenario on the reference data set of 1,000 samples. *)
Lemma sweep_end_to_end_witness :
  let X := Reference.toy_X 1000 20 in
  let y := Reference.toy_y 1000 in
  (length X = 1000 /\ Lasso.standardized X 20 = true /\
   length y = 1000 /\ sklearn.count true y = 500) /\
  exists d rows g',
    Lasso.sweep X y 5 [1#10; 1; 10#1; 100#1]%Q 100 1%Z 0 = Some ((d, rows), g') /\
    length rows = 4 /\
    Forall (fun row =>
              (exists b, Lasso.mean_bal_acc row = Some b /\ unit_interval b) /\
              (exists a, Lasso.mean_roc_auc row = Some a /\ unit_interval a)) rows.
Proof.
  intros X y.
  assert (HX : length X = 1000) by (vm_compute; reflexivity).
  assert (Hs : Lasso.standardized X 20 = true) by (vm_compute; reflexivity).
  assert (Hy : length y = 1000) by (vm_compute; reflexivity).
  assert (Ht : sklearn.count true y = 500) by (vm_compute; reflexivity).
  split; [tauto|].
  exact (sweep_end_to_end X y 100 1%Z 0 HX Hs Hy Ht).
Defined.

(** ** Benjamini-Hochberg correction *)

Lemma minimum_glb (x a b : Q) :
  (x <= a)%Q -> (x <= b)%Q -> (x <= statsmodels.minimum a b)%Q.
Proof. intros Ha Hb. unfold statsmodels.minimum. destruct (Qle_bool a b); assumption. Qed.

(** Running minima stay above a descending sequence that lies below the
    data and below the starting value. *)
Lemma minimum_accumulate_from_above (m : Q) (lo a : list Q) :
  Forall2 Qle lo a ->
  StronglySorted (fun x y => y <= x)%Q lo ->
  Forall (fun x => x <= m)%Q lo ->
  Forall2 Qle lo (statsmodels.minimum_accumulate_from m a).
Proof.
  intros H2. revert m. induction H2 as [|x r lo a Hxr H2 IH]; intros m Hs Hm; simpl.
  - constructor.
  - inversion Hs as [|? ? Hs' Hall]; subst. inversion Hm as [|? ? Hxm Hm']; subst.
    assert (Hx : (x <= statsmodels.minimum m r)%Q) by (apply minimum_glb; assumption).
    constructor; [exact Hx|].
    apply IH; [exact Hs'|].
    eapply Forall_impl; [|exact Hall]. intros z Hz. simpl in Hz.
    eapply Qle_trans; eassumption.
Qed.

Lemma minimum_accumulate_above (lo a : list Q) :
  Forall2 Qle lo a ->
  StronglySorted (fun x y => y <= x)%Q lo ->
  Forall2 Qle lo (statsmodels.minimum_accumulate a).
Proof.
  intros H2 Hs. destruct H2 as [|x r lo a Hxr H2]; simpl; [constructor|].
  inversion Hs as [|? ? Hs' Hall]; subst.
  constructor; [exact Hxr|].
  apply minimum_accumulate_from_above; [exact H2 | exact Hs' |].
  eapply Forall_impl; [|exact Hall]. intros z Hz. simpl in Hz.
  eapply Qle_trans; eassumption.
Qed.

Lemma Forall2_rev {A B : Type} (R : A -> B -> Prop) (l : list A) (l' : list B) :
  Forall2 R l l' -> Forall2 R (rev l) (rev l').
Proof.
  induction 1 as [|x y l l' Hxy Hl IH]; simpl; [constructor|].
  apply Forall2_app; [exact IH | repeat constructor; exact Hxy].
Qed.

Lemma clip_one_above (lo a : list Q) :
  Forall (fun p => p <= 1)%Q lo -> Forall2 Qle lo a ->
  Forall2 Qle lo (statsmodels.clip_one a).
Proof.
  intros H1 H2. induction H2 as [|x r lo a Hxr H2 IH]; simpl; [constructor|].
  inversion H1; subst. constructor; [|apply IH; assumption].
  destruct (statsmodels.Qltb 1 r); assumption.
Qed.

Lemma ecdf_In (nobs : nat) (e : Q) :
  In e (statsmodels.ecdf nobs) -> (0 < e /\ e <= 1)%Q.
Proof.
  unfold statsmodels.ecdf. intros He. apply in_map_iff in He.
  destruct He as (i & <- & Hi). apply in_seq in Hi. split.
  - apply Qlt_shift_div_l; [apply Qnat_pos; lia|].
    rewrite Qmult_0_l. apply Qnat_pos. lia.
  - apply ratio_unit; lia.
Qed.

Lemma divide_by_fraction (p e : Q) :
  (0 <= p)%Q -> (0 < e)%Q -> (e <= 1)%Q -> (p <= p / e)%Q.
Proof.
  intros Hp He0 He1. apply Qle_shift_div_l; [exact He0|].
  rewrite <- (Qmult_1_r p) at 2. rewrite !(Qmult_comm p).
  apply Qmult_le_compat_r; assumption.
Qed.

(** On ascending p-values in [0, 1] the corrected values are not below
    the p-values. *)
Lemma fdrcorrection_above (pvals_sorted : list Q) (alpha : Q) :
  Forall (fun p => 0 <= p /\ p <= 1)%Q pvals_sorted ->
  StronglySorted Qle pvals_sorted ->
  Forall2 Qle pvals_sorted (snd (statsmodels.fdrcorrection pvals_sorted alpha)).
Proof.
  intros Hp Hs. unfold statsmodels.fdrcorrection. simpl.
  apply clip_one_above.
  { eapply Forall_impl; [|exact Hp]. intros p [_ H1]. exact H1. }
  rewrite <- (rev_involutive pvals_sorted) at 1.
  apply Forall2_rev, minimum_accumulate_above.
  - apply Forall2_rev.
    assert (Hgen : forall es, length es = length pvals_sorted ->
                     Forall (fun e => 0 < e /\ e <= 1)%Q es ->
                     Forall2 Qle pvals_sorted
                       (map (fun pe => (fst pe / snd pe)%Q) (combine pvals_sorted es))).
    { clear Hs. induction Hp as [|p ps [Hp0 Hp1] Hps IH]; intros [|e es] Hl He;
        simpl in *; try discriminate; constructor.
      - inversion He as [|? ? [He0 He1] He']; subst.
        apply divide_by_fraction; assumption.
      - apply IH; [lia | inversion He; assumption]. }
    apply Hgen.
    + unfold statsmodels.ecdf. rewrite length_map, length_seq. reflexivity.
    + apply Forall_forall. intros e He. apply ecdf_In in He. exact He.
  - apply StronglySorted_rev. exact Hs.
Qed.

(** *** Scattering back to the original order *)

Lemma set_nth_length {A : Type} (i : nat) (v : A) (dst : list A) :
  length (np.set_nth i v dst) = length dst.
Proof.
  revert i. induction dst as [|d t IH]; intros [|i]; simpl; try reflexivity.
  rewrite IH. reflexivity.
Qed.

Lemma set_nth_same {A : Type} (d : A) (i : nat) (v : A) (dst : list A) :
  i < length dst -> nth i (np.set_nth i v dst) d = v.
Proof.
  revert i. induction dst as [|x t IH]; intros [|i] Hi; simpl in *; try lia.
  - reflexivity.
  - apply IH. lia.
Qed.

Lemma set_nth_other {A : Type} (d : A) (i j : nat) (v : A) (dst : list A) :
  i <> j -> nth j (np.set_nth i v dst) d = nth j dst d.
Proof.
  revert i j. induction dst as [|x t IH]; intros [|i] [|j] Hij; simpl;
    try reflexivity; try congruence.
  apply IH. congruence.
Qed.

Lemma put_length {A : Type} (idx : list nat) (vals dst : list A) :
  length (np.put idx vals dst) = length dst.
Proof.
  revert vals dst. induction idx as [|i idx IH]; intros [|v vals] dst; simpl;
    try reflexivity.
  rewrite IH, set_nth_length. reflexivity.
Qed.

Lemma put_other {A : Type} (d : A) (idx : list nat) (vals dst : list A) (j : nat) :
  ~ In j idx -> nth j (np.put idx vals dst) d = nth j dst d.
Proof.
  revert vals dst. induction idx as [|i idx IH]; intros [|v vals] dst Hj; simpl;
    try reflexivity.
  rewrite IH by (intros Hin; apply Hj; right; exact Hin).
  apply set_nth_other. intros ->. apply Hj. left. reflexivity.
Qed.

(** The value written through the [k]-th index is read back there. *)
Lemma put_nth {A : Type} (d : A) (idx : list nat) (vals dst : list A) (k : nat) :
  NoDup idx -> Forall (fun i => i < length dst) idx -> length vals = length idx ->
  k < length idx ->
  nth (nth k idx 0) (np.put idx vals dst) d = nth k vals d.
Proof.
  intros Hnd. revert vals dst k.
  induction Hnd as [|i idx Hi Hnd IH]; intros [|v vals] dst k Hb Hl Hk; simpl in *;
    try lia; try discriminate.
  inversion Hb; subst.
  destruct k as [|k].
  - rewrite put_other by exact Hi. apply set_nth_same. assumption.
  - apply IH; [|lia|lia].
    eapply Forall_impl; [|eassumption]. intros j Hj. simpl in Hj.
    rewrite set_nth_length. exact Hj.
Qed.

Lemma Forall2_of_nth {A B : Type} (R : A -> B -> Prop) (da : A) (db : B)
  (l : list A) (l' : list B) :
  length l = length l' ->
  (forall i, i < length l -> R (nth i l da) (nth i l' db)) ->
  Forall2 R l l'.
Proof.
  revert l'. induction l as [|x t IH]; intros [|y t'] Hl Hn; simpl in *;
    try discriminate; constructor.
  - apply (Hn 0). lia.
  - apply IH; [lia|]. intros i Hi. apply (Hn (S i)). lia.
Qed.

Lemma nth_map_lt {A B : Type} (f : A -> B) (d : B) (d' : A) (l : list A) (k : nat) :
  k < length l -> nth k (map f l) d = f (nth k l d').
Proof.
  intros Hk. rewrite (nth_indep _ d (f d')) by (rewrite length_map; exact Hk).
  apply map_nth.
Qed.

Lemma Forall2_nth_lt {A B : Type} (R : A -> B -> Prop) (da : A) (db : B)
  (l : list A) (l' : list B) (k : nat) :
  Forall2 R l l' -> k < length l -> R (nth k l da) (nth k l' db).
Proof.
  intros H2. revert k. induction H2 as [|x y l l' Hxy H2 IH]; intros [|k] Hk;
    simpl in *; try lia; [exact Hxy | apply IH; lia].
Qed.

(** The corrected p-values, in the order of the input, are not below the
    p-values. *)
Lemma multipletests_above (pvals : list Q) (alpha : Q) :
  Forall (fun p => 0 <= p /\ p <= 1)%Q pvals ->
  exists reject corrected,
    statsmodels.multipletests pvals alpha = Some (reject, corrected) /\
    Forall2 Qle pvals corrected.
Proof.
  intros Hp. unfold statsmodels.multipletests.
  set (sortind := np.argsort pvals).
  rewrite (take_some 0%Q pvals sortind) by apply argsort_bound. cbn [obind].
  set (ps := map (fun i => nth i pvals 0%Q) sortind).
  assert (Hps : Forall (fun p => 0 <= p /\ p <= 1)%Q ps).
  { unfold ps. apply Forall_map.
    eapply Forall_impl; [|apply (argsort_bound pvals)].
    intros i Hi. simpl in Hi. rewrite Forall_forall in Hp. apply Hp, nth_In, Hi. }
  assert (Hs : StronglySorted Qle ps).
  { unfold ps. apply StronglySorted_map. apply argsort_sorted. }
  pose proof (fdrcorrection_above ps alpha Hps Hs) as Habove.
  destruct (statsmodels.fdrcorrection ps alpha) as [rej corr]. simpl in Habove.
  assert (Hclip : Forall2 Qle ps (statsmodels.clip_one corr)).
  { apply clip_one_above; [|exact Habove].
    eapply Forall_impl; [|exact Hps]. intros p [_ H1]. exact H1. }
  eexists. eexists. split; [reflexivity|].
  assert (Hperm := argsort_perm pvals). fold sortind in Hperm.
  assert (Hlen : length sortind = length pvals).
  { rewrite (Permutation_length Hperm), length_seq. reflexivity. }
  apply (Forall2_of_nth _ 0%Q 0%Q).
  - rewrite put_length, repeat_length. reflexivity.
  - intros i Hi.
    assert (Hin : In i sortind).
    { eapply Permutation_in; [apply Permutation_sym, Hperm|]. apply in_seq. lia. }
    destruct (In_nth _ _ 0 Hin) as (k & Hk & Hki).
    rewrite <- Hki.
    rewrite (put_nth 0%Q sortind).
    + replace (nth (nth k sortind 0) pvals 0%Q) with (nth k ps 0%Q)
        by exact (nth_map_lt (fun i => nth i pvals 0%Q) 0%Q 0 sortind k Hk).
      apply Forall2_nth_lt; [exact Hclip|].
      unfold ps. rewrite length_map. exact Hk.
    + eapply Permutation_NoDup; [apply Permutation_sym, Hperm | apply seq_NoDup].
    + rewrite repeat_length. apply argsort_bound.
    + rewrite <- (Forall2_length Hclip). unfold ps. apply length_map.
    + exact Hk.
Qed.

Lemma Qltb_mono (p c alpha : Q) :
  (p <= c)%Q -> statsmodels.Qltb c alpha = true -> statsmodels.Qltb p alpha = true.
Proof.
  unfold statsmodels.Qltb. intros Hpc Hc.
  apply negb_true_iff in Hc. apply negb_true_iff.
  destruct (Qle_bool alpha p) eqn:Hap; [|reflexivity].
  apply Qle_bool_iff in Hap.
  assert (Hac : Qle_bool alpha c = true)
    by (apply Qle_bool_iff; eapply Qle_trans; eassumption).
  congruence.
Qed.

(** Pointwise larger values are less often below [alpha], also under a
    common mask. *)
Lemma count_below_masked (p c : list Q) (alpha : Q) (mask : list bool) :
  Forall2 Qle p c ->
  FDR.series_sum (FDR.series_and (FDR.series_lt c alpha) mask)
  <= FDR.series_sum (FDR.series_and (FDR.series_lt p alpha) mask).
Proof.
  unfold FDR.series_sum, FDR.series_and, FDR.series_lt.
  intros H2. revert mask.
  induction H2 as [|x y p c Hxy H2 IH]; intros [|m mask]; simpl; try lia.
  specialize (IH mask).
  destruct (statsmodels.Qltb y alpha) eqn:Hy.
  - rewrite (Qltb_mono x y alpha Hxy Hy). destruct m; simpl; lia.
  - simpl. destruct (statsmodels.Qltb x alpha && m); simpl; lia.
Qed.

Lemma count_below (p c : list Q) (alpha : Q) :
  Forall2 Qle p c ->
  FDR.series_sum (FDR.series_lt c alpha) <= FDR.series_sum (FDR.series_lt p alpha).
Proof.
  unfold FDR.series_sum, FDR.series_lt.
  induction 1 as [|x y p c Hxy H2 IH]; simpl; [lia|].
  destruct (statsmodels.Qltb y alpha) eqn:Hy.
  - rewrite (Qltb_mono x y alpha Hxy Hy). simpl. lia.
  - destruct (statsmodels.Qltb x alpha); simpl; lia.
Qed.

(** C9: the Benjamini-Hochberg correction as the notebooks apply it
    never decreases a p-value (a value in [0, 1]); hence the number of
    tests with a corrected p-value below alpha is at most the number with
    an uncorrected p-value below alpha, in notebooks 4.2 and 4.3 and,
    with the odds-ratio filter, in notebook 4.1. *)
Theorem fdr_bh_never_decreases (pvals : list Q) (alpha : Q) :
  Forall (fun p => 0 <= p /\ p <= 1)%Q pvals ->
  exists reject corrected,
    statsmodels.multipletests pvals alpha = Some (reject, corrected) /\
    Forall2 Qle pvals corrected /\
    (exists N_uncorr_acc N_corr_acc,
        FDR.significance_counts pvals alpha = Some (N_uncorr_acc, N_corr_acc) /\
        N_corr_acc <= N_uncorr_acc) /\
    (forall data9, map FDR.two_sided_p_values data9 = pvals ->
        exists a, FDR.pathway_counts data9 alpha = Some a /\
                  FDR.two_sided_p_values_adjusted a = corrected /\
                  FDR.N_corr_acc a <= FDR.N_uncorr_acc a).
Proof.
  intros Hp.
  destruct (multipletests_above pvals alpha Hp) as (reject & corrected & Hm & H2).
  exists reject, corrected. split; [exact Hm|]. split; [exact H2|]. split.
  - unfold FDR.significance_counts. rewrite Hm. simpl.
    eexists. eexists. split; [reflexivity|]. apply count_below. exact H2.
  - intros data9 Hd. unfold FDR.pathway_counts. rewrite Hd, Hm. simpl.
    replace (length corrected =? length data9) with true.
    + simpl. eexists. split; [reflexivity|]. simpl. split; [reflexivity|].
      apply count_below_masked. exact H2.
    + symmetry. apply Nat.eqb_eq.
      rewrite <- (Forall2_length H2), <- Hd, length_map. reflexivity.
Qed.

(** Five p-values at the level 0.05. *)
Lemma fdr_bh_never_decreases_witness :
  let pvals := [1#1000; 4#100; 3#100; 1#2; 2#100]%Q in
  let alpha := (5#100)%Q in
  Forall (fun p => 0 <= p /\ p <= 1)%Q pvals /\
  exists reject corrected,
    statsmodels.multipletests pvals alpha = Some (reject, corrected) /\
    Forall2 Qle pvals corrected /\
    (exists N_uncorr_acc N_corr_acc,
        FDR.significance_counts pvals alpha = Some (N_uncorr_acc, N_corr_acc) /\
        N_corr_acc <= N_uncorr_acc) /\
    (forall data9, map FDR.two_sided_p_values data9 = pvals ->
        exists a, FDR.pathway_counts data9 alpha = Some a /\
                  FDR.two_sided_p_values_adjusted a = corrected /\
                  FDR.N_corr_acc a <= FDR.N_uncorr_acc a).
Proof.
  intros pvals alpha.
  assert (Hp : Forall (fun p => 0 <= p /\ p <= 1)%Q pvals)
    by (repeat constructor; discriminate).
  split; [exact Hp|].
  exact (fdr_bh_never_decreases pvals alpha Hp).
Defined.

Example fdr_bh_example :
  FDR.significance_counts [1#1000; 4#100; 3#100; 1#2; 2#100]%Q (5#100)%Q = Some (4, 1).
Proof. vm_compute. reflexivity. Qed.

(** ** Significance counts of the pathway analysis *)

Lemma select_NoDup {A : Type} (mask : list bool) (l : list A) :
  NoDup l -> NoDup (np.select mask l).
Proof.
  intros Hnd. revert mask. induction Hnd as [|x l Hx Hnd IH]; intros [|m mask]; simpl;
    try constructor.
  destruct m; [|apply IH].
  constructor; [|apply IH].
  intros Hin. apply Hx. eapply select_incl. exact Hin.
Qed.

Lemma select_count {A : Type} (mask : list bool) (l : list A) :
  length l = length mask -> length (np.select mask l) = FDR.series_sum mask.
Proof.
  unfold FDR.series_sum. revert l.
  induction mask as [|m mask IH]; intros [|x l] Hl; simpl in *; try discriminate;
    [reflexivity|].
  destruct m; simpl; rewrite IH by lia; reflexivity.
Qed.

Lemma where_count (mask : list bool) : length (np.where_ mask) = FDR.series_sum mask.
Proof. unfold np.where_. apply select_count, length_seq. Qed.

Lemma nth_error_combine {A B : Type} (a : list A) (b : list B) (i : nat) (x : A) (y : B) :
  nth_error (combine a b) i = Some (x, y) <->
  nth_error a i = Some x /\ nth_error b i = Some y.
Proof.
  revert b i. induction a as [|u a IH]; intros [|v b] [|i]; simpl;
    try (split; [discriminate | intros [? ?]; discriminate]).
  - split; [intros H; inversion H; auto | intros [H1 H2]; congruence].
  - apply IH.
Qed.

Lemma Qltb_lt (a b : Q) : statsmodels.Qltb a b = true <-> (a < b)%Q.
Proof.
  unfold statsmodels.Qltb. rewrite negb_true_iff. split.
  - intros Hle. apply Qnot_le_lt. intros Hc. apply Qle_bool_iff in Hc. congruence.
  - intros Hlt. destruct (Qle_bool b a) eqn:Hle; [|reflexivity].
    apply Qle_bool_iff in Hle. exfalso. exact (Qlt_not_le _ _ Hlt Hle).
Qed.

Lemma ne_one_iff (o : FDR.float) :
  match o with
  | FDR.finite q => negb (Qeq_bool q 1)
  | _ => true
  end = true <-> ~ FDR.is_one o.
Proof.
  destruct o as [q| | |]; simpl; try tauto.
  rewrite negb_true_iff. split.
  - intros Hq Heq. apply Qeq_bool_iff in Heq. congruence.
  - intros Hne. destruct (Qeq_bool q 1) eqn:Hq; [|reflexivity].
    apply Qeq_bool_iff in Hq. contradiction.
Qed.

(** A row is under the mask [(col < alpha) & (odds_ratios != 1.0)] when
    its value is below [alpha] and its odds ratio is not 1. *)
Lemma significance_mask (col : list Q) (o : list FDR.float) (alpha : Q) (i : nat) :
  nth_error (FDR.series_and (FDR.series_lt col alpha) (FDR.series_ne_one o)) i = Some true
  <-> exists p r, nth_error col i = Some p /\ nth_error o i = Some r /\
                  (p < alpha)%Q /\ ~ FDR.is_one r.
Proof.
  unfold FDR.series_and, FDR.series_lt, FDR.series_ne_one.
  rewrite nth_error_map. split.
  - destruct (nth_error (combine _ _) i) as [[a b]|] eqn:Hc; [|discriminate].
    simpl. intros Hab. inversion Hab as [Hand]. apply andb_true_iff in Hand.
    destruct Hand as [Ha Hb]. subst.
    apply nth_error_combine in Hc. destruct Hc as [Hca Hcb].
    rewrite nth_error_map in Hca, Hcb.
    destruct (nth_error col i) as [p|]; [|discriminate].
    destruct (nth_error o i) as [r|]; [|discriminate].
    simpl in *. inversion Hca as [Hp]. inversion Hcb as [Hr].
    exists p, r. repeat split; auto.
    + apply Qltb_lt. exact Hp.
    + apply ne_one_iff. exact Hr.
  - intros (p & r & Hp & Hr & Hlt & Hne).
    assert (Hc : nth_error
                   (combine (map (fun p0 => statsmodels.Qltb p0 alpha) col)
                      (map (fun o0 => match o0 with
                                      | FDR.finite q => negb (Qeq_bool q 1)
                                      | _ => true
                                      end) o)) i
                 = Some (true, true)).
    { apply nth_error_combine. rewrite !nth_error_map, Hp, Hr. simpl.
      rewrite (proj2 (Qltb_lt p alpha) Hlt), (proj2 (ne_one_iff r) Hne). auto. }
    rewrite Hc. reflexivity.
Qed.

Lemma multipletests_some (pvals : list Q) (alpha : Q) :
  exists r, statsmodels.multipletests pvals alpha = Some r /\
            length (snd r) = length pvals.
Proof.
  unfold statsmodels.multipletests.
  rewrite (take_some 0%Q pvals (np.argsort pvals)) by apply argsort_bound.
  cbn [obind]. destruct (statsmodels.fdrcorrection _ alpha) as [rej corr].
  eexists. split; [reflexivity|]. simpl.
  rewrite put_length, repeat_length. reflexivity.
Qed.

(** C10: in the pathway-enrichment analysis the two significance counts
    are the numbers of pathways whose p-value (uncorrected, respectively
    corrected) is below alpha and whose odds ratio is not exactly 1.0; a
    pathway with odds ratio 1.0 is in neither count. *)
Theorem pathway_counts_filter (data9 : list FDR.pathway) (alpha : Q) :
  exists a,
    FDR.pathway_counts data9 alpha = Some a /\
    exists counted_uncorr counted_corr : list nat,
      NoDup counted_uncorr /\ NoDup counted_corr /\
      FDR.N_uncorr_acc a = length counted_uncorr /\
      FDR.N_corr_acc a = length counted_corr /\
      (forall i, In i counted_uncorr <->
         exists row, nth_error data9 i = Some row /\
                     (FDR.two_sided_p_values row < alpha)%Q /\
                     ~ FDR.is_one (FDR.odds_ratios row)) /\
      (forall i, In i counted_corr <->
         exists row adjusted,
           nth_error data9 i = Some row /\
           nth_error (FDR.two_sided_p_values_adjusted a) i = Some adjusted /\
           (adjusted < alpha)%Q /\
           ~ FDR.is_one (FDR.odds_ratios row)).
Proof.
  unfold FDR.pathway_counts.
  destruct (multipletests_some (map FDR.two_sided_p_values data9) alpha)
    as (r & -> & Hlen).
  cbn [obind]. rewrite length_map in Hlen. rewrite Hlen, Nat.eqb_refl. simpl.
  eexists. split; [reflexivity|]. simpl.
  set (p := map FDR.two_sided_p_values data9).
  set (o := map FDR.odds_ratios data9).
  exists (np.where_ (FDR.series_and (FDR.series_lt p alpha) (FDR.series_ne_one o))),
         (np.where_ (FDR.series_and (FDR.series_lt (snd r) alpha) (FDR.series_ne_one o))).
  split; [apply select_NoDup, seq_NoDup|].
  split; [apply select_NoDup, seq_NoDup|].
  split; [symmetry; apply where_count|].
  split; [symmetry; apply where_count|].
  split; intros i; rewrite where_iff, significance_mask; unfold p, o.
  - split.
    + intros (pv & orr & Hp & Ho & Hlt & Hne).
      rewrite nth_error_map in Hp, Ho.
      destruct (nth_error data9 i) as [row|]; [|discriminate].
      simpl in *. inversion Hp; inversion Ho; subst. exists row. auto.
    + intros (row & Hrow & Hlt & Hne).
      exists (FDR.two_sided_p_values row), (FDR.odds_ratios row).
      rewrite !nth_error_map, Hrow. auto.
  - split.
    + intros (pv & orr & Hp & Ho & Hlt & Hne).
      rewrite nth_error_map in Ho.
      destruct (nth_error data9 i) as [row|]; [|discriminate].
      simpl in *. inversion Ho; subst. exists row, pv. auto.
    + intros (row & adj & Hrow & Hadj & Hlt & Hne).
      exists adj, (FDR.odds_ratios row).
      rewrite nth_error_map, Hrow. auto.
Qed.

Example pathway_counts_example :
  option_map (fun a => (FDR.N_uncorr_acc a, FDR.N_corr_acc a))
    (FDR.pathway_counts
       [ {| FDR.odds_ratios := FDR.finite (3#1); FDR.two_sided_p_values := 1#1000 |};
         {| FDR.odds_ratios := FDR.finite 1; FDR.two_sided_p_values := 1#1000 |};
         {| FDR.odds_ratios := FDR.pos_inf; FDR.two_sided_p_values := 4#100 |};
         {| FDR.odds_ratios := FDR.finite (1#2); FDR.two_sided_p_values := 1#2 |} ]%Q
       (5#100)%Q)
  = Some (2, 1).
Proof. vm_compute. reflexivity. Qed.

(** ** Train/holdout split *)

Lemma combine_fst_Forall {A B : Type} (P : A -> Prop) (a : list A) (b : list B) :
  Forall P a -> Forall (fun ab => P (fst ab)) (combine a b).
Proof.
  intros Ha. revert b. induction Ha as [|x a Hx Ha IH]; intros [|y b]; simpl;
    constructor; [exact Hx | apply IH].
Qed.

Lemma combine_fst_pairs {A B : Type} (R : A -> A -> Prop) (a : list A) (b : list B) :
  ForallOrdPairs R a -> ForallOrdPairs (fun u v => R (fst u) (fst v)) (combine a b).
Proof.
  intros Ha. revert b. induction Ha as [|x a Hx Ha IH]; intros [|y b]; simpl;
    constructor; [|apply IH].
  apply (combine_fst_Forall (R x) a b Hx).
Qed.

Lemma firstn_In {A : Type} (n : nat) (l : list A) (x : A) : In x (firstn n l) -> In x l.
Proof.
  intros Hx. rewrite <- (firstn_skipn n l). apply in_or_app. left. exact Hx.
Qed.

Lemma skipn_In {A : Type} (n : nat) (l : list A) (x : A) : In x (skipn n l) -> In x l.
Proof.
  intros Hx. rewrite <- (firstn_skipn n l). apply in_or_app. right. exact Hx.
Qed.

Lemma firstn_skipn_disjoint (n t : nat) (l : list nat) :
  NoDup l -> disjoint (firstn n l) (firstn t (skipn n l)).
Proof.
  intros Hnd i Hi Hi'. apply firstn_In in Hi'.
  rewrite <- (firstn_skipn n l) in Hnd.
  revert Hnd Hi Hi'. generalize (firstn n l) (skipn n l). intros a b.
  induction a as [|x a IH]; simpl; intros Hnd Hi Hi'; [destruct Hi|].
  inversion Hnd as [|? ? Hx Hnd']; subst.
  destruct Hi as [->|Hi]; [|apply IH; assumption].
  apply Hx. apply in_or_app. right. exact Hi'.
Qed.

Section Split.
Context {G : Type} `{np.RandomGen G} `{@sklearn.ApproximateMode G}.

(** Drawing from lists without repetition and without common elements:
    no index is drawn for both sides, and every drawn index comes from
    one of the lists. *)
Lemma draw_classes_disjoint (cls : list (list nat * (nat * nat))) (rng : G) :
  Forall (fun a => NoDup (fst a)) cls ->
  ForallOrdPairs (fun a b => disjoint (fst a) (fst b)) cls ->
  disjoint (fst (fst (sklearn.draw_classes cls rng)))
           (snd (fst (sklearn.draw_classes cls rng))) /\
  (forall i, In i (fst (fst (sklearn.draw_classes cls rng))) \/
             In i (snd (fst (sklearn.draw_classes cls rng))) ->
             exists a, In a cls /\ In i (fst a)).
Proof.
  intros Hnd Hp. revert rng.
  induction cls as [|[ci [n t]] rest IH]; intros rng; simpl.
  - split; [intros i []|]. intros i [[]|[]].
  - inversion Hnd as [|? ? Hci Hnd']; subst.
    inversion Hp as [|? ? Hcr Hp']; subst. simpl in Hci.
    pose proof (shuffle_perm ci rng) as Hperm.
    destruct (np.shuffle ci rng) as [perm rng1]. simpl in Hperm.
    specialize (IH Hnd' Hp' rng1).
    destruct (sklearn.draw_classes rest rng1) as [[train test] rng2].
    simpl in IH |- *. destruct IH as [IHd IHs].
    assert (Hpn : NoDup perm)
      by (eapply Permutation_NoDup; [apply Permutation_sym, Hperm | exact Hci]).
    assert (Hsrc : forall i, In i train \/ In i test -> ~ In i ci).
    { intros i Hi Hic. destruct (IHs i Hi) as (a & Ha & Hia).
      rewrite Forall_forall in Hcr. exact (Hcr a Ha i Hic Hia). }
    split.
    + intros i Hi Hi'. apply in_app_or in Hi. apply in_app_or in Hi'.
      destruct Hi as [Hi|Hi], Hi' as [Hi'|Hi'].
      * exact (firstn_skipn_disjoint n t perm Hpn i Hi Hi').
      * apply (Hsrc i (or_intror Hi')).
        eapply Permutation_in; [exact Hperm | eapply firstn_In; exact Hi].
      * apply (Hsrc i (or_introl Hi)).
        eapply Permutation_in; [exact Hperm|].
        eapply skipn_In, firstn_In. exact Hi'.
      * exact (IHd i Hi Hi').
    + intros i [Hi|Hi]; apply in_app_or in Hi; destruct Hi as [Hi|Hi].
      * exists (ci, (n, t)). split; [left; reflexivity|]. simpl.
        eapply Permutation_in; [exact Hperm | eapply firstn_In; exact Hi].
      * destruct (IHs i (or_introl Hi)) as (a & Ha & Hia). exists a. auto.
      * exists (ci, (n, t)). split; [left; reflexivity|]. simpl.
        eapply Permutation_in; [exact Hperm|].
        eapply skipn_In, firstn_In. exact Hi.
      * destruct (IHs i (or_intror Hi)) as (a & Ha & Hia). exists a. auto.
Qed.

Lemma class_indices_NoDup (y : list bool) (c : bool) : NoDup (sklearn.class_indices y c).
Proof. apply select_NoDup, seq_NoDup. Qed.

Lemma class_indices_bound (y : list bool) (c : bool) :
  Forall (fun i => i < length y) (sklearn.class_indices y c).
Proof.
  unfold sklearn.class_indices.
  rewrite <- (length_map (Bool.eqb c) y). apply where_bound.
Qed.

Lemma class_indices_disjoint (y : list bool) (c c' : bool) :
  c <> c' -> disjoint (sklearn.class_indices y c) (sklearn.class_indices y c').
Proof.
  unfold sklearn.class_indices. intros Hc i Hi Hi'.
  apply where_iff in Hi. apply where_iff in Hi'.
  rewrite nth_error_map in Hi, Hi'.
  destruct (nth_error y i) as [b|]; [|discriminate]. simpl in *.
  destruct b, c, c'; simpl in *; congruence.
Qed.

Lemma classes_lists (y : list bool) :
  Forall (fun ci => NoDup ci /\ Forall (fun i => i < length y) ci)
    (map (sklearn.class_indices y) (sklearn.classes_of y)) /\
  ForallOrdPairs disjoint (map (sklearn.class_indices y) (sklearn.classes_of y)).
Proof.
  unfold sklearn.classes_of. simpl.
  destruct (existsb (Bool.eqb false) y), (existsb (Bool.eqb true) y); simpl;
    (split;
     [repeat constructor;
      try apply class_indices_NoDup; try apply class_indices_bound
     | repeat constructor; apply class_indices_disjoint; discriminate]).
Qed.

(** A split that is returned has disjoint index arrays within range. *)
Lemma stratified_shuffle_split_inv (y : list bool) (n_train n_test : nat) (rng : G) r :
  sklearn.stratified_shuffle_split y n_train n_test rng = Some r ->
  disjoint (fst (fst r)) (snd (fst r)) /\
  Forall (fun i => i < length y) (fst (fst r)) /\
  Forall (fun i => i < length y) (snd (fst r)).
Proof.
  unfold sklearn.stratified_shuffle_split.
  destruct (existsb _ _); [discriminate|].
  destruct (n_train <? _); [discriminate|].
  destruct (n_test <? _); [discriminate|].
  destruct (sklearn.approximate_mode _ n_train rng) as [n_i rng1].
  destruct (sklearn.approximate_mode _ n_test rng1) as [t_i rng2].
  set (cls := combine (map (sklearn.class_indices y) (sklearn.classes_of y))
                      (combine n_i t_i)).
  destruct (classes_lists y) as [Hall Hpairs].
  assert (Hnd : Forall (fun a => NoDup (fst a)) cls).
  { apply (combine_fst_Forall (fun ci => NoDup ci)).
    eapply Forall_impl; [|exact Hall]. intros ci [Hn _]. exact Hn. }
  assert (Hb : Forall (fun a => Forall (fun i => i < length y) (fst a)) cls).
  { apply (combine_fst_Forall (fun ci => Forall (fun i => i < length y) ci)).
    eapply Forall_impl; [|exact Hall]. intros ci [_ Hbd]. exact Hbd. }
  assert (Hp : ForallOrdPairs (fun a b => disjoint (fst a) (fst b)) cls)
    by (apply combine_fst_pairs; exact Hpairs).
  destruct (draw_classes_disjoint cls rng2 Hnd Hp) as [Hd Hsrc].
  destruct (sklearn.draw_classes cls rng2) as [[train test] rng3].
  simpl in Hd, Hsrc.
  pose proof (shuffle_perm train rng3) as Htr.
  destruct (np.shuffle train rng3) as [train' rng4]. simpl in Htr.
  pose proof (shuffle_perm test rng4) as Hte.
  destruct (np.shuffle test rng4) as [test' rng5]. simpl in Hte.
  intros Hr. inversion Hr; subst r; clear Hr. simpl.
  assert (Hrange : forall i, In i train \/ In i test -> i < length y).
  { intros i Hi. destruct (Hsrc i Hi) as (a & Ha & Hia).
    rewrite Forall_forall in Hb. specialize (Hb a Ha).
    rewrite Forall_forall in Hb. apply Hb, Hia. }
  split; [|split].
  - intros i Hi Hi'.
    apply (Hd i); [eapply Permutation_in; [exact Htr | exact Hi]
                  | eapply Permutation_in; [exact Hte | exact Hi']].
  - apply Forall_forall. intros i Hi. apply Hrange. left.
    eapply Permutation_in; [exact Htr | exact Hi].
  - apply Forall_forall. intros i Hi. apply Hrange. right.
    eapply Permutation_in; [exact Hte | exact Hi].
Qed.

Lemma classes_of_both (y : list bool) :
  0 < sklearn.count true y -> 0 < sklearn.count false y ->
  sklearn.classes_of y = [false; true].
Proof.
  intros Ht Hf. unfold sklearn.classes_of. simpl.
  assert (Hex : forall c, 0 < sklearn.count c y -> existsb (Bool.eqb c) y = true).
  { intros c Hc. apply existsb_exists. exists c.
    split; [apply (count_occ_In bool_dec); exact Hc | apply eqb_reflx]. }
  rewrite (Hex false Hf), (Hex true Ht). reflexivity.
Qed.

Lemma stratified_shuffle_split_some (y : list bool) (n_train n_test : nat) (rng : G) :
  2 <= sklearn.count true y -> 2 <= sklearn.count false y ->
  2 <= n_train -> 2 <= n_test ->
  exists r, sklearn.stratified_shuffle_split y n_train n_test rng = Some r.
Proof.
  intros Ht Hf Htr Hte. unfold sklearn.stratified_shuffle_split.
  rewrite classes_of_both by lia. simpl.
  replace (sklearn.count false y <? 2) with false by (symmetry; apply Nat.ltb_ge; lia).
  replace (sklearn.count true y <? 2) with false by (symmetry; apply Nat.ltb_ge; lia).
  replace (n_train <? 2) with false by (symmetry; apply Nat.ltb_ge; lia).
  replace (n_test <? 2) with false by (symmetry; apply Nat.ltb_ge; lia).
  simpl.
  destruct (sklearn.approximate_mode _ n_train rng) as [n_i rng1].
  destruct (sklearn.approximate_mode _ n_test rng1) as [t_i rng2].
  destruct (sklearn.draw_classes _ rng2) as [[train test] rng3].
  destruct (np.shuffle train rng3) as [train' rng4].
  destruct (np.shuffle test rng4) as [test' rng5].
  eauto.
Qed.

(** The split that is returned has disjoint index arrays and hands out the
    rows and labels at these indices. *)
Lemma train_test_split_inv (X : list (list Q)) (y : list bool) (test_size : Q)
  (rs : sklearn.random_state) (g : G) d g' :
  sklearn.train_test_split X y test_size rs g = Some (d, g') ->
  disjoint (sklearn.train_index d) (sklearn.holdout_index d) /\
  np.take X (sklearn.train_index d) = Some (sklearn.X_train d) /\
  np.take y (sklearn.train_index d) = Some (sklearn.y_train d) /\
  np.take X (sklearn.holdout_index d) = Some (sklearn.X_holdout d) /\
  np.take y (sklearn.holdout_index d) = Some (sklearn.y_holdout d).
Proof.
  unfold sklearn.train_test_split.
  destruct (negb (length X =? length y)); [discriminate|].
  destruct (negb (Qle_bool test_size 0) && negb (Qle_bool 1 test_size));
    [|discriminate].
  destruct (_ =? 0); [discriminate|].
  intros Hs. obind_inv Hs. destruct a as [[train test] g0].
  assert (Hd : disjoint train test).
  { destruct rs as [seed|]; simpl in Ha.
    - obind_inv Ha. destruct a as [[tr te] rng']. simpl in Ha.
      inversion Ha; subst.
      exact (proj1 (stratified_shuffle_split_inv _ _ _ _ _ Ha0)).
    - exact (proj1 (stratified_shuffle_split_inv _ _ _ _ _ Ha)). }
  obind_inv Hs. obind_inv Hs. obind_inv Hs. obind_inv Hs.
  inversion Hs; subst; clear Hs. simpl. auto.
Qed.

Lemma train_test_split_some (X : list (list Q)) (y : list bool) (test_size : Q)
  (rs : sklearn.random_state) (g : G) :
  length X = length y ->
  (0 < test_size)%Q -> (test_size < 1)%Q ->
  2 <= sklearn.count true y -> 2 <= sklearn.count false y ->
  2 <= Z.to_nat (Qceiling (test_size * np.Qnat (length X))) ->
  2 <= length X - Z.to_nat (Qceiling (test_size * np.Qnat (length X))) ->
  exists d g', sklearn.train_test_split X y test_size rs g = Some (d, g').
Proof.
  intros Hl Hts0 Hts1 Ht Hf Hnt Hntr.
  set (n_test := Z.to_nat (Qceiling (test_size * np.Qnat (length X)))) in *.
  assert (Hr : exists train test g0,
             sklearn.with_random_state rs
               (sklearn.stratified_shuffle_split y (length X - n_test) n_test) g
             = Some ((train, test), g0) /\
             Forall (fun i => i < length y) train /\
             Forall (fun i => i < length y) test).
  { destruct rs as [seed|]; simpl.
    - destruct (stratified_shuffle_split_some y (length X - n_test) n_test
                  (np.RandomState seed) Ht Hf Hntr Hnt) as [[[train test] rng'] Hr].
      destruct (stratified_shuffle_split_inv y _ _ _ _ Hr) as (_ & Htr & Hte).
      rewrite Hr. simpl. eauto 6.
    - destruct (stratified_shuffle_split_some y (length X - n_test) n_test
                  g Ht Hf Hntr Hnt) as [[[train test] rng'] Hr].
      destruct (stratified_shuffle_split_inv y _ _ _ _ Hr) as (_ & Htr & Hte).
      rewrite Hr. simpl. eauto 6. }
  destruct Hr as (train & test & g0 & Hr & Htr & Hte).
  unfold sklearn.train_test_split.
  rewrite Hl, Nat.eqb_refl. simpl negb. cbv iota.
  replace (Qle_bool test_size 0) with false.
  2:{ symmetry. destruct (Qle_bool test_size 0) eqn:Hq; [|reflexivity].
      apply Qle_bool_iff in Hq. exfalso. exact (Qlt_not_le _ _ Hts0 Hq). }
  replace (Qle_bool 1 test_size) with false.
  2:{ symmetry. destruct (Qle_bool 1 test_size) eqn:Hq; [|reflexivity].
      apply Qle_bool_iff in Hq. exfalso. exact (Qlt_not_le _ _ Hts1 Hq). }
  simpl negb. simpl andb. cbv iota. rewrite <- Hl. fold n_test.
  replace (length X - n_test =? 0) with false by (symmetry; apply Nat.eqb_neq; lia).
  rewrite Hr. cbn [obind].
  rewrite (take_some [] X train) by (rewrite Hl; exact Htr).
  rewrite (take_some [] X test) by (rewrite Hl; exact Hte).
  rewrite (take_some false y train) by exact Htr.
  rewrite (take_some false y test) by exact Hte.
  cbn [obind]. eauto.
Qed.

End Split.

(** A direct call that returns hands back the area, or NaN where the
    area is not defined, which only scikit-learn from 1.6 on does. *)
Lemma roc_auc_score_call_inv (v : sklearn.version) y_true y_score (o : option Q) :
  sklearn.roc_auc_score_call v y_true y_score = Some o ->
  o = sklearn.roc_auc_score y_true y_score /\
  (o = None -> v = sklearn.since_1_6).
Proof.
  unfold sklearn.roc_auc_score_call.
  destruct (sklearn.roc_auc_score y_true y_score) as [a|], v; intros Ho;
    inversion Ho; subst; split; try reflexivity; discriminate.
Qed.

(** What the evaluation cell has done when it returns. *)
Lemma holdout_evaluation_inv {G E : Type} `{sklearn.Estimator G E}
  (v : sklearn.version) (d : sklearn.split_data) (final_lambda : Q) (max_iter : nat)
  (g : G) (s : Lasso.holdout_scores) (g' : G) :
  Lasso.holdout_evaluation v d final_lambda max_iter g = Some (s, g') ->
  sklearn.fit (np.fin (1 / final_lambda)) max_iter
    (sklearn.X_train d) (sklearn.y_train d) g = (Lasso.final_model s, g') /\
  (0 < final_lambda)%Q /\
  0 < sklearn.count true (sklearn.y_train d) /\
  0 < sklearn.count false (sklearn.y_train d) /\
  length (sklearn.X_holdout d) = length (sklearn.y_holdout d) /\
  Lasso.y_holdout_pred s
  = map (sklearn.predict (Lasso.final_model s)) (sklearn.X_holdout d) /\
  Lasso.y_holdout_pred_prob s
  = map (sklearn.predict_proba (Lasso.final_model s)) (sklearn.X_holdout d) /\
  sklearn.balanced_accuracy_score (sklearn.y_holdout d) (Lasso.y_holdout_pred s)
  = Some (Lasso.holdout_bal_acc s) /\
  sklearn.roc_auc_score_call v (sklearn.y_holdout d) (Lasso.y_holdout_pred_prob s)
  = Some (Lasso.holdout_auroc s).
Proof.
  unfold Lasso.holdout_evaluation, truediv. intros Hev.
  destruct (Qeq_bool final_lambda 0) eqn:Hz; [discriminate|]. cbn [obind] in Hev.
  obind_inv Hev.
  apply LogisticRegression_fit_inv in Ha. destruct Ha as (-> & HC & Ht & Hf).
  destruct (sklearn.fit _ _ _ _ g) as [m g1]. simpl in Hev.
  destruct (Nat.eqb_spec (length (sklearn.X_holdout d)) (length (sklearn.y_holdout d)))
    as [Hlen|]; [|discriminate]. cbn [negb] in Hev.
  obind_inv Hev. obind_inv Hev. inversion Hev; subst; clear Hev. simpl.
  apply fin_positive in HC.
  repeat (split; [first [reflexivity | assumption | idtac]|]); try assumption.
  - unfold Qdiv in HC. rewrite Qmult_1_l in HC.
    apply Qinv_lt_0_compat in HC. rewrite Qinv_involutive in HC. exact HC.
Qed.

(** C4: the train/holdout split returns disjoint index arrays; the four
    data sets are the rows and labels at these indices; and the holdout
    predictions that are scored against [y_holdout] are the final model,
    fitted on the training rows, applied row by row to [X_holdout].  The
    split returns whenever both classes have two members and both parts
    get two samples. *)
Theorem holdout_disjoint_from_training
  {G E : Type} `{np.RandomGen G} `{@sklearn.ApproximateMode G} `{sklearn.Estimator G E}
  (X : list (list Q)) (y : list bool) (test_size : Q) (seed : Z) (g : G) :
  (forall d g',
      sklearn.train_test_split X y test_size (sklearn.rs_int seed) g = Some (d, g') ->
      disjoint (sklearn.train_index d) (sklearn.holdout_index d) /\
      np.take X (sklearn.train_index d) = Some (sklearn.X_train d) /\
      np.take y (sklearn.train_index d) = Some (sklearn.y_train d) /\
      np.take X (sklearn.holdout_index d) = Some (sklearn.X_holdout d) /\
      np.take y (sklearn.holdout_index d) = Some (sklearn.y_holdout d) /\
      forall v final_lambda max_iter (g1 : G) s g2,
        Lasso.holdout_evaluation v d final_lambda max_iter g1 = Some (s, g2) ->
        Lasso.final_model s
        = fst (sklearn.fit (np.fin (1 / final_lambda)) max_iter
                 (sklearn.X_train d) (sklearn.y_train d) g1) /\
        Lasso.y_holdout_pred s
        = map (sklearn.predict (Lasso.final_model s)) (sklearn.X_holdout d) /\
        Lasso.y_holdout_pred_prob s
        = map (sklearn.predict_proba (Lasso.final_model s)) (sklearn.X_holdout d) /\
        sklearn.balanced_accuracy_score (sklearn.y_holdout d) (Lasso.y_holdout_pred s)
        = Some (Lasso.holdout_bal_acc s) /\
        sklearn.roc_auc_score (sklearn.y_holdout d) (Lasso.y_holdout_pred_prob s)
        = Lasso.holdout_auroc s) /\
  (length X = length y ->
   (0 < test_size)%Q -> (test_size < 1)%Q ->
   2 <= sklearn.count true y -> 2 <= sklearn.count false y ->
   2 <= Z.to_nat (Qceiling (test_size * np.Qnat (length X))) ->
   2 <= length X - Z.to_nat (Qceiling (test_size * np.Qnat (length X))) ->
   exists d g',
     sklearn.train_test_split X y test_size (sklearn.rs_int seed) g = Some (d, g')).
Proof.
  split.
  - intros d g' Hs.
    destruct (train_test_split_inv X y test_size _ g d g' Hs)
      as (Hd & HXt & Hyt & HXh & Hyh).
    repeat (split; [assumption|]).
    intros v final_lambda max_iter g1 s g2 Hev.
    apply holdout_evaluation_inv in Hev.
    destruct Hev as (Hfit & _ & _ & _ & _ & Hpred & Hprob & Hbal & Hauc).
    rewrite Hfit. split; [reflexivity|].
    apply roc_auc_score_call_inv in Hauc. destruct Hauc as [Hauc _].
    symmetry in Hauc. auto.
  - apply train_test_split_some.
Qed.

(** An 80/20 split of 20 reference samples. *)
Lemma holdout_disjoint_from_training_witness :
  let X := Reference.toy_X 20 2 in
  let y := Reference.toy_y 20 in
  let test_size := (1#5)%Q in
  (length X = length y /\ (0 < test_size)%Q /\ (test_size < 1)%Q /\
   2 <= sklearn.count true y /\ 2 <= sklearn.count false y /\
   2 <= Z.to_nat (Qceiling (test_size * np.Qnat (length X))) /\
   2 <= length X - Z.to_nat (Qceiling (test_size * np.Qnat (length X)))) /\
  exists d g',
    sklearn.train_test_split X y test_size (sklearn.rs_int 1) 0 = Some (d, g') /\
    disjoint (sklearn.train_index d) (sklearn.holdout_index d) /\
    np.take X (sklearn.train_index d) = Some (sklearn.X_train d) /\
    np.take y (sklearn.train_index d) = Some (sklearn.y_train d) /\
    np.take X (sklearn.holdout_index d) = Some (sklearn.X_holdout d) /\
    np.take y (sklearn.holdout_index d) = Some (sklearn.y_holdout d).
Proof.
  intros X y test_size.
  assert (Hl : length X = length y) by reflexivity.
  assert (H0 : (0 < test_size)%Q) by reflexivity.
  assert (H1 : (test_size < 1)%Q) by reflexivity.
  assert (Ht : 2 <= sklearn.count true y) by (vm_compute; lia).
  assert (Hf : 2 <= sklearn.count false y) by (vm_compute; lia).
  assert (Hn : 2 <= Z.to_nat (Qceiling (test_size * np.Qnat (length X))))
    by (vm_compute; lia).
  assert (Hm : 2 <= length X - Z.to_nat (Qceiling (test_size * np.Qnat (length X))))
    by (vm_compute; lia).
  split; [tauto|].
  destruct (holdout_disjoint_from_training (E := list Q) X y test_size 1%Z 0)
    as [Hinv Hret].
  destruct (Hret Hl H0 H1 Ht Hf Hn Hm) as (d & g' & Hs).
  exists d, g'. split; [exact Hs|].
  destruct (Hinv d g' Hs) as (Hd & HXt & Hyt & HXh & Hyh & _).
  auto.
Defined.

Example split_example :
  option_map (fun r => (sklearn.train_index (fst r), sklearn.holdout_index (fst r)))
    (sklearn.train_test_split (Reference.toy_X 10 1) (Reference.toy_y 10) (1#5)
       (sklearn.rs_int 1) 0)
  = Some ([4; 9; 3; 5; 0; 8; 6; 7], [2; 1]).
Proof. vm_compute. reflexivity. Qed.

(** ** A run of the whole notebook

    Split, sweep and final model on the reference data: the table comes
    out in ascending order of lambda whatever the order of the grid, and
    in the report the tie between [f1] and [f2] is listed with [f2]
    first. *)
Example notebook_run :
  option_map (fun r => (map Lasso.lambda_val (Lasso.table (fst r)),
                        Lasso.coefficients (fst r)))
    (Lasso.notebook sklearn.since_1_6 ["f0"; "f1"; "f2"]%string
       (Reference.toy_X 40 3) (Reference.toy_y 40) 4
       [100#1; 1#10; 1; 10#1]%Q 1%Q 100 1%Z 0)
  = Some ([1#10; 1; 10#1; 100#1]%Q,
          [("f0", 31#1); ("f2", -(1)); ("f1", -(1))]%string%Q).
Proof. vm_compute. reflexivity. Qed.

(** * Further properties *)

(** ** Holdout evaluation and the report, further properties *)

Lemma roc_auc_some_unit (y_true : list bool) (y_score : list Q) (a : Q) :
  sklearn.roc_auc_score y_true y_score = Some a -> unit_interval a.
Proof.
  unfold sklearn.roc_auc_score.
  set (ys := combine y_true y_score).
  set (pos := map snd (filter (fun p => fst p) ys)).
  set (neg := map snd (filter (fun p => negb (fst p)) ys)).
  destruct pos as [|p0 pos'] eqn:Ep; [discriminate|].
  destruct neg as [|n0 neg'] eqn:En; [discriminate|].
  rewrite <- Ep, <- En. intros Ha. inversion Ha; subst a; clear Ha.
  assert (Hpos : 0 < length pos) by (rewrite Ep; simpl; lia).
  assert (Hneg : 0 < length neg) by (rewrite En; simpl; lia).
  assert (Hinner : Forall (fun x => 0 <= x /\ x <= np.Qnat (length neg))%Q
                     (map (fun sp => np.sumQ (map (sklearn.pair_credit sp) neg)) pos)).
  { apply Forall_forall. intros x Hx. apply in_map_iff in Hx.
    destruct Hx as (sp & <- & _).
    pose proof (sumQ_bounds 1 (map (sklearn.pair_credit sp) neg)) as Hb.
    rewrite length_map, Qmult_1_r in Hb. apply Hb.
    apply Forall_forall. intros c Hc. apply in_map_iff in Hc.
    destruct Hc as (sn & <- & _). apply pair_credit_unit. }
  apply sumQ_bounds in Hinner. rewrite length_map in Hinner.
  destruct Hinner as [H0 H1].
  assert (Hden : (0 < np.Qnat (length pos) * np.Qnat (length neg))%Q).
  { rewrite <- (Qmult_0_l 0). apply Qmult_lt_compat_nonneg.
    - split; [apply Qle_refl | apply Qnat_pos; exact Hpos].
    - split; [apply Qle_refl | apply Qnat_pos; exact Hneg]. }
  split.
  - apply Qle_shift_div_l; [exact Hden|]. rewrite Qmult_0_l. exact H0.
  - apply Qle_shift_div_r; [exact Hden|]. rewrite Qmult_1_l. exact H1.
Qed.

Lemma balanced_accuracy_some_unit (y_true y_pred : list bool) (b : Q) :
  sklearn.balanced_accuracy_score y_true y_pred = Some b -> unit_interval b.
Proof.
  unfold sklearn.balanced_accuracy_score.
  destruct (sklearn.count true y_true) as [|nt] eqn:Et;
    destruct (sklearn.count false y_true) as [|nf] eqn:Ef;
    intros Hb; inversion Hb; subst b; clear Hb.
  - apply recall_unit. lia.
  - apply recall_unit. lia.
  - destruct (recall_unit true y_true y_pred) as [Ht0 Ht1]; [lia|].
    destruct (recall_unit false y_true y_pred) as [Hf0 Hf1]; [lia|].
    split.
    + apply Qle_shift_div_l; [reflexivity|]. rewrite Qmult_0_l.
      rewrite <- (Qplus_0_l 0). apply Qplus_le_compat; assumption.
    + apply Qle_shift_div_r; [reflexivity|].
      change (1 * (2 # 1))%Q with (1 + 1)%Q. apply Qplus_le_compat; assumption.
Qed.

Lemma roc_auc_some_classes (y_true : list bool) (y_score : list Q) (a : Q) :
  sklearn.roc_auc_score y_true y_score = Some a -> forall c, In c y_true.
Proof.
  unfold sklearn.roc_auc_score.
  set (ys := combine y_true y_score).
  destruct (map snd (filter (fun p => fst p) ys)) as [|p0 pos'] eqn:Ep; [discriminate|].
  destruct (map snd (filter (fun p => negb (fst p)) ys)) as [|n0 neg'] eqn:En;
    [discriminate|].
  intros _ c.
  assert (Hex : exists s, In (c, s) ys).
  { destruct c.
    - destruct (filter (fun p => fst p) ys) as [|[b s] t] eqn:Ef; [discriminate|].
      assert (Hin : In (b, s) (filter (fun p => fst p) ys)) by (rewrite Ef; left; reflexivity).
      apply filter_In in Hin. destruct Hin as [Hin Hb]. simpl in Hb. subst b. eauto.
    - destruct (filter (fun p => negb (fst p)) ys) as [|[b s] t] eqn:Ef; [discriminate|].
      assert (Hin : In (b, s) (filter (fun p => negb (fst p)) ys))
        by (rewrite Ef; left; reflexivity).
      apply filter_In in Hin. destruct Hin as [Hin Hb]. simpl in Hb.
      destruct b; [discriminate|]. eauto. }
  destruct Hex as [s Hs]. exact (in_combine_l _ _ _ _ Hs).
Qed.

Lemma candidate_positive (l : Q) : (0 < 1 / l)%Q -> (0 < l)%Q.
Proof.
  unfold Qdiv. rewrite Qmult_1_l. intros Hl.
  apply Qinv_lt_0_compat in Hl. rewrite Qinv_involutive in Hl. exact Hl.
Qed.

(** A candidate whose reciprocal passes the parameter check is not
    negative: [1 / 0.0] is [inf], which passes. *)
Lemma reciprocal_positive (l : Q) :
  np.positive (np.reciprocal l) = true <-> (0 <= l)%Q.
Proof.
  unfold np.reciprocal. destruct (Qeq_bool l 0) eqn:Hz.
  - apply Qeq_bool_iff in Hz. split; [intros _; rewrite Hz; apply Qle_refl|].
    reflexivity.
  - rewrite fin_positive. split.
    + intros Hl. apply Qlt_le_weak, candidate_positive, Hl.
    + intros Hl. apply Qinv_candidate. apply Qle_lt_or_eq in Hl.
      destruct Hl as [Hl|Hl]; [exact Hl|].
      symmetry in Hl. apply Qeq_bool_iff in Hl. congruence.
Qed.

(** X1: the holdout scores of Step 4.  Whenever the cell computes them,
    the balanced accuracy lies between 0 and 1, and the AUROC lies
    between 0 and 1 or is NaN.  It is NaN exactly when the holdout labels
    are of one class, and only scikit-learn from 1.6 on computes scores
    then (earlier versions raise).  The cell only gets that far with a
    positive [final_lambda] and training labels of both classes. *)
Theorem holdout_scores_unit
  {G E : Type} `{sklearn.Estimator G E}
  (v : sklearn.version) (d : sklearn.split_data) (final_lambda : Q)
  (max_iter : nat) (g : G) (s : Lasso.holdout_scores) (g' : G) :
  Lasso.holdout_evaluation v d final_lambda max_iter g = Some (s, g') ->
  unit_interval (Lasso.holdout_bal_acc s) /\
  (forall a, Lasso.holdout_auroc s = Some a -> unit_interval a) /\
  (Lasso.holdout_auroc s = None <-> ~ (forall c, In c (sklearn.y_holdout d))) /\
  (Lasso.holdout_auroc s = None -> v = sklearn.since_1_6) /\
  (0 < final_lambda)%Q /\
  (forall c, In c (sklearn.y_train d)).
Proof.
  intros Hev. apply holdout_evaluation_inv in Hev.
  destruct Hev as (_ & Hpos & Ht & Hf & Hlen & _ & Hprob & Hbal & Hauc).
  apply roc_auc_score_call_inv in Hauc. destruct Hauc as [Hauc Hv].
  split; [eapply balanced_accuracy_some_unit; exact Hbal|].
  split; [intros a Ha; rewrite Ha in Hauc; symmetry in Hauc;
          eapply roc_auc_some_unit; exact Hauc|].
  split; [|split; [exact Hv|split; [exact Hpos|]]].
  - split.
    + intros Hnone Hboth. rewrite Hnone in Hauc.
      destruct (roc_auc_unit (sklearn.y_holdout d) (Lasso.y_holdout_pred_prob s))
        as (a & Ha & _); [|apply Hboth | apply Hboth | congruence].
      rewrite Hprob, length_map. exact Hlen.
    + intros Hone. destruct (Lasso.holdout_auroc s) as [a|]; [|reflexivity].
      exfalso. apply Hone. symmetry in Hauc.
      exact (roc_auc_some_classes _ _ _ Hauc).
  - intros [|]; apply (count_occ_In bool_dec); assumption.
Qed.

Lemma holdout_scores_unit_witness :
  exists d g1 s g',
    sklearn.train_test_split (Reference.toy_X 12 2) (Reference.toy_y 12) (1#5)
      (sklearn.rs_int 1) 0 = Some (d, g1) /\
    Lasso.holdout_evaluation sklearn.since_1_6 d 1 100 g1 = Some (s, g') /\
    unit_interval (Lasso.holdout_bal_acc s) /\
    (forall a, Lasso.holdout_auroc s = Some a -> unit_interval a) /\
    (Lasso.holdout_auroc s = None <-> ~ (forall c, In c (sklearn.y_holdout d))) /\
    (Lasso.holdout_auroc s = None -> sklearn.since_1_6 = sklearn.since_1_6) /\
    (0 < 1)%Q /\
    (forall c, In c (sklearn.y_train d)).
Proof.
  destruct (sklearn.train_test_split (Reference.toy_X 12 2) (Reference.toy_y 12) (1#5)
              (sklearn.rs_int 1) 0) as [[d g1]|] eqn:Hsp;
    [|vm_compute in Hsp; discriminate].
  destruct (Lasso.holdout_evaluation sklearn.since_1_6 d 1 100 g1)
    as [[s g']|] eqn:Hev.
  - exists d, g1, s, g'. split; [reflexivity|]. split; [exact Hev|].
    exact (holdout_scores_unit sklearn.since_1_6 d 1%Q 100 g1 s g' Hev).
  - exfalso. vm_compute in Hsp. inversion Hsp; subst d g1.
    vm_compute in Hev. discriminate.
Defined.

(** X2: the report of Step 4 has as many lines as [np.count_nonzero]
    counts in the coefficient vector (the count the sweep averages per
    fold), and it is empty exactly when every coefficient is zero. *)
Theorem final_report_line_count
  {G E : Type} `{sklearn.Estimator G E}
  (columns : list string) (s : Lasso.holdout_scores) (r : list (string * Q)) :
  Lasso.final_report columns s = Some r ->
  length r = np.count_nonzero (sklearn.coef_ (Lasso.final_model s)) /\
  (r = [] <-> Forall (fun c => c == 0)%Q (sklearn.coef_ (Lasso.final_model s))).
Proof.
  unfold Lasso.final_report. intros Hr.
  set (coef := sklearn.coef_ (Lasso.final_model s)) in *.
  pose proof (nonzero_report_lengths _ _ _ Hr) as Hl.
  pose proof (report_permutation _ _ _ Hl Hr) as Hp.
  assert (Hlen : length r = np.count_nonzero coef).
  { rewrite (Permutation_length Hp), nonzero_pairs_length by exact Hl. reflexivity. }
  split; [exact Hlen|].
  unfold np.count_nonzero in Hlen. split.
  - intros ->. simpl in Hlen. apply Forall_forall. intros c Hc.
    destruct (Qeq_bool c 0) eqn:Hq; [apply Qeq_bool_iff; exact Hq|].
    assert (Hin : In c (filter (fun c => negb (Qeq_bool c 0)) coef))
      by (apply filter_In; rewrite Hq; auto).
    destruct (filter _ coef); [destruct Hin | discriminate].
  - intros Hz. destruct r as [|p r']; [reflexivity|]. exfalso.
    destruct (filter (fun c => negb (Qeq_bool c 0)) coef) as [|c t] eqn:Ef;
      [discriminate|].
    assert (Hin : In c (filter (fun c => negb (Qeq_bool c 0)) coef))
      by (rewrite Ef; left; reflexivity).
    apply filter_In in Hin. destruct Hin as [Hin Hc].
    rewrite Forall_forall in Hz. apply Hz in Hin. apply Qeq_bool_iff in Hin.
    rewrite Hin in Hc. discriminate.
Qed.

Lemma final_report_line_count_witness :
  let columns := ["a"; "b"; "c"; "d"]%string in
  let s := Reference.toy_scores [1#2; 0; -(3#1); -(1#2)]%Q in
  exists r,
    Lasso.final_report columns s = Some r /\
    length r = np.count_nonzero (sklearn.coef_ (Lasso.final_model s)) /\
    (r = [] <-> Forall (fun c => c == 0)%Q (sklearn.coef_ (Lasso.final_model s))).
Proof.
  intros columns s.
  exists [("c", -(3#1)); ("d", -(1#2)); ("a", 1#2)]%string%Q.
  split; [reflexivity|].
  apply (final_report_line_count (G := nat) columns s). reflexivity.
Defined.

(** X3: the report cell raises exactly when the number of column names
    differs from the number of coefficients (the boolean mask computed
    from the coefficients then does not fit the column index). *)
Theorem final_report_raises_iff
  {G E : Type} `{sklearn.Estimator G E}
  (columns : list string) (s : Lasso.holdout_scores) :
  Lasso.final_report columns s = None <->
  length columns <> length (sklearn.coef_ (Lasso.final_model s)).
Proof.
  unfold Lasso.final_report. split.
  - intros Hn Hl. rewrite (nonzero_report_eq _ _ Hl) in Hn. discriminate.
  - intros Hl.
    destruct (Report.nonzero_report columns (sklearn.coef_ (Lasso.final_model s)))
      as [r|] eqn:Hr; [|reflexivity].
    exfalso. apply Hl. exact (nonzero_report_lengths _ _ _ Hr).
Qed.

Lemma Qabs_zero_le (c x : Q) : (c == 0)%Q -> (Qabs c <= Qabs x)%Q.
Proof. intros Hc. rewrite Hc. apply Qabs_nonneg. Qed.

(** X4: the first line of the report holds a coefficient of largest
    magnitude: no coefficient of the model, listed or not, exceeds it in
    absolute value. *)
Theorem final_report_head_is_largest
  {G E : Type} `{sklearn.Estimator G E}
  (columns : list string) (s : Lasso.holdout_scores)
  (top : string * Q) (rest : list (string * Q)) :
  Lasso.final_report columns s = Some (top :: rest) ->
  Forall (fun c => Qabs c <= Qabs (snd top))%Q (sklearn.coef_ (Lasso.final_model s)).
Proof.
  unfold Lasso.final_report. intros Hr.
  set (coef := sklearn.coef_ (Lasso.final_model s)) in *.
  pose proof (nonzero_report_lengths _ _ _ Hr) as Hl.
  pose proof (report_permutation _ _ _ Hl Hr) as Hp.
  pose proof (report_descending _ _ _ Hl Hr) as Hd.
  apply Forall_forall. intros c Hc.
  destruct (Qeq_bool c 0) eqn:Hq.
  - apply Qabs_zero_le. apply Qeq_bool_iff. exact Hq.
  - assert (Hin : In c (map snd (Report.nonzero_pairs columns coef))).
    { rewrite nonzero_pairs_snd by exact Hl. apply filter_In. rewrite Hq. auto. }
    apply in_map_iff in Hin. destruct Hin as (p & <- & Hp').
    apply (Permutation_in _ (Permutation_sym Hp)) in Hp'.
    destruct Hp' as [->|Hrest]; [apply Qle_refl|].
    unfold Report.descending_magnitude in Hd. inversion Hd as [|? ? _ Hall]; subst.
    rewrite Forall_forall in Hall. exact (Hall p Hrest).
Qed.

Lemma final_report_head_is_largest_witness :
  let columns := ["a"; "b"; "c"; "d"]%string in
  let s := Reference.toy_scores [1#2; 0; -(3#1); -(1#2)]%Q in
  exists top rest,
    Lasso.final_report columns s = Some (top :: rest) /\
    Forall (fun c => Qabs c <= Qabs (snd top))%Q (sklearn.coef_ (Lasso.final_model s)).
Proof.
  intros columns s.
  exists ("c", -(3#1))%string%Q, [("d", -(1#2)); ("a", 1#2)]%string%Q.
  split; [reflexivity|].
  apply (final_report_head_is_largest (G := nat) columns s
           ("c", -(3#1))%string%Q [("d", -(1#2)); ("a", 1#2)]%string%Q).
  reflexivity.
Defined.

(** ** Requirements and bookkeeping of the sweep *)

Section SweepFacts.
Context {G E : Type} `{np.RandomGen G} `{sklearn.Estimator G E}.

Lemma with_random_state_inv {A : Type} (rs : sklearn.random_state)
  (f : G -> option (A * G)) (g : G) (r : A * G) :
  sklearn.with_random_state rs f g = Some r ->
  exists g0 r0, f g0 = Some r0 /\ fst r0 = fst r.
Proof.
  destruct rs as [seed|]; simpl; intros Hr.
  - obind_inv Hr. inversion Hr; subst r. exists (np.RandomState seed), a. auto.
  - exists g, r. auto.
Qed.

(** The folds that a split returns come from one array of fold numbers,
    one number per sample. *)
Lemma split_inv (kf : sklearn.StratifiedKFold) n y (g : G) sp :
  sklearn.split kf n y g = Some sp ->
  sklearn.n_splits kf <= n /\
  exists g0 tf, sklearn.make_test_folds kf y g0 = Some tf /\
                fst sp = sklearn.folds_of (sklearn.n_splits kf) (fst tf).
Proof.
  unfold sklearn.split.
  destruct (Nat.ltb_spec n (sklearn.n_splits kf)) as [Hlt|Hge]; [discriminate|].
  intros Hs. obind_inv Hs. inversion Hs; subst sp. simpl. split; [exact Hge|].
  apply with_random_state_inv in Ha. destruct Ha as (g0 & tf & Htf & Hfst).
  exists g0, tf. rewrite Hfst. auto.
Qed.

Lemma cross_validate_shape C mi (X : list (list Q)) y kf (g : G) r :
  sklearn.cross_validate C mi X y kf g = Some r ->
  length X = length y /\ sklearn.n_splits kf <= length y /\
  length (sklearn.estimator (fst r)) = sklearn.n_splits kf /\
  exists g0 tf,
    sklearn.make_test_folds kf y g0 = Some tf /\
    sklearn.indices (fst r) = sklearn.folds_of (sklearn.n_splits kf) (fst tf).
Proof.
  intros Hr. pose proof Hr as Hr'. unfold sklearn.cross_validate in Hr'.
  destruct (Nat.eqb_spec (length X) (length y)) as [Hl|Hl]; [|discriminate].
  clear Hr'. split; [exact Hl|].
  apply cross_validate_inv in Hr.
  destruct Hr as (sp & rs & Hsp & Hrs & Hi & _ & _ & He).
  apply split_inv in Hsp. destruct Hsp as (Hn & g0 & tf & Htf & Hfolds).
  split; [rewrite <- Hl; exact Hn|]. split.
  - rewrite He, length_map. apply fit_folds_inv in Hrs.
    rewrite <- (Forall2_length Hrs), Hfolds. apply folds_of_length.
  - exists g0, tf. rewrite Hi. auto.
Qed.

Lemma take_In {A : Type} (a : list A) (idx : list nat) (r : list A) (x : A) :
  np.take a idx = Some r -> In x r -> In x a.
Proof.
  intros Ht Hx. apply take_inv in Ht.
  induction Ht as [|i v idx' r' Hiv _ IH]; [destruct Hx|].
  destruct Hx as [->|Hx]; [eapply nth_error_In; exact Hiv | exact (IH Hx)].
Qed.

Lemma make_test_folds_class (kf : sklearn.StratifiedKFold) y (g : G) tf :
  sklearn.make_test_folds kf y g = Some tf ->
  0 < sklearn.n_splits kf ->
  sklearn.n_splits kf <= sklearn.count true y \/
  sklearn.n_splits kf <= sklearn.count false y.
Proof.
  unfold sklearn.make_test_folds. intros Htf Hk.
  destruct (forallb _ _) eqn:Hall; [discriminate|]. clear Htf.
  assert (Hex : exists c, In c (np.bincount (sklearn.encode y) 0) /\
                          sklearn.n_splits kf <= c).
  { clear -Hall. induction (np.bincount (sklearn.encode y) 0) as [|c t IH];
      [discriminate|].
    simpl in Hall. destruct (Nat.ltb_spec c (sklearn.n_splits kf)) as [Hc|Hc].
    - destruct (IH Hall) as (c' & Hin & Hle). exists c'. split; [right|]; assumption.
    - exists c. split; [left; reflexivity | exact Hc]. }
  destruct Hex as (c & Hin & Hle). unfold np.bincount in Hin.
  apply in_map_iff in Hin. destruct Hin as (v & <- & _).
  destruct y as [|first y']; [simpl in Hle; lia|].
  pose proof (encode_le (first :: y')) as Hbin.
  destruct v as [|[|v]].
  - unfold sklearn.encode in Hle. rewrite count_encode in Hle.
    destruct first; [left | right]; exact Hle.
  - unfold sklearn.encode in Hle. rewrite count_encode_other in Hle.
    destruct first; [right | left]; exact Hle.
  - exfalso.
    assert (Hpos : 0 < count_occ Nat.eq_dec (sklearn.encode (first :: y')) (S (S v)))
      by lia.
    apply (count_occ_In Nat.eq_dec) in Hpos.
    rewrite Forall_forall in Hbin. apply Hbin in Hpos. lia.
Qed.

Lemma cross_validate_requirements C mi (X : list (list Q)) y kf (g : G) r :
  sklearn.cross_validate C mi X y kf g = Some r ->
  0 < sklearn.n_splits kf ->
  np.positive C = true /\ length X = length y /\ sklearn.n_splits kf <= length y /\
  (forall c, In c y) /\
  (sklearn.n_splits kf <= sklearn.count true y \/
   sklearn.n_splits kf <= sklearn.count false y).
Proof.
  intros Hr Hk.
  destruct (cross_validate_shape _ _ _ _ _ _ _ Hr) as (Hl & Hn & _ & g0 & tf & Htf & Hi).
  apply cross_validate_inv in Hr.
  destruct Hr as (sp & rs & _ & Hrs & Hi' & _).
  rewrite <- Hi', Hi in Hrs. unfold sklearn.folds_of in Hrs.
  destruct (sklearn.n_splits kf) as [|k'] eqn:Ek; [lia|].
  simpl in Hrs. obind_inv Hrs. clear Hrs.
  unfold sklearn.fit_and_score in Ha. simpl in Ha.
  obind_inv Ha. obind_inv Ha. obind_inv Ha. obind_inv Ha. obind_inv Ha.
  apply LogisticRegression_fit_inv in Ha4. destruct Ha4 as (_ & HC & Ht & Hf).
  split; [exact HC|]. split; [exact Hl|]. split; [exact Hn|]. split.
  - intros c. apply (take_In y _ a1 c Ha1).
    destruct c; apply (count_occ_In bool_dec); assumption.
  - rewrite <- Ek. apply (make_test_folds_class kf y g0 tf Htf). lia.
Qed.

Lemma sweep_loop_runs lambda_vals mi (X : list (list Q)) y kf d (g : G) r :
  Lasso.sweep_loop lambda_vals mi X y kf d g = Some r ->
  Forall (fun l => exists g1 r1,
            sklearn.cross_validate (np.reciprocal l) mi X y kf g1 = Some r1)
    lambda_vals.
Proof.
  revert d g. induction lambda_vals as [|l rest IH]; intros d g; simpl; intros Hr.
  - constructor.
  - obind_inv Hr. constructor; [eauto | eapply IH; exact Hr].
Qed.

End SweepFacts.

(** X5: what a sweep needs in order to return.  A sweep that returns had
    at least two folds and no negative candidate (a candidate [0.0] makes
    [C] infinite, which the parameter check of [LogisticRegression] lets
    pass); and if it had a candidate at all, the features and labels had
    the same length, there were at least as many samples as folds, both
    classes occurred in the labels and one of them had at least as many
    members as there are folds.  In all other cases the sweep raises. *)
Theorem sweep_requirements
  {G E : Type} `{np.RandomGen G} `{sklearn.Estimator G E}
  (X : list (list Q)) (y : list bool) (k : nat) (lambda_vals : list Q)
  (max_iter : nat) (seed : Z) (g : G) d rows g' :
  Lasso.sweep X y k lambda_vals max_iter seed g = Some ((d, rows), g') ->
  2 <= k /\
  Forall (fun l => 0 <= l)%Q lambda_vals /\
  (lambda_vals <> [] ->
   length X = length y /\ k <= length y /\ (forall c, In c y) /\
   (k <= sklearn.count true y \/ k <= sklearn.count false y)).
Proof.
  intros Hsw. apply sweep_inv in Hsw. destruct Hsw as (Hk & Hloop & _).
  apply sweep_loop_runs in Hloop. split; [exact Hk|].
  assert (Hall : Forall (fun l => (0 <= l)%Q /\ length X = length y /\ k <= length y /\
                                  (forall c, In c y) /\
                                  (k <= sklearn.count true y \/
                                   k <= sklearn.count false y)) lambda_vals).
  { eapply Forall_impl; [|exact Hloop]. intros l (g1 & r1 & Hcv).
    apply cross_validate_requirements in Hcv; [|simpl; lia]. simpl in Hcv.
    destruct Hcv as (HC & Hrest).
    split; [apply reciprocal_positive; exact HC | exact Hrest]. }
  split.
  - eapply Forall_impl; [|exact Hall]. intros l Hl. apply Hl.
  - intros Hne. destruct lambda_vals as [|l rest]; [congruence|].
    inversion Hall as [|? ? Hl _]; subst. apply Hl.
Qed.

Lemma sweep_requirements_witness :
  let X := Reference.toy_X 8 2 in
  let y := Reference.toy_y 8 in
  let lambda_vals := [0; 1]%Q in
  exists d rows g',
    Lasso.sweep X y 2 lambda_vals 100 1%Z 0 = Some ((d, rows), g') /\
    2 <= 2 /\
    Forall (fun l => 0 <= l)%Q lambda_vals /\
    (lambda_vals <> [] ->
     length X = length y /\ 2 <= length y /\ (forall c, In c y) /\
     (2 <= sklearn.count true y \/ 2 <= sklearn.count false y)).
Proof.
  intros X y lambda_vals.
  destruct (Lasso.sweep X y 2 lambda_vals 100 1%Z 0) as [[[d rows] g']|] eqn:Hs;
    [|vm_compute in Hs; discriminate].
  exists d, rows, g'. split; [reflexivity|].
  exact (sweep_requirements X y 2 lambda_vals 100 1%Z 0 d rows g' Hs).
Defined.

(** ** The results dictionary *)

Lemma Qeq_bool_trans_false (a b c : Q) :
  Qeq_bool a b = true -> Qeq_bool b c = false -> Qeq_bool a c = false.
Proof.
  intros Hab Hbc. destruct (Qeq_bool a c) eqn:Hac; [|reflexivity].
  apply Qeq_bool_iff in Hab, Hac.
  assert (Hbc' : Qeq_bool b c = true).
  { apply Qeq_bool_iff. rewrite <- Hab. exact Hac. }
  congruence.
Qed.

Lemma get_set_same {V : Type} (d : dict.t V) (k : Q) (v : V) :
  dict.get (dict.set d k v) k = Some v.
Proof.
  induction d as [|[k' v'] r IH]; simpl.
  - rewrite (proj2 (Qeq_bool_iff k k) (Qeq_refl k)). reflexivity.
  - destruct (Qeq_bool k' k) eqn:Hk; simpl; rewrite Hk; [reflexivity | exact IH].
Qed.

Lemma get_set_other {V : Type} (d : dict.t V) (k k' : Q) (v : V) :
  Qeq_bool k k' = false -> dict.get (dict.set d k v) k' = dict.get d k'.
Proof.
  intros Hkk. induction d as [|[k0 v0] r IH]; simpl.
  - rewrite Hkk. reflexivity.
  - destruct (Qeq_bool k0 k) eqn:Hk; simpl.
    + rewrite (Qeq_bool_trans_false k0 k k' Hk Hkk). reflexivity.
    + destruct (Qeq_bool k0 k'); [reflexivity | exact IH].
Qed.

Section Dictionary.
Context {G E : Type} `{np.RandomGen G} `{sklearn.Estimator G E}.

Lemma sweep_loop_app pre post mi (X : list (list Q)) y kf d (g : G) :
  Lasso.sweep_loop (pre ++ post) mi X y kf d g
  = (r <- Lasso.sweep_loop pre mi X y kf d g ;;
     Lasso.sweep_loop post mi X y kf (fst r) (snd r)).
Proof.
  revert d g. induction pre as [|l pre IH]; intros d g; simpl; [reflexivity|].
  destruct (sklearn.cross_validate _ _ _ _ _ _) as [r|]; simpl; [apply IH | reflexivity].
Qed.

Lemma sweep_loop_keeps post mi (X : list (list Q)) y kf d (g : G) r (l : Q) :
  ~ InA Qeq l post ->
  Lasso.sweep_loop post mi X y kf d g = Some r ->
  dict.get (fst r) l = dict.get d l.
Proof.
  revert d g. induction post as [|l' post IH]; intros d g Hnot; simpl; intros Hr.
  - inversion Hr. reflexivity.
  - obind_inv Hr. rewrite (IH _ _ (fun Hin => Hnot (InA_cons_tl l' Hin)) Hr).
    apply get_set_other. destruct (Qeq_bool l' l) eqn:Hq; [|reflexivity].
    exfalso. apply Hnot. left. apply Qeq_sym. apply Qeq_bool_iff. exact Hq.
Qed.

End Dictionary.

(** X6: a candidate that occurs more than once in the grid is
    cross-validated every time, and the results dictionary keeps the
    cross-validation of its last occurrence: after the loop,
    [results_dict[l]] is what [cross_validate] returned at the last
    position of [l], from the generator state reached there. *)
Theorem sweep_loop_last_wins
  {G E : Type} `{np.RandomGen G} `{sklearn.Estimator G E}
  (pre post : list Q) (l : Q) (max_iter : nat) (X : list (list Q)) (y : list bool)
  (kf : sklearn.StratifiedKFold) (d : dict.t (sklearn.cv_results E)) (g : G) d' g' :
  Lasso.sweep_loop (pre ++ l :: post) max_iter X y kf d g = Some (d', g') ->
  ~ InA Qeq l post ->
  exists d1 g1 r,
    Lasso.sweep_loop pre max_iter X y kf d g = Some (d1, g1) /\
    sklearn.cross_validate (np.reciprocal l) max_iter X y kf g1 = Some r /\
    dict.get d' l = Some (fst r).
Proof.
  intros Hloop Hnot. rewrite sweep_loop_app in Hloop. obind_inv Hloop.
  destruct a as [d1 g1]. simpl in Hloop. obind_inv Hloop.
  exists d1, g1, a. split; [exact Ha|]. split; [exact Ha0|].
  pose proof (sweep_loop_keeps _ _ _ _ _ _ _ _ l Hnot Hloop) as Hkeep.
  simpl in Hkeep. rewrite Hkeep. apply get_set_same.
Qed.

Lemma sweep_loop_last_wins_witness :
  let X := Reference.toy_X 8 2 in
  let y := Reference.toy_y 8 in
  let kf := {| sklearn.n_splits := 2; sklearn.shuffle := true;
               sklearn.random_state_of := sklearn.rs_int 1 |} in
  exists d' g' d1 g1 r,
    Lasso.sweep_loop ([10#1; 1] ++ (10#1) :: [1#10])%Q 100 X y kf [] 0 = Some (d', g') /\
    ~ InA Qeq (10#1)%Q [1#10]%Q /\
    Lasso.sweep_loop [10#1; 1]%Q 100 X y kf [] 0 = Some (d1, g1) /\
    sklearn.cross_validate (np.reciprocal (10#1)) 100 X y kf g1 = Some r /\
    dict.get d' (10#1)%Q = Some (fst r).
Proof.
  intros X y kf.
  destruct (Lasso.sweep_loop ([10#1; 1] ++ (10#1) :: [1#10])%Q 100 X y kf [] 0)
    as [[d' g']|] eqn:Hs; [|vm_compute in Hs; discriminate].
  assert (Hnot : ~ InA Qeq (10#1)%Q [1#10]%Q).
  { intros Hin. inversion Hin as [? ? Hq|? ? Hq]; subst; [discriminate Hq | inversion Hq]. }
  destruct (sweep_loop_last_wins [10#1; 1]%Q [1#10]%Q (10#1)%Q 100 X y kf [] 0 d' g'
              Hs Hnot) as (d1 & g1 & r & H1 & H2 & H3).
  exists d', g', d1, g1, r. auto.
Defined.

(** ** Statistics of the non-zero counts *)

Lemma all_finite_map {A : Type} (f : A -> Q) (l : list A) :
  np.all_finite (map (fun e => Some (f e)) l) = Some (map f l).
Proof.
  induction l as [|e t IH]; simpl; [reflexivity|]. rewrite IH. reflexivity.
Qed.

Lemma sumQ_nonneg (l : list Q) : Forall (fun x => 0 <= x)%Q l -> (0 <= np.sumQ l)%Q.
Proof.
  induction 1 as [|x t Hx _ IH]; simpl; [apply Qle_refl|].
  rewrite <- (Qplus_0_l 0). apply Qplus_le_compat; assumption.
Qed.

Lemma Qsquare_nonneg (x : Q) : (0 <= x * x)%Q.
Proof.
  destruct (Qlt_le_dec x 0) as [Hneg|Hpos].
  - setoid_replace (x * x)%Q with ((- x) * (- x))%Q by ring.
    apply Qmult_le_0_compat; apply (Qopp_le_compat x 0); apply Qlt_le_weak; exact Hneg.
  - apply Qmult_le_0_compat; exact Hpos.
Qed.

Lemma mean_some {A : Type} (f : A -> Q) (l : list A) :
  l <> [] ->
  np.mean (map (fun e => Some (f e)) l)
  = Some (np.sumQ (map f l) / np.Qnat (length (map f l)))%Q.
Proof.
  intros Hne. unfold np.mean. rewrite all_finite_map. cbn [obind].
  destruct l as [|e t]; [congruence | reflexivity].
Qed.

(** Mean and sample variance of two or more finite values are defined
    and the variance is not negative. *)
Lemma mean_var_defined {A : Type} (f : A -> Q) (l : list A) :
  2 <= length l -> Forall (fun e => 0 <= f e)%Q l ->
  exists m v,
    np.mean (map (fun e => Some (f e)) l) = Some m /\
    np.var_ddof1 (map (fun e => Some (f e)) l) = Some v /\
    (0 <= m)%Q /\ (0 <= v)%Q.
Proof.
  intros Hlen Hpos.
  assert (Hne : l <> []) by (destruct l; [simpl in Hlen; lia | discriminate]).
  unfold np.var_ddof1. rewrite all_finite_map, (mean_some f l Hne). cbn [obind].
  rewrite length_map.
  destruct (length l) as [|[|n]] eqn:El; [lia | lia|].
  eexists. eexists. split; [reflexivity|]. split; [reflexivity|]. split.
  - apply Qle_shift_div_l; [apply Qnat_pos; lia|]. rewrite Qmult_0_l.
    apply sumQ_nonneg. apply Forall_map. exact Hpos.
  - apply Qle_shift_div_l; [apply Qnat_pos; lia|]. rewrite Qmult_0_l.
    apply sumQ_nonneg. apply Forall_map. apply Forall_forall.
    intros x _. apply Qsquare_nonneg.
Qed.

(** X7: in every sweep that returns, each row of the table has a defined
    mean and a defined sample variance of the number of non-zero
    coefficients, and neither is negative: the fold generator accepts only
    two folds or more, so [np.std(..., ddof=1)] always has two counts to
    work on. *)
Theorem sweep_nonzero_statistics
  {G E : Type} `{np.RandomGen G} `{sklearn.Estimator G E}
  (X : list (list Q)) (y : list bool) (k : nat) (lambda_vals : list Q)
  (max_iter : nat) (seed : Z) (g : G) d rows g' :
  Lasso.sweep X y k lambda_vals max_iter seed g = Some ((d, rows), g') ->
  Forall (fun row => exists m v,
            Lasso.mean_nonzero row = Some m /\ Lasso.var_nonzero row = Some v /\
            (0 <= m)%Q /\ (0 <= v)%Q) rows.
Proof.
  intros Hsw. apply sweep_inv in Hsw. destruct Hsw as (Hk & Hloop & Hagg).
  assert (Hd : Forall (fun kv : Q * sklearn.cv_results E =>
                         2 <= length (sklearn.estimator (snd kv))) d).
  { apply (sweep_loop_Forall (fun cv => 2 <= length (sklearn.estimator cv))
             lambda_vals max_iter X y
             {| sklearn.n_splits := k; sklearn.shuffle := true;
                sklearn.random_state_of := sklearn.rs_int seed |} [] g (d, g'));
      [|constructor | exact Hloop].
    intros C g0 r Hr. apply cross_validate_shape in Hr.
    destruct Hr as (_ & _ & He & _). rewrite He. exact Hk. }
  destruct (aggregate_metrics_some d) as (rows' & Hrows' & _ & Hall).
  rewrite Hagg in Hrows'. inversion Hrows'; subst rows'.
  eapply Forall_impl; [|exact Hall].
  intros row (cv & Hcv & ->). simpl.
  apply mean_var_defined.
  - apply in_map_iff in Hcv. destruct Hcv as (kv & <- & Hkv).
    rewrite Forall_forall in Hd. exact (Hd kv Hkv).
  - apply Forall_forall. intros e _. apply Qnat_nonneg.
Qed.

Lemma sweep_nonzero_statistics_witness :
  let X := Reference.toy_X 8 2 in
  let y := Reference.toy_y 8 in
  exists d rows g',
    Lasso.sweep X y 2 [10#1; 1]%Q 100 1%Z 0 = Some ((d, rows), g') /\
    Forall (fun row => exists m v,
              Lasso.mean_nonzero row = Some m /\ Lasso.var_nonzero row = Some v /\
              (0 <= m)%Q /\ (0 <= v)%Q) rows.
Proof.
  intros X y.
  destruct (Lasso.sweep X y 2 [10#1; 1]%Q 100 1%Z 0) as [[[d rows] g']|] eqn:Hs;
    [|vm_compute in Hs; discriminate].
  exists d, rows, g'. split; [reflexivity|].
  exact (sweep_nonzero_statistics X y 2 [10#1; 1]%Q 100 1%Z 0 d rows g' Hs).
Defined.

(** ** The split and the cross-validation together *)

Section Leakage.
Context {G E : Type} `{np.RandomGen G} `{@sklearn.ApproximateMode G}
        `{sklearn.Estimator G E}.

Lemma take_length {A : Type} (a : list A) (idx : list nat) (r : list A) :
  np.take a idx = Some r -> length r = length idx.
Proof. intros Ht. apply take_inv in Ht. symmetry. exact (Forall2_length Ht). Qed.

Lemma take_nth_error {A : Type} (a : list A) (idx : list nat) (r : list A) (j i : nat) :
  np.take a idx = Some r -> nth_error idx j = Some i ->
  nth_error r j = nth_error a i.
Proof.
  intros Ht. apply take_inv in Ht. revert j.
  induction Ht as [|i0 v idx' r' Hiv _ IH]; intros [|j]; simpl; try discriminate.
  - intros Hi. inversion Hi; subst. symmetry. exact Hiv.
  - apply IH.
Qed.

End Leakage.

(** X9: the cross-validation of the sweep never sees a holdout row.  When
    the sweep runs on the training part of the split, as in Step 2 and
    Step 3, every train and test index of every fold of every candidate
    is a position [j] of the training set, and the row there is the row
    of the full data set at [train_index[j]], which is not a holdout
    index. *)
Theorem cross_validation_stays_in_training
  {G E : Type} `{np.RandomGen G} `{@sklearn.ApproximateMode G} `{sklearn.Estimator G E}
  (X : list (list Q)) (y : list bool) (test_size : Q) (seed : Z) (g : G)
  (sp : sklearn.split_data) (g1 : G)
  (k : nat) (lambda_vals : list Q) (max_iter : nat) d rows (g2 : G) :
  sklearn.train_test_split X y test_size (sklearn.rs_int seed) g = Some (sp, g1) ->
  Lasso.sweep (sklearn.X_train sp) (sklearn.y_train sp) k lambda_vals max_iter seed g1
  = Some ((d, rows), g2) ->
  forall l cv fold j,
    In (l, cv) d -> In fold (sklearn.indices cv) ->
    In j (fst fold) \/ In j (snd fold) ->
    exists i,
      nth_error (sklearn.train_index sp) j = Some i /\
      ~ In i (sklearn.holdout_index sp) /\
      nth_error (sklearn.X_train sp) j = nth_error X i /\
      nth_error (sklearn.y_train sp) j = nth_error y i.
Proof.
  intros Hsp Hsw l cv fold j Hcv Hfold Hj.
  destruct (train_test_split_inv X y test_size _ g sp g1 Hsp)
    as (Hd & HXt & Hyt & _ & _).
  apply sweep_inv in Hsw. destruct Hsw as (Hk & Hloop & _).
  assert (Hall : Forall (fun kv : Q * sklearn.cv_results E =>
            exists tf, sklearn.indices (snd kv) = sklearn.folds_of k tf /\
                       length tf = length (sklearn.y_train sp)) d).
  { apply (sweep_loop_Forall
             (fun cv => exists tf, sklearn.indices cv = sklearn.folds_of k tf /\
                                   length tf = length (sklearn.y_train sp))
             lambda_vals max_iter (sklearn.X_train sp) (sklearn.y_train sp)
             {| sklearn.n_splits := k; sklearn.shuffle := true;
                sklearn.random_state_of := sklearn.rs_int seed |} [] g1 (d, g2));
      [|constructor | exact Hloop].
    intros C g0 r Hr. apply cross_validate_shape in Hr.
    destruct Hr as (_ & _ & _ & g3 & tf & Htf & Hi).
    exists (fst tf). split; [exact Hi|].
    exact (make_test_folds_length _ _ _ _ Htf). }
  rewrite Forall_forall in Hall. destruct (Hall (l, cv) Hcv) as (tf & Hi & Hlen).
  simpl in Hi. rewrite Hi in Hfold. apply folds_of_bound in Hfold.
  destruct Hfold as [Htr Hte]. rewrite Forall_forall in Htr, Hte.
  assert (Hjn : j < length (sklearn.train_index sp)).
  { rewrite <- (take_length _ _ _ Hyt), <- Hlen.
    destruct Hj as [Hj|Hj]; [apply Htr | apply Hte]; exact Hj. }
  destruct (nth_error (sklearn.train_index sp) j) as [i|] eqn:Hi';
    [|apply nth_error_None in Hi'; lia].
  exists i. split; [reflexivity|]. split.
  - apply Hd. eapply nth_error_In. exact Hi'.
  - split; [exact (take_nth_error _ _ _ _ _ HXt Hi')
           | exact (take_nth_error _ _ _ _ _ Hyt Hi')].
Qed.

Lemma cross_validation_stays_in_training_witness :
  let X := Reference.toy_X 20 2 in
  let y := Reference.toy_y 20 in
  exists sp g1 d rows g2,
    sklearn.train_test_split X y (1#5) (sklearn.rs_int 1) 0 = Some (sp, g1) /\
    Lasso.sweep (sklearn.X_train sp) (sklearn.y_train sp) 2 [10#1; 1]%Q 100 1%Z g1
    = Some ((d, rows), g2) /\
    forall l cv fold j,
      In (l, cv) d -> In fold (sklearn.indices cv) ->
      In j (fst fold) \/ In j (snd fold) ->
      exists i,
        nth_error (sklearn.train_index sp) j = Some i /\
        ~ In i (sklearn.holdout_index sp) /\
        nth_error (sklearn.X_train sp) j = nth_error X i /\
        nth_error (sklearn.y_train sp) j = nth_error y i.
Proof.
  intros X y.
  destruct (sklearn.train_test_split X y (1#5) (sklearn.rs_int 1) 0)
    as [[sp g1]|] eqn:Hsp; [|vm_compute in Hsp; discriminate].
  destruct (Lasso.sweep (sklearn.X_train sp) (sklearn.y_train sp) 2 [10#1; 1]%Q 100 1%Z g1)
    as [[[d rows] g2]|] eqn:Hsw.
  - exists sp, g1, d, rows, g2. split; [reflexivity|]. split; [exact Hsw|].
    exact (cross_validation_stays_in_training X y (1#5) 1%Z 0 sp g1 2 [10#1; 1]%Q 100
             d rows g2 Hsp Hsw).
  - exfalso. vm_compute in Hsp. inversion Hsp; subst sp g1.
    vm_compute in Hsw. discriminate.
Defined.

(** ** Properties of the two metrics *)

Lemma pair_credit_monotone (f : Q -> Q) (a b : Q) :
  (forall u v, (u <= v)%Q <-> (f u <= f v)%Q) ->
  sklearn.pair_credit (f a) (f b) = sklearn.pair_credit a b.
Proof.
  intros Hf. unfold sklearn.pair_credit.
  assert (Hle : forall u v, Qle_bool (f u) (f v) = Qle_bool u v).
  { intros u v. destruct (Qle_bool u v) eqn:Huv.
    - apply Qle_bool_iff. apply (proj1 (Hf u v)). apply Qle_bool_iff. exact Huv.
    - destruct (Qle_bool (f u) (f v)) eqn:Hfuv; [|reflexivity].
      apply Qle_bool_iff in Hfuv. apply (proj2 (Hf u v)) in Hfuv.
      apply Qle_bool_iff in Hfuv. congruence. }
  rewrite !Hle. reflexivity.
Qed.

Lemma scores_of_class (g : bool -> bool) (f : Q -> Q)
  (y_true : list bool) (y_score : list Q) :
  map snd (filter (fun p => g (fst p)) (combine y_true (map f y_score)))
  = map f (map snd (filter (fun p => g (fst p)) (combine y_true y_score))).
Proof.
  revert y_score. induction y_true as [|t yt IH]; intros [|s ys]; simpl;
    try reflexivity.
  destruct (g t); simpl; rewrite IH; reflexivity.
Qed.

(** X10: the AUROC depends on the scores only through their order: a
    strictly increasing transformation of the scores leaves it unchanged.
    So the cross-validation scorer, which ranks by [decision_function],
    and the holdout cell, which ranks by [predict_proba], measure the
    same thing whenever the probability is an increasing function of the
    decision value. *)
Theorem roc_auc_rank_invariant (f : Q -> Q) (y_true : list bool) (y_score : list Q) :
  (forall u v, (u <= v)%Q <-> (f u <= f v)%Q) ->
  sklearn.roc_auc_score y_true (map f y_score) = sklearn.roc_auc_score y_true y_score.
Proof.
  intros Hf. unfold sklearn.roc_auc_score.
  assert (Hpos : map snd (filter (fun p => fst p) (combine y_true (map f y_score)))
                 = map f (map snd (filter (fun p => fst p) (combine y_true y_score))))
    by exact (scores_of_class (fun b => b) f y_true y_score).
  assert (Hneg : map snd (filter (fun p => negb (fst p)) (combine y_true (map f y_score)))
                 = map f (map snd (filter (fun p => negb (fst p))
                                     (combine y_true y_score))))
    by exact (scores_of_class negb f y_true y_score).
  rewrite Hpos, Hneg.
  generalize (map snd (filter (fun p => fst p) (combine y_true y_score))).
  generalize (map snd (filter (fun p => negb (fst p)) (combine y_true y_score))).
  intros neg pos.
  assert (H2 : map (fun sp => np.sumQ (map (sklearn.pair_credit sp) (map f neg)))
                 (map f pos)
               = map (fun sp => np.sumQ (map (sklearn.pair_credit sp) neg)) pos).
  { rewrite map_map. apply map_ext. intros sp. rewrite map_map. f_equal.
    apply map_ext. intros sn. apply pair_credit_monotone. exact Hf. }
  rewrite H2, !length_map.
  destruct pos as [|p0 pos']; [reflexivity|].
  destruct neg as [|n0 neg']; reflexivity.
Qed.

Lemma roc_auc_rank_invariant_witness :
  let f := fun x : Q => ((2#1) * x + 1)%Q in
  (forall u v, (u <= v)%Q <-> (f u <= f v)%Q) /\
  sklearn.roc_auc_score [true; false; true; false] (map f [3#4; 1#4; 1#3; 1#2]%Q)
  = sklearn.roc_auc_score [true; false; true; false] [3#4; 1#4; 1#3; 1#2]%Q.
Proof.
  intros f.
  assert (Hf : forall u v, (u <= v)%Q <-> (f u <= f v)%Q)
    by (intros u v; unfold f; split; intros Huv; lra).
  split; [exact Hf|].
  exact (roc_auc_rank_invariant f [true; false; true; false] [3#4; 1#4; 1#3; 1#2]%Q Hf).
Defined.

(** *** Balanced accuracy *)

Lemma hits_cons (c t p : bool) (yt yp : list bool) :
  hits c (t :: yt) (p :: yp)
  = (if Bool.eqb t c && Bool.eqb p c then 1 else 0) + hits c yt yp.
Proof. unfold hits. simpl. destruct (Bool.eqb t c && Bool.eqb p c); reflexivity. Qed.

Lemma count_cons (c t : bool) (yt : list bool) :
  sklearn.count c (t :: yt) = (if Bool.eqb t c then 1 else 0) + sklearn.count c yt.
Proof. unfold sklearn.count. simpl. destruct t, c; simpl; reflexivity. Qed.

Lemma hits_self (c : bool) (y : list bool) : hits c y y = sklearn.count c y.
Proof.
  induction y as [|t y IH]; [reflexivity|].
  rewrite hits_cons, count_cons, IH. destruct t, c; reflexivity.
Qed.

Lemma hits_constant (c k : bool) (y_true y_pred : list bool) :
  length y_pred = length y_true -> Forall (fun p => p = k) y_pred ->
  hits c y_true y_pred = if Bool.eqb c k then sklearn.count c y_true else 0.
Proof.
  revert y_pred. induction y_true as [|t yt IH]; intros [|p yp] Hl Hk;
    simpl in Hl; try discriminate.
  - destruct (Bool.eqb c k); reflexivity.
  - inversion Hk; subst. rewrite hits_cons, count_cons, (IH yp) by (auto; lia).
    destruct t, c, k; reflexivity.
Qed.

Lemma hits_all (y_true y_pred : list bool) :
  length y_pred = length y_true ->
  hits true y_true y_pred = sklearn.count true y_true ->
  hits false y_true y_pred = sklearn.count false y_true ->
  y_pred = y_true.
Proof.
  revert y_pred. induction y_true as [|t yt IH]; intros [|p yp] Hl Ht Hf;
    simpl in Hl; try discriminate; [reflexivity|].
  rewrite hits_cons, count_cons in Ht, Hf.
  pose proof (recall_hits_le true yt yp) as Hlt.
  pose proof (recall_hits_le false yt yp) as Hlf.
  fold (hits true yt yp) in Hlt. fold (hits false yt yp) in Hlf.
  destruct t, p; simpl in Ht, Hf; try lia;
    (f_equal; apply IH; lia).
Qed.

Lemma Qnat_ratio_one (h n : nat) :
  0 < n -> h <= n -> (np.Qnat h / np.Qnat n == 1)%Q -> h = n.
Proof.
  intros Hn Hle Hq.
  assert (Hpos : (0 < np.Qnat n)%Q) by (apply Qnat_pos; exact Hn).
  assert (Heq : (np.Qnat h == np.Qnat n)%Q).
  { rewrite <- (Qmult_1_l (np.Qnat n)), <- Hq. field. lra. }
  unfold np.Qnat, Qeq in Heq. simpl in Heq. lia.
Qed.

(** X11: the balanced accuracy of predictions against labels of both
    classes is 1 exactly when every prediction is right, and it is 1/2
    whenever all predictions are the same class, whatever the class
    proportions. *)
Theorem balanced_accuracy_extremes (y_true y_pred : list bool) :
  length y_pred = length y_true -> In true y_true -> In false y_true ->
  exists b,
    sklearn.balanced_accuracy_score y_true y_pred = Some b /\
    ((b == 1)%Q <-> y_pred = y_true) /\
    (forall k, Forall (fun p => p = k) y_pred -> (b == 1#2)%Q).
Proof.
  intros Hl Ht Hf.
  apply (count_occ_In bool_dec) in Ht. apply (count_occ_In bool_dec) in Hf.
  fold (sklearn.count true y_true) in Ht. fold (sklearn.count false y_true) in Hf.
  unfold sklearn.balanced_accuracy_score.
  destruct (sklearn.count true y_true) as [|nt] eqn:Et; [lia|].
  destruct (sklearn.count false y_true) as [|nf] eqn:Ef; [lia|].
  eexists. split; [reflexivity|].
  unfold sklearn.recall. fold (hits true y_true y_pred) (hits false y_true y_pred).
  rewrite Et, Ef.
  pose proof (recall_hits_le true y_true y_pred) as Hlt.
  pose proof (recall_hits_le false y_true y_pred) as Hlf.
  fold (hits true y_true y_pred) in Hlt. fold (hits false y_true y_pred) in Hlf.
  rewrite Et in Hlt. rewrite Ef in Hlf.
  assert (Hpt : (0 < np.Qnat (S nt))%Q) by (apply Qnat_pos; lia).
  assert (Hpf : (0 < np.Qnat (S nf))%Q) by (apply Qnat_pos; lia).
  destruct (ratio_unit _ _ Hlt ltac:(lia)) as [Ht0 Ht1].
  destruct (ratio_unit _ _ Hlf ltac:(lia)) as [Hf0 Hf1].
  split; [split|].
  - intros Hb.
    assert (H1 : (np.Qnat (hits true y_true y_pred) / np.Qnat (S nt) == 1)%Q).
    { revert Hb Ht1 Hf1.
      generalize (np.Qnat (hits true y_true y_pred) / np.Qnat (S nt))%Q.
      generalize (np.Qnat (hits false y_true y_pred) / np.Qnat (S nf))%Q.
      intros rf rt Hb Ht1 Hf1.
      assert (Hs : (rt + rf == (2#1))%Q).
      { setoid_replace (rt + rf)%Q with (((rt + rf) / (2#1)) * (2#1))%Q by field.
        rewrite Hb. reflexivity. }
      lra. }
    assert (H0 : (np.Qnat (hits false y_true y_pred) / np.Qnat (S nf) == 1)%Q).
    { revert Hb Ht1 Hf1.
      generalize (np.Qnat (hits true y_true y_pred) / np.Qnat (S nt))%Q.
      generalize (np.Qnat (hits false y_true y_pred) / np.Qnat (S nf))%Q.
      intros rf rt Hb Ht1 Hf1.
      assert (Hs : (rt + rf == (2#1))%Q).
      { setoid_replace (rt + rf)%Q with (((rt + rf) / (2#1)) * (2#1))%Q by field.
        rewrite Hb. reflexivity. }
      lra. }
    apply hits_all; [exact Hl | |].
    + rewrite Et. apply Qnat_ratio_one; [lia | exact Hlt | exact H1].
    + rewrite Ef. apply Qnat_ratio_one; [lia | exact Hlf | exact H0].
  - intros ->. rewrite !hits_self, Et, Ef. field. lra.
  - intros k Hk.
    rewrite (hits_constant true k y_true y_pred Hl Hk),
            (hits_constant false k y_true y_pred Hl Hk), Et, Ef.
    revert Hpt Hpf.
    destruct k; cbn [Bool.eqb]; change (np.Qnat 0) with 0%Q;
      generalize (np.Qnat (S nt)), (np.Qnat (S nf)); intros qt qf Hpt Hpf;
      field; lra.
Qed.

Lemma balanced_accuracy_extremes_witness :
  let y_true := [true; false; false; true; false] in
  let y_pred := [true; true; true; true; true] in
  (length y_pred = length y_true /\ In true y_true /\ In false y_true) /\
  exists b,
    sklearn.balanced_accuracy_score y_true y_pred = Some b /\
    ((b == 1)%Q <-> y_pred = y_true) /\
    (forall k, Forall (fun p => p = k) y_pred -> (b == 1#2)%Q).
Proof.
  intros y_true y_pred.
  assert (Hl : length y_pred = length y_true) by reflexivity.
  assert (Ht : In true y_true) by (left; reflexivity).
  assert (Hf : In false y_true) by (right; left; reflexivity).
  split; [auto|].
  exact (balanced_accuracy_extremes y_true y_pred Hl Ht Hf).
Defined.

(** *** Area under the ROC curve *)

Lemma sumQ_constant (c : Q) (l : list Q) :
  Forall (fun x => x == c)%Q l -> (np.sumQ l == np.Qnat (length l) * c)%Q.
Proof.
  induction 1 as [|x t Hx _ IH]; simpl.
  - change (np.Qnat 0) with 0%Q. ring.
  - rewrite Hx, IH, Qnat_S. ring.
Qed.

Lemma class_score_position (b : bool) (y_true : list bool) (y_score : list Q) (s : Q) :
  In s (map snd (filter (fun p => Bool.eqb (fst p) b) (combine y_true y_score))) ->
  exists i, nth_error y_true i = Some b /\ nth_error y_score i = Some s.
Proof.
  intros Hs. apply in_map_iff in Hs. destruct Hs as ([b' s'] & Hs' & Hin).
  simpl in Hs'. subst s'. apply filter_In in Hin. destruct Hin as [Hin Hb].
  simpl in Hb. apply eqb_prop in Hb. subst b'.
  apply In_nth_error in Hin. destruct Hin as [i Hi].
  exists i. apply nth_error_combine. exact Hi.
Qed.

Lemma roc_auc_uniform (c : Q) (y_true : list bool) (y_score : list Q) :
  length y_score = length y_true -> In true y_true -> In false y_true ->
  (forall i j si sj,
      nth_error y_true i = Some true -> nth_error y_true j = Some false ->
      nth_error y_score i = Some si -> nth_error y_score j = Some sj ->
      sklearn.pair_credit si sj = c) ->
  exists a, sklearn.roc_auc_score y_true y_score = Some a /\ (a == c)%Q.
Proof.
  intros Hl Ht Hf Hc.
  destruct (roc_auc_unit y_true y_score Hl Ht Hf) as (a & Ha & _).
  exists a. split; [exact Ha|].
  unfold sklearn.roc_auc_score in Ha.
  assert (Hpos : forall s,
             In s (map snd (filter (fun p => fst p) (combine y_true y_score))) ->
             exists i, nth_error y_true i = Some true /\ nth_error y_score i = Some s).
  { intros s Hs. apply (class_score_position true).
    erewrite filter_ext; [exact Hs|]. intros [[|] ?]; reflexivity. }
  assert (Hneg : forall s,
             In s (map snd (filter (fun p => negb (fst p)) (combine y_true y_score))) ->
             exists i, nth_error y_true i = Some false /\ nth_error y_score i = Some s).
  { intros s Hs. apply (class_score_position false).
    erewrite filter_ext; [exact Hs|]. intros [[|] ?]; reflexivity. }
  revert Ha Hpos Hneg.
  generalize (map snd (filter (fun p => fst p) (combine y_true y_score))).
  generalize (map snd (filter (fun p => negb (fst p)) (combine y_true y_score))).
  intros neg pos Ha Hpos Hneg.
  assert (Hsum : (np.sumQ (map (fun sp => np.sumQ (map (sklearn.pair_credit sp) neg)) pos)
                  == np.Qnat (length pos) * (np.Qnat (length neg) * c))%Q).
  { rewrite (sumQ_constant (np.Qnat (length neg) * c)).
    - rewrite length_map. reflexivity.
    - apply Forall_forall. intros x Hx. apply in_map_iff in Hx.
      destruct Hx as (sp & <- & Hsp).
      destruct (Hpos sp Hsp) as (i & Hi & Hsi).
      assert (Hinner : map (sklearn.pair_credit sp) neg = map (fun _ => c) neg).
      { apply map_ext_in. intros sn Hsn.
        destruct (Hneg sn Hsn) as (j & Hj & Hsj).
        exact (Hc i j sp sn Hi Hj Hsi Hsj). }
      rewrite Hinner, (sumQ_constant c).
      + rewrite length_map. reflexivity.
      + apply Forall_forall. intros x Hx. apply in_map_iff in Hx.
        destruct Hx as (? & <- & _). reflexivity. }
  destruct pos as [|p0 pos'] eqn:Ep; [discriminate|].
  destruct neg as [|n0 neg'] eqn:En; [discriminate|].
  rewrite <- Ep, <- En in *. inversion Ha; subst a. rewrite Hsum.
  assert (Hp : (0 < np.Qnat (length pos))%Q) by (apply Qnat_pos; rewrite Ep; simpl; lia).
  assert (Hn : (0 < np.Qnat (length neg))%Q) by (apply Qnat_pos; rewrite En; simpl; lia).
  field. lra.
Qed.

Lemma pair_credit_above (sp sn : Q) : (sn < sp)%Q -> sklearn.pair_credit sp sn = 1%Q.
Proof.
  intros Hlt. unfold sklearn.pair_credit.
  destruct (Qle_bool sp sn) eqn:Hle; [|reflexivity].
  apply Qle_bool_iff in Hle. lra.
Qed.

Lemma pair_credit_below (sp sn : Q) : (sp < sn)%Q -> sklearn.pair_credit sp sn = 0%Q.
Proof.
  intros Hlt. unfold sklearn.pair_credit.
  assert (H1 : Qle_bool sp sn = true) by (apply Qle_bool_iff; lra).
  rewrite H1. destruct (Qle_bool sn sp) eqn:Hle; [|reflexivity].
  apply Qle_bool_iff in Hle. lra.
Qed.

Lemma pair_credit_tie (sp sn : Q) : (sp == sn)%Q -> sklearn.pair_credit sp sn = (1#2)%Q.
Proof.
  intros Heq. unfold sklearn.pair_credit.
  assert (H1 : Qle_bool sp sn = true) by (apply Qle_bool_iff; lra).
  assert (H2 : Qle_bool sn sp = true) by (apply Qle_bool_iff; lra).
  rewrite H1, H2. reflexivity.
Qed.

(** X12: the AUROC of scores against labels of both classes is 1 when
    every sample of class 1 scores above every sample of class 0, it is
    0 when every one scores below, and it is 1/2 when every pair ties, as
    for a model that gives all samples the same score. *)
Theorem roc_auc_extremes (y_true : list bool) (y_score : list Q) :
  length y_score = length y_true -> In true y_true -> In false y_true ->
  exists a,
    sklearn.roc_auc_score y_true y_score = Some a /\
    ((forall i j si sj,
         nth_error y_true i = Some true -> nth_error y_true j = Some false ->
         nth_error y_score i = Some si -> nth_error y_score j = Some sj ->
         (sj < si)%Q) -> (a == 1)%Q) /\
    ((forall i j si sj,
         nth_error y_true i = Some true -> nth_error y_true j = Some false ->
         nth_error y_score i = Some si -> nth_error y_score j = Some sj ->
         (si < sj)%Q) -> (a == 0)%Q) /\
    ((forall i j si sj,
         nth_error y_true i = Some true -> nth_error y_true j = Some false ->
         nth_error y_score i = Some si -> nth_error y_score j = Some sj ->
         (si == sj)%Q) -> (a == 1#2)%Q).
Proof.
  intros Hl Ht Hf.
  destruct (roc_auc_unit y_true y_score Hl Ht Hf) as (a & Ha & _).
  exists a. split; [exact Ha|].
  split; [|split]; intros Hc.
  - destruct (roc_auc_uniform 1 y_true y_score Hl Ht Hf) as (a' & Ha' & Heq).
    + intros i j si sj Hi Hj Hsi Hsj. apply pair_credit_above. eauto.
    + rewrite Ha in Ha'. inversion Ha'; subst a'. exact Heq.
  - destruct (roc_auc_uniform 0 y_true y_score Hl Ht Hf) as (a' & Ha' & Heq).
    + intros i j si sj Hi Hj Hsi Hsj. apply pair_credit_below. eauto.
    + rewrite Ha in Ha'. inversion Ha'; subst a'. exact Heq.
  - destruct (roc_auc_uniform (1#2) y_true y_score Hl Ht Hf) as (a' & Ha' & Heq).
    + intros i j si sj Hi Hj Hsi Hsj. apply pair_credit_tie. eauto.
    + rewrite Ha in Ha'. inversion Ha'; subst a'. exact Heq.
Qed.

Lemma roc_auc_extremes_witness :
  let y_true := [true; false; false; true; false] in
  let y_score := [3#4; 3#4; 3#4; 3#4; 3#4]%Q in
  (length y_score = length y_true /\ In true y_true /\ In false y_true) /\
  exists a,
    sklearn.roc_auc_score y_true y_score = Some a /\
    ((forall i j si sj,
         nth_error y_true i = Some true -> nth_error y_true j = Some false ->
         nth_error y_score i = Some si -> nth_error y_score j = Some sj ->
         (sj < si)%Q) -> (a == 1)%Q) /\
    ((forall i j si sj,
         nth_error y_true i = Some true -> nth_error y_true j = Some false ->
         nth_error y_score i = Some si -> nth_error y_score j = Some sj ->
         (si < sj)%Q) -> (a == 0)%Q) /\
    ((forall i j si sj,
         nth_error y_true i = Some true -> nth_error y_true j = Some false ->
         nth_error y_score i = Some si -> nth_error y_score j = Some sj ->
         (si == sj)%Q) -> (a == 1#2)%Q).
Proof.
  intros y_true y_score.
  assert (Hl : length y_score = length y_true) by reflexivity.
  assert (Ht : In true y_true) by (left; reflexivity).
  assert (Hf : In false y_true) by (right; left; reflexivity).
  split; [auto|].
  exact (roc_auc_extremes y_true y_score Hl Ht Hf).
Defined.

(** ** Benjamini-Hochberg correction, further properties *)

(** *** Running minima from the right *)

Lemma last_default {A : Type} (l : list A) (d d' : A) :
  l <> [] -> last l d = last l d'.
Proof.
  induction l as [|x t IH]; [congruence|]. intros _.
  destruct t as [|y t']; [reflexivity|]. simpl in *. apply IH. discriminate.
Qed.

Lemma minimum_accumulate_from_snoc (m : Q) (l : list Q) (x : Q) :
  statsmodels.minimum_accumulate_from m (l ++ [x])
  = statsmodels.minimum_accumulate_from m l
    ++ [statsmodels.minimum (last (statsmodels.minimum_accumulate_from m l) m) x].
Proof.
  revert m. induction l as [|y t IH]; intros m; simpl; [reflexivity|].
  rewrite IH. f_equal. f_equal. f_equal. f_equal.
  destruct (statsmodels.minimum_accumulate_from (statsmodels.minimum m y) t) eqn:Et;
    [reflexivity|].
  apply last_default. discriminate.
Qed.

Lemma minimum_accumulate_snoc (l : list Q) (x : Q) :
  statsmodels.minimum_accumulate (l ++ [x])
  = match l with
    | [] => [x]
    | _ => statsmodels.minimum_accumulate l
           ++ [statsmodels.minimum (last (statsmodels.minimum_accumulate l) 0%Q) x]
    end.
Proof.
  destruct l as [|y t]; [reflexivity|]. simpl.
  rewrite minimum_accumulate_from_snoc. f_equal. f_equal. f_equal. f_equal.
  destruct (statsmodels.minimum_accumulate_from y t) eqn:Et; [reflexivity|].
  apply last_default. discriminate.
Qed.

Lemma last_rev_hd {A : Type} (d : A) (l : list A) : last l d = hd d (rev l).
Proof.
  induction l as [|x t IH] using rev_ind; [reflexivity|].
  rewrite last_last, rev_app_distr. reflexivity.
Qed.

(** The minima accumulated from the right, as [fdrcorrection] computes
    them: the first one is the smaller of the first value and the next
    minimum. *)
Lemma suffix_minima_cons (x : Q) (t : list Q) :
  rev (statsmodels.minimum_accumulate (rev (x :: t)))
  = match t with
    | [] => [x]
    | _ => statsmodels.minimum
             (hd 0%Q (rev (statsmodels.minimum_accumulate (rev t)))) x
           :: rev (statsmodels.minimum_accumulate (rev t))
    end.
Proof.
  simpl rev at 2. rewrite minimum_accumulate_snoc.
  destruct t as [|y t']; [reflexivity|].
  destruct (rev (y :: t')) as [|z r] eqn:Er.
  { apply (f_equal (@length Q)) in Er. rewrite length_rev in Er. discriminate. }
  set (M := statsmodels.minimum_accumulate (z :: r)).
  rewrite rev_unit, last_rev_hd. reflexivity.
Qed.

Lemma suffix_minima_length (a : list Q) :
  length (rev (statsmodels.minimum_accumulate (rev a))) = length a.
Proof.
  rewrite length_rev.
  assert (H : forall l, length (statsmodels.minimum_accumulate l) = length l).
  { intros [|x t]; [reflexivity|]. simpl. f_equal.
    generalize x. induction t as [|y t IH]; intros m; simpl; [reflexivity|].
    rewrite IH. reflexivity. }
  rewrite H, length_rev. reflexivity.
Qed.

Lemma minimum_le_l (a b : Q) : (statsmodels.minimum a b <= a)%Q.
Proof.
  unfold statsmodels.minimum. destruct (Qle_bool a b) eqn:H; [apply Qle_refl|].
  destruct (Qlt_le_dec a b) as [Hlt|Hle]; [|exact Hle].
  assert (Hab : Qle_bool a b = true) by (apply Qle_bool_iff; lra). congruence.
Qed.

Lemma minimum_le_r (a b : Q) : (statsmodels.minimum a b <= b)%Q.
Proof.
  unfold statsmodels.minimum. destruct (Qle_bool a b) eqn:H; [|apply Qle_refl].
  apply Qle_bool_iff. exact H.
Qed.

(** They ascend, lie below the data, and lie above every common lower
    bound of the data. *)
Lemma suffix_minima_sorted (a : list Q) :
  StronglySorted Qle (rev (statsmodels.minimum_accumulate (rev a))).
Proof.
  induction a as [|x t IH]; [constructor|].
  rewrite suffix_minima_cons. destruct t as [|y t']; [repeat constructor|].
  destruct (rev (statsmodels.minimum_accumulate (rev (y :: t')))) as [|m r] eqn:Er.
  { repeat constructor. }
  simpl hd. constructor; [exact IH|].
  inversion IH as [|? ? Hs Hall]; subst.
  constructor; [apply minimum_le_l|].
  eapply Forall_impl; [|exact Hall]. intros z Hz.
  eapply Qle_trans; [apply minimum_le_l | exact Hz].
Qed.

Lemma suffix_minima_below (a : list Q) :
  Forall2 Qle (rev (statsmodels.minimum_accumulate (rev a))) a.
Proof.
  induction a as [|x t IH]; [constructor|].
  rewrite suffix_minima_cons. destruct t as [|y t']; [repeat constructor; apply Qle_refl|].
  constructor; [apply minimum_le_r | exact IH].
Qed.

Lemma suffix_minima_bound (lo : Q) (a : list Q) :
  Forall (fun x => lo <= x)%Q a ->
  Forall (fun x => lo <= x)%Q (rev (statsmodels.minimum_accumulate (rev a))).
Proof.
  induction 1 as [|x t Hx Ht IH]; [constructor|].
  rewrite suffix_minima_cons. destruct t as [|y t']; [repeat constructor; exact Hx|].
  constructor; [|exact IH].
  apply minimum_glb; [|exact Hx].
  destruct (rev (statsmodels.minimum_accumulate (rev (y :: t')))) as [|m r] eqn:Er.
  - pose proof (suffix_minima_length (y :: t')) as Hl. rewrite Er in Hl. discriminate.
  - inversion IH; assumption.
Qed.

(** The minimum at position [k] lies above every lower bound of the data
    from position [k] on. *)
Lemma suffix_minima_bound_from (lo : Q) (a : list Q) (k : nat) :
  k < length a ->
  (forall m, k <= m -> m < length a -> (lo <= nth m a 0)%Q) ->
  (lo <= nth k (rev (statsmodels.minimum_accumulate (rev a))) 0)%Q.
Proof.
  revert k. induction a as [|x t IH]; intros k Hk Hlo; [simpl in Hk; lia|].
  destruct k as [|k].
  - assert (Hall : Forall (fun z => lo <= z)%Q (x :: t)).
    { apply Forall_forall. intros z Hz. apply (In_nth _ _ 0%Q) in Hz.
      destruct Hz as (m & Hm & <-). apply Hlo; [lia | exact Hm]. }
    apply suffix_minima_bound in Hall.
    destruct (rev (statsmodels.minimum_accumulate (rev (x :: t)))) as [|m r] eqn:Er.
    + pose proof (suffix_minima_length (x :: t)) as Hl. rewrite Er in Hl. discriminate.
    + inversion Hall; assumption.
  - rewrite suffix_minima_cons. destruct t as [|y t']; [simpl in Hk; lia|].
    cbn [nth]. apply IH; [simpl in *; lia|].
    intros m Hkm Hm. apply (Hlo (S m)); simpl in *; lia.
Qed.

(** *** The correction seen in sorted order *)

Lemma clip_le_one (p : Q) : (clip p <= 1)%Q.
Proof.
  unfold clip. destruct (statsmodels.Qltb 1 p) eqn:H; [apply Qle_refl|].
  destruct (Qlt_le_dec 1 p) as [Hlt|Hle]; [|exact Hle].
  apply Qltb_lt in Hlt. congruence.
Qed.

Lemma clip_nonneg (p : Q) : (0 <= p)%Q -> (0 <= clip p)%Q.
Proof. unfold clip. destruct (statsmodels.Qltb 1 p); [discriminate | auto]. Qed.

Lemma clip_mono (p q : Q) : (p <= q)%Q -> (clip p <= clip q)%Q.
Proof.
  intros Hpq. unfold clip.
  destruct (statsmodels.Qltb 1 p) eqn:Hp, (statsmodels.Qltb 1 q) eqn:Hq.
  - apply Qle_refl.
  - apply Qltb_lt in Hp.
    destruct (Qlt_le_dec 1 q) as [Hlt|Hle]; [apply Qltb_lt in Hlt; congruence | lra].
  - destruct (Qlt_le_dec 1 p) as [Hlt|Hle]; [apply Qltb_lt in Hlt; congruence | exact Hle].
  - exact Hpq.
Qed.

Lemma clip_one_nth (l : list Q) (k : nat) :
  k < length l -> nth k (statsmodels.clip_one l) 0%Q = clip (nth k l 0%Q).
Proof.
  intros Hk. unfold statsmodels.clip_one.
  exact (nth_map_lt (fun p => if statsmodels.Qltb 1 p then 1%Q else p) 0%Q 0%Q l k Hk).
Qed.

Lemma clip_one_length (l : list Q) : length (statsmodels.clip_one l) = length l.
Proof. apply length_map. Qed.

(** The uncorrected quotients [p / ecdf] of the sorted p-values. *)
Lemma raw_nth (ps : list Q) (k : nat) :
  k < length ps ->
  nth k (map (fun pe => (fst pe / snd pe)%Q)
           (combine ps (statsmodels.ecdf (length ps)))) 0%Q
  = (nth k ps 0 / (np.Qnat (S k) / np.Qnat (length ps)))%Q.
Proof.
  intros Hk.
  assert (He : length (statsmodels.ecdf (length ps)) = length ps).
  { unfold statsmodels.ecdf. rewrite length_map, length_seq. reflexivity. }
  rewrite (nth_map_lt (fun pe : Q * Q => (fst pe / snd pe)%Q) 0%Q (0%Q, 0%Q))
    by (rewrite length_combine, He; lia).
  rewrite combine_nth by (symmetry; exact He). simpl.
  unfold statsmodels.ecdf.
  rewrite (nth_map_lt (fun i => (np.Qnat i / np.Qnat (length ps))%Q) 0%Q 0)
    by (rewrite length_seq; exact Hk).
  rewrite seq_nth by exact Hk. reflexivity.
Qed.

Lemma raw_length (ps : list Q) :
  length (map (fun pe => (fst pe / snd pe)%Q)
            (combine ps (statsmodels.ecdf (length ps)))) = length ps.
Proof.
  rewrite length_map, length_combine. unfold statsmodels.ecdf.
  rewrite length_map, length_seq. lia.
Qed.

Lemma ecdf_pos (n k : nat) : k < n -> (0 < np.Qnat (S k) / np.Qnat n)%Q.
Proof.
  intros Hk. apply Qlt_shift_div_l; [apply Qnat_pos; lia|].
  rewrite Qmult_0_l. apply Qnat_pos. lia.
Qed.

Lemma ecdf_mono (n k m : nat) :
  m <= k -> k < n -> (np.Qnat (S m) / np.Qnat n <= np.Qnat (S k) / np.Qnat n)%Q.
Proof.
  intros Hmk Hk. apply Qmult_le_compat_r.
  - apply Qnat_le. lia.
  - apply Qlt_le_weak, Qinv_lt_0_compat, Qnat_pos. lia.
Qed.

Lemma quotient_mono (a b e1 e2 : Q) :
  (0 <= a)%Q -> (a <= b)%Q -> (0 < e1)%Q -> (e1 <= e2)%Q -> (a / e2 <= b / e1)%Q.
Proof.
  intros Ha Hab He1 He12.
  assert (He2 : (0 < e2)%Q) by lra.
  apply Qle_shift_div_r; [exact He2|].
  assert (Hq : (b / e1 * e1 == b)%Q) by (field; lra).
  assert (Hq0 : (0 <= b / e1)%Q).
  { apply Qle_shift_div_l; [exact He1|]. lra. }
  revert Hq Hq0. generalize (b / e1)%Q. intros q Hq Hq0.
  assert (Hprod : (0 <= q * (e2 - e1))%Q) by (apply Qmult_le_0_compat; lra).
  lra.
Qed.

Lemma StronglySorted_nth (l : list Q) (i j : nat) :
  StronglySorted Qle l -> i <= j -> j < length l -> (nth i l 0 <= nth j l 0)%Q.
Proof.
  intros Hs. revert i j. induction Hs as [|x t Hs IH Hall]; intros i j Hij Hj;
    [simpl in Hj; lia|].
  destruct i as [|i], j as [|j]; simpl in *; try lia.
  - apply Qle_refl.
  - rewrite Forall_forall in Hall. apply Hall, nth_In. lia.
  - apply IH; lia.
Qed.

(** What [multipletests] returns, read through the sorting permutation:
    the corrected value of test [i] is the twice clipped running minimum
    at the position [k] that [i] has in sorted order. *)
Lemma multipletests_view (pvals : list Q) (alpha : Q) :
  let sortind := np.argsort pvals in
  let ps := map (fun i => nth i pvals 0%Q) sortind in
  let raw := map (fun pe => (fst pe / snd pe)%Q)
               (combine ps (statsmodels.ecdf (length ps))) in
  let mins := rev (statsmodels.minimum_accumulate (rev raw)) in
  let passed := map (fun pe => Qle_bool (fst pe) (snd pe * alpha))
                  (combine ps (statsmodels.ecdf (length ps))) in
  exists reject corrected,
    statsmodels.multipletests pvals alpha = Some (reject, corrected) /\
    length reject = length pvals /\ length corrected = length pvals /\
    length ps = length pvals /\ StronglySorted Qle ps /\
    forall i, i < length pvals ->
      exists k, k < length pvals /\ nth k sortind 0 = i /\
                nth i pvals 0%Q = nth k ps 0%Q /\
                nth i corrected 0%Q = clip (clip (nth k mins 0%Q)) /\
                nth i reject false
                = nth k (statsmodels.reject_upto_max passed) false.
Proof.
  intros sortind ps raw mins passed. unfold statsmodels.multipletests.
  fold sortind.
  rewrite (take_some 0%Q pvals sortind) by apply argsort_bound. cbn [obind].
  fold ps. unfold statsmodels.fdrcorrection. fold raw. fold mins. fold passed.
  assert (Hpassed : length (statsmodels.reject_upto_max passed) = length ps).
  { assert (Hp0 : length passed = length ps).
    { unfold passed. rewrite length_map, length_combine. unfold statsmodels.ecdf.
      rewrite length_map, length_seq. lia. }
    unfold statsmodels.reject_upto_max.
    pose proof (where_bound passed) as Hb.
    destruct (rev (np.where_ passed)) as [|rejectmax r] eqn:Er; [exact Hp0|].
    assert (Hin : In rejectmax (np.where_ passed))
      by (apply in_rev; rewrite Er; left; reflexivity).
    rewrite Forall_forall in Hb. apply Hb in Hin.
    rewrite length_app, repeat_length, length_skipn. lia. }
  assert (Hperm := argsort_perm pvals). fold sortind in Hperm.
  assert (Hlen : length sortind = length pvals).
  { rewrite (Permutation_length Hperm), length_seq. reflexivity. }
  assert (Hps : length ps = length pvals) by (unfold ps; rewrite length_map; exact Hlen).
  assert (Hmins : length mins = length pvals).
  { unfold mins. rewrite suffix_minima_length. unfold raw.
    rewrite raw_length. exact Hps. }
  eexists. eexists. split; [reflexivity|].
  split; [rewrite put_length, repeat_length; reflexivity|].
  split; [rewrite put_length, repeat_length; reflexivity|].
  split; [exact Hps|].
  split; [unfold ps; apply StronglySorted_map, argsort_sorted|].
  intros i Hi.
  assert (Hin : In i sortind).
  { eapply Permutation_in; [apply Permutation_sym, Hperm|]. apply in_seq. lia. }
  destruct (In_nth _ _ 0 Hin) as (k & Hk & Hki).
  exists k. split; [lia|]. split; [exact Hki|]. split.
  - unfold ps. rewrite (nth_map_lt (fun i => nth i pvals 0%Q) 0%Q 0 sortind k Hk).
    rewrite Hki. reflexivity.
  - assert (Hnd : NoDup sortind).
    { eapply Permutation_NoDup; [apply Permutation_sym, Hperm | apply seq_NoDup]. }
    rewrite <- Hki. split.
    + rewrite (put_nth 0%Q sortind).
      * rewrite !clip_one_nth by (rewrite ?clip_one_length; lia). reflexivity.
      * exact Hnd.
      * rewrite repeat_length. apply argsort_bound.
      * rewrite !clip_one_length. lia.
      * exact Hk.
    + rewrite (put_nth false sortind).
      * reflexivity.
      * exact Hnd.
      * rewrite repeat_length. apply argsort_bound.
      * lia.
      * exact Hk.
Qed.

(** X13: for a vector of p-values that is not empty, [multipletests]
    returns one corrected p-value and one rejection flag per test; no
    corrected p-value exceeds 1, and none is negative when no p-value
    is. *)
Theorem fdr_bh_range (pvals : list Q) (alpha : Q) :
  pvals <> [] ->
  exists reject corrected,
    statsmodels.multipletests pvals alpha = Some (reject, corrected) /\
    length reject = length pvals /\ length corrected = length pvals /\
    Forall (fun c => c <= 1)%Q corrected /\
    (Forall (fun p => 0 <= p)%Q pvals -> Forall (fun c => 0 <= c)%Q corrected).
Proof.
  intros _.
  destruct (multipletests_view pvals alpha)
    as (reject & corrected & Hm & Hlr & Hlc & Hps & Hsorted & Hview).
  exists reject, corrected. split; [exact Hm|]. split; [exact Hlr|].
  split; [exact Hlc|]. split.
  - apply Forall_forall. intros c Hc. apply (In_nth _ _ 0%Q) in Hc.
    destruct Hc as (i & Hi & <-). rewrite Hlc in Hi.
    destruct (Hview i Hi) as (k & _ & _ & _ & -> & _). apply clip_le_one.
  - intros Hp. apply Forall_forall. intros c Hc. apply (In_nth _ _ 0%Q) in Hc.
    destruct Hc as (i & Hi & <-). rewrite Hlc in Hi.
    destruct (Hview i Hi) as (k & Hk & _ & _ & -> & _).
    apply clip_nonneg, clip_nonneg.
    set (ps := map (fun i => nth i pvals 0%Q) (np.argsort pvals)) in *.
    apply suffix_minima_bound_from.
    + rewrite raw_length. lia.
    + intros m _ Hm'. rewrite raw_length in Hm'. rewrite (raw_nth ps m Hm').
      apply Qle_shift_div_l; [apply ecdf_pos; exact Hm'|]. rewrite Qmult_0_l.
      unfold ps. rewrite (nth_map_lt (fun i => nth i pvals 0%Q) 0%Q 0)
        by (unfold ps in Hm'; rewrite length_map in Hm'; exact Hm').
      rewrite Forall_forall in Hp. apply Hp, nth_In.
      pose proof (argsort_bound pvals) as Hb. rewrite Forall_forall in Hb.
      apply Hb, nth_In. unfold ps in Hm'. rewrite length_map in Hm'. exact Hm'.
Qed.

Lemma fdr_bh_range_witness :
  let pvals := [1#1000; 4#100; 3#100; 1#2; 2#100]%Q in
  pvals <> [] /\
  exists reject corrected,
    statsmodels.multipletests pvals (5#100) = Some (reject, corrected) /\
    length reject = length pvals /\ length corrected = length pvals /\
    Forall (fun c => c <= 1)%Q corrected /\
    (Forall (fun p => 0 <= p)%Q pvals -> Forall (fun c => 0 <= c)%Q corrected).
Proof.
  intros pvals.
  assert (Hne : pvals <> []) by discriminate.
  split; [exact Hne|].
  exact (fdr_bh_range pvals (5#100) Hne).
Defined.

(** X15: the correction keeps the order of the tests: of two tests, the
    one with the smaller (or equal) p-value gets the smaller (or equal)
    corrected p-value, for p-values that are not negative. *)
Theorem fdr_bh_monotone (pvals : list Q) (alpha : Q) :
  Forall (fun p => 0 <= p)%Q pvals ->
  exists reject corrected,
    statsmodels.multipletests pvals alpha = Some (reject, corrected) /\
    forall i j, i < length pvals -> j < length pvals ->
      (nth i pvals 0 <= nth j pvals 0)%Q ->
      (nth i corrected 0 <= nth j corrected 0)%Q.
Proof.
  intros Hp.
  destruct (multipletests_view pvals alpha)
    as (reject & corrected & Hm & _ & Hlc & Hps & Hsorted & Hview).
  exists reject, corrected. split; [exact Hm|].
  intros i j Hi Hj Hij.
  destruct (Hview i Hi) as (ki & Hki & _ & Hpi & -> & _).
  destruct (Hview j Hj) as (kj & Hkj & _ & Hpj & -> & _).
  set (ps := map (fun i => nth i pvals 0%Q) (np.argsort pvals)) in *.
  set (raw := map (fun pe => (fst pe / snd pe)%Q)
                (combine ps (statsmodels.ecdf (length ps)))) in *.
  set (mins := rev (statsmodels.minimum_accumulate (rev raw))) in *.
  assert (Hraw : length raw = length pvals) by (unfold raw; rewrite raw_length; exact Hps).
  assert (Hmins : length mins = length pvals)
    by (unfold mins; rewrite suffix_minima_length; exact Hraw).
  assert (Hms : StronglySorted Qle mins) by apply suffix_minima_sorted.
  assert (Hbelow : forall m, m < length pvals -> (nth m mins 0 <= nth m raw 0)%Q).
  { intros m Hm'. apply Forall2_nth_lt; [apply suffix_minima_below | lia]. }
  apply clip_mono, clip_mono.
  destruct (Nat.le_gt_cases ki kj) as [Hle|Hgt].
  - apply StronglySorted_nth; [exact Hms | exact Hle | lia].
  - apply suffix_minima_bound_from; [lia|].
    intros m Hkm Hm'. rewrite Hraw in Hm'.
    destruct (Nat.le_gt_cases ki m) as [Hkim|Hmki].
    + eapply Qle_trans; [|apply Hbelow; exact Hm'].
      apply StronglySorted_nth; [exact Hms | exact Hkim | lia].
    + eapply Qle_trans; [apply Hbelow; exact Hki|].
      unfold raw. rewrite (raw_nth ps ki) by lia. rewrite (raw_nth ps m) by lia.
      rewrite Hps. apply quotient_mono.
      * rewrite <- Hpi. rewrite Forall_forall in Hp. apply Hp, nth_In, Hi.
      * rewrite <- Hpi. eapply Qle_trans; [exact Hij|]. rewrite Hpj.
        apply StronglySorted_nth; [exact Hsorted | exact Hkm | lia].
      * apply ecdf_pos. exact Hm'.
      * apply ecdf_mono; lia.
Qed.

Lemma fdr_bh_monotone_witness :
  let pvals := [1#1000; 4#100; 3#100; 1#2; 3#100]%Q in
  Forall (fun p => 0 <= p)%Q pvals /\
  exists reject corrected,
    statsmodels.multipletests pvals (5#100) = Some (reject, corrected) /\
    forall i j, i < length pvals -> j < length pvals ->
      (nth i pvals 0 <= nth j pvals 0)%Q ->
      (nth i corrected 0 <= nth j corrected 0)%Q.
Proof.
  intros pvals.
  assert (Hp : Forall (fun p => 0 <= p)%Q pvals) by (repeat constructor; discriminate).
  split; [exact Hp|].
  exact (fdr_bh_monotone pvals (5#100) Hp).
Defined.

(** ** Contingency tables *)

Lemma cell_count_filter {R V : Type} (eqb : V -> V -> bool) (c1 c2 : R -> option V)
  (v1 v2 : V) (df : list R) :
  Fisher.cell_count eqb c1 c2 v1 v2 df
  = length (filter (fun r => pandas.cell_eqb eqb (c1 r) (Some v1)
                             && pandas.cell_eqb eqb (c2 r) (Some v2)) df).
Proof.
  unfold Fisher.cell_count, FDR.series_and, pandas.series_eq.
  rewrite <- (select_filter
                (fun r => pandas.cell_eqb eqb (c1 r) (Some v1)
                          && pandas.cell_eqb eqb (c2 r) (Some v2)) df).
  assert (Hmask : forall l : list R,
             map (fun ab : bool * bool => fst ab && snd ab)
               (combine
                  (map (fun c => match c with Some x => eqb x v1 | None => false end)
                     (map c1 l))
                  (map (fun c => match c with Some x => eqb x v2 | None => false end)
                     (map c2 l)))
             = map (fun r => pandas.cell_eqb eqb (c1 r) (Some v1)
                             && pandas.cell_eqb eqb (c2 r) (Some v2)) l).
  { induction l as [|r t IH]; simpl; [reflexivity|]. rewrite IH. reflexivity. }
  rewrite Hmask. reflexivity.
Qed.

(** Four exclusive cases add up. *)
Lemma filter_four {R : Type} (p1 p2 q1 q2 : R -> bool) (df : list R) :
  (forall r, p1 r && p2 r = false) -> (forall r, q1 r && q2 r = false) ->
  length (filter (fun r => p1 r && q1 r) df)
  + length (filter (fun r => p1 r && q2 r) df)
  + length (filter (fun r => p2 r && q1 r) df)
  + length (filter (fun r => p2 r && q2 r) df)
  = length (filter (fun r => (p1 r || p2 r) && (q1 r || q2 r)) df).
Proof.
  intros Hp Hq. induction df as [|r t IH]; simpl; [reflexivity|].
  specialize (Hp r). specialize (Hq r).
  destruct (p1 r), (p2 r), (q1 r), (q2 r); simpl in *; try discriminate; lia.
Qed.

Lemma filter_two {R : Type} (p q1 q2 : R -> bool) (df : list R) :
  (forall r, q1 r && q2 r = false) ->
  length (filter (fun r => p r && q1 r) df)
  + length (filter (fun r => p r && q2 r) df)
  = length (filter (fun r => p r && (q1 r || q2 r)) df).
Proof.
  intros Hq. induction df as [|r t IH]; simpl; [reflexivity|].
  specialize (Hq r).
  destruct (p r), (q1 r), (q2 r); simpl in *; try discriminate; lia.
Qed.

Lemma bool_cell_exclusive (x : option bool) :
  pandas.cell_eqb Bool.eqb x (Some true) && pandas.cell_eqb Bool.eqb x (Some false) = false.
Proof. destruct x as [[|]|]; reflexivity. Qed.

Lemma bool_cell_known (x : option bool) :
  pandas.cell_eqb Bool.eqb x (Some true) || pandas.cell_eqb Bool.eqb x (Some false)
  = pandas.notna x.
Proof. destruct x as [[|]|]; reflexivity. Qed.

Lemma string_cell_exclusive (x : option string) :
  pandas.cell_eqb String.eqb x (Some "Yes"%string)
  && pandas.cell_eqb String.eqb x (Some "No"%string) = false.
Proof.
  destruct x as [s|]; [|reflexivity]. simpl.
  destruct (String.eqb_spec s "Yes"); [subst; reflexivity | reflexivity].
Qed.

Lemma filter_filter {R : Type} (f g : R -> bool) (df : list R) :
  filter f (filter g df) = filter (fun r => g r && f r) df.
Proof.
  induction df as [|r t IH]; simpl; [reflexivity|].
  destruct (g r); simpl; [destruct (f r)|]; rewrite IH; reflexivity.
Qed.

(** X17: the four cells of a contingency table count every row exactly
    once or not at all.  In notebook 1.1 they add up to the number of
    proteins with both flags recorded, and the first row of the table to
    the number of entangled ones among them; in notebook 1.2 they add up
    to the number of rows whose two columns both read "Yes" or "No", so a
    row with any other entry is silently left out; in notebook 1.3 they
    add up to the number of residues that passed both filters (gene in
    the high-quality list, residue position present) and have both flags
    recorded. *)
Theorem contingency_cells_partition :
  (forall data1 : list Fisher.protein,
      let t := Fisher.misfolding_table data1 in
      Fisher.a t + Fisher.b t + Fisher.c t + Fisher.d t
      = length (filter (fun r => pandas.notna (Fisher.NativeEnt r)
                                 && pandas.notna (Fisher.NonRefoldable r)) data1) /\
      Fisher.a t + Fisher.b t
      = length (filter (fun r => pandas.cell_eqb Bool.eqb (Fisher.NativeEnt r) (Some true)
                                 && pandas.notna (Fisher.NonRefoldable r)) data1)) /\
  (forall data2 : list Fisher.association,
      let t := Fisher.disease_table data2 in
      Fisher.a t + Fisher.b t + Fisher.c t + Fisher.d t
      = length (filter (fun r => Fisher.yes_or_no (Fisher.entanglement r)
                                 && Fisher.yes_or_no (Fisher.disease_linked r)) data2)) /\
  (forall (data3 : pandas.indexed Fisher.residue) (data3_mask_gene : list (option string)),
      let t := Fisher.residue_table data3 data3_mask_gene in
      Fisher.a t + Fisher.b t + Fisher.c t + Fisher.d t
      = length (filter (fun lr =>
                          existsb (pandas.cell_eqb String.eqb (Fisher.residue_gene (snd lr)))
                            data3_mask_gene
                          && pandas.notna (Fisher.mapped_resid (snd lr))
                          && (pandas.notna (Fisher.region (snd lr))
                              && pandas.notna (Fisher.cut_C_Rall (snd lr)))) data3)).
Proof.
  split; [|split].
  - intros data1 t. unfold t, Fisher.misfolding_table, Fisher.contingency_table.
    cbn [Fisher.a Fisher.b Fisher.c Fisher.d]. rewrite !cell_count_filter. split.
    + rewrite (filter_four
                 (fun r => pandas.cell_eqb Bool.eqb (Fisher.NativeEnt r) (Some true))
                 (fun r => pandas.cell_eqb Bool.eqb (Fisher.NativeEnt r) (Some false))
                 (fun r => pandas.cell_eqb Bool.eqb (Fisher.NonRefoldable r) (Some true))
                 (fun r => pandas.cell_eqb Bool.eqb (Fisher.NonRefoldable r) (Some false)))
        by (intros r; apply bool_cell_exclusive).
      f_equal. apply filter_ext. intros r. rewrite !bool_cell_known. reflexivity.
    + rewrite (filter_two
                 (fun r => pandas.cell_eqb Bool.eqb (Fisher.NativeEnt r) (Some true))
                 (fun r => pandas.cell_eqb Bool.eqb (Fisher.NonRefoldable r) (Some true))
                 (fun r => pandas.cell_eqb Bool.eqb (Fisher.NonRefoldable r) (Some false)))
        by (intros r; apply bool_cell_exclusive).
      f_equal. apply filter_ext. intros r. rewrite bool_cell_known. reflexivity.
  - intros data2 t. unfold t, Fisher.disease_table, Fisher.contingency_table.
    cbn [Fisher.a Fisher.b Fisher.c Fisher.d]. rewrite !cell_count_filter.
    rewrite (filter_four
               (fun r => pandas.cell_eqb String.eqb (Fisher.entanglement r) (Some "Yes"%string))
               (fun r => pandas.cell_eqb String.eqb (Fisher.entanglement r) (Some "No"%string))
               (fun r => pandas.cell_eqb String.eqb (Fisher.disease_linked r) (Some "Yes"%string))
               (fun r => pandas.cell_eqb String.eqb (Fisher.disease_linked r) (Some "No"%string)))
      by (intros r; apply string_cell_exclusive).
    f_equal. apply filter_ext. intros r.
    destruct (Fisher.entanglement r), (Fisher.disease_linked r); reflexivity.
  - intros data3 mask t.
    unfold t, Fisher.residue_table, Fisher.contingency_table.
    cbn [Fisher.a Fisher.b Fisher.c Fisher.d]. rewrite !cell_count_filter.
    rewrite (filter_four
               (fun lr : nat * Fisher.residue =>
                  pandas.cell_eqb Bool.eqb (Fisher.region (snd lr)) (Some true))
               (fun lr => pandas.cell_eqb Bool.eqb (Fisher.region (snd lr)) (Some false))
               (fun lr => pandas.cell_eqb Bool.eqb (Fisher.cut_C_Rall (snd lr)) (Some true))
               (fun lr => pandas.cell_eqb Bool.eqb (Fisher.cut_C_Rall (snd lr)) (Some false)))
      by (intros r; apply bool_cell_exclusive).
    unfold Fisher.data3_filtered, pandas.dropna, pandas.isin.
    rewrite map_map.
    rewrite (select_filter
               (fun lr : nat * Fisher.residue =>
                  existsb (pandas.cell_eqb String.eqb (Fisher.residue_gene (snd lr))) mask)).
    rewrite !filter_filter. f_equal. apply filter_ext. intros lr.
    rewrite !bool_cell_known. simpl. rewrite andb_true_r, andb_assoc. reflexivity.
Qed.

(** ** Unique identifiers *)

Lemma cell_eqb_string (x y : option string) :
  pandas.cell_eqb String.eqb x y = true <-> x = y.
Proof.
  destruct x as [s|], y as [t|]; simpl; split; intros Hxy;
    try discriminate; try reflexivity.
  - apply String.eqb_eq in Hxy. subst. reflexivity.
  - inversion Hxy. apply String.eqb_refl.
Qed.

Section Unique.
Context {A : Type} (eqb : A -> A -> bool).
Hypothesis cell_eqb_spec : forall x y : option A, pandas.cell_eqb eqb x y = true <-> x = y.

Lemma unique_In (s : list (option A)) (x : option A) :
  In x (pandas.unique eqb s) <-> In x s.
Proof.
  induction s as [|y t IH]; simpl; [tauto|]. rewrite filter_In, IH.
  split.
  - intros [H|[H _]]; auto.
  - intros [H|H]; [auto|].
    destruct (pandas.cell_eqb eqb x y) eqn:Hxy.
    + left. symmetry. apply cell_eqb_spec. exact Hxy.
    + right. split; [exact H | reflexivity].
Qed.

Lemma unique_length (s : list (option A)) : length (pandas.unique eqb s) <= length s.
Proof.
  induction s as [|y t IH]; simpl; [lia|].
  pose proof (filter_length_le (fun z => negb (pandas.cell_eqb eqb z y))
                (pandas.unique eqb t)). lia.
Qed.

Lemma filter_all {B : Type} (f : B -> bool) (l : list B) :
  length (filter f l) = length l -> forall x, In x l -> f x = true.
Proof.
  induction l as [|y t IH]; simpl; intros Hl x Hx; [destruct Hx|].
  pose proof (filter_length_le f t) as Hle.
  destruct (f y) eqn:Hy; simpl in Hl; [|lia].
  destruct Hx as [->|Hx]; [exact Hy | apply IH; [lia | exact Hx]].
Qed.

Lemma unique_full (s : list (option A)) :
  length (pandas.unique eqb s) = length s <-> NoDup s.
Proof.
  induction s as [|y t IH]; simpl.
  - split; [constructor | reflexivity].
  - pose proof (unique_length t) as Hu.
    pose proof (filter_length_le (fun z => negb (pandas.cell_eqb eqb z y))
                  (pandas.unique eqb t)) as Hf.
    split.
    + intros Hl. constructor.
      * intros Hin. apply (proj2 (unique_In _ _)) in Hin.
        assert (Hk : negb (pandas.cell_eqb eqb y y) = true)
          by (apply (filter_all (fun z => negb (pandas.cell_eqb eqb z y))
                       (pandas.unique eqb t)); [lia | exact Hin]).
        rewrite (proj2 (cell_eqb_spec y y) eq_refl) in Hk. discriminate.
      * apply IH. lia.
    + intros Hnd. inversion Hnd as [|? ? Hnin Hnd']; subst.
      apply IH in Hnd'.
      assert (Hid : filter (fun z => negb (pandas.cell_eqb eqb z y))
                      (pandas.unique eqb t) = pandas.unique eqb t);
        [|rewrite Hid, Hnd'; reflexivity].
      apply forallb_filter_id. apply forallb_forall. intros z Hz.
      apply (proj1 (unique_In _ _)) in Hz.
      destruct (pandas.cell_eqb eqb z y) eqn:Hzy; [|reflexivity].
      apply cell_eqb_spec in Hzy. subst z. contradiction.
Qed.

End Unique.

(** X18: the number of unique gene identifiers that notebooks 1.1 and
    1.2 print is at most the number of rows, and it equals the number of
    rows exactly when no identifier (NaN included) occurs twice. *)
Theorem N_unique_all_rows (genes : list (option string)) :
  Fisher.N_unique genes <= length genes /\
  (Fisher.N_unique genes = length genes <-> NoDup genes).
Proof.
  unfold Fisher.N_unique. split.
  - apply unique_length.
  - apply unique_full. exact cell_eqb_string.
Qed.

(** ** Recoding the outcome *)

(** X19: [col.map({"Yes": 1, "No": 0})] leaves no NaN exactly when every
    cell reads "Yes" or "No"; and the recoding cannot be repeated: the
    recoded column holds numbers and NaN only, none of them a key of the
    dict, so recoding the column a second time, as a re-run of the cell
    of notebook 3.3 does, turns every cell into NaN. *)
Theorem recode_not_idempotent (col : list (option Confounder.value)) :
  (Forall (fun x => pandas.notna x = true) (Confounder.recode col) <->
   Forall (fun x => x = Some (Confounder.str "Yes")
                    \/ x = Some (Confounder.str "No")) col) /\
  Confounder.recode (Confounder.recode col) = map (fun _ => None) col.
Proof.
  unfold Confounder.recode, pandas.series_map, Confounder.recode_map. split.
  - rewrite Forall_map. split; intros Hall; (eapply Forall_impl; [|exact Hall]);
      intros [[s|q]|]; cbn [find fst option_map Confounder.value_eqb].
    + destruct (String.eqb_spec "Yes" s) as [<-|Hy]; [auto|].
      destruct (String.eqb_spec "No" s) as [<-|Hn]; [auto|]. discriminate.
    + discriminate.
    + discriminate.
    + intros [H|H]; inversion H; subst; reflexivity.
    + intros [H|H]; discriminate.
    + intros [H|H]; discriminate.
  - rewrite map_map. apply map_ext. intros [[s|q]|];
      cbn [find fst option_map Confounder.value_eqb]; try reflexivity.
    destruct (String.eqb "Yes" s); [reflexivity|].
    destruct (String.eqb "No" s); reflexivity.
Qed.

(** ** Merging the protein lengths *)

Lemma cell_eqb_string_sym (x y : option string) :
  pandas.cell_eqb String.eqb x y = pandas.cell_eqb String.eqb y x.
Proof.
  destruct (pandas.cell_eqb String.eqb x y) eqn:Hxy.
  - apply cell_eqb_string in Hxy. subst. symmetry. apply cell_eqb_string. reflexivity.
  - destruct (pandas.cell_eqb String.eqb y x) eqn:Hyx; [|reflexivity].
    apply cell_eqb_string in Hyx. subst.
    rewrite (proj2 (cell_eqb_string x x) eq_refl) in Hxy. discriminate.
Qed.

Lemma drop_duplicates_from_matches {R : Type} (key : R -> option string)
  (k : option string) (df : list R) (seen : list (option string)) :
  filter (fun r => pandas.cell_eqb String.eqb (key r) k)
    (pandas.drop_duplicates_from String.eqb key seen df)
  = if existsb (pandas.cell_eqb String.eqb k) seen then []
    else option_list (find (fun r => pandas.cell_eqb String.eqb (key r) k) df).
Proof.
  revert seen. induction df as [|r t IH]; intros seen; simpl.
  - destruct (existsb _ seen); reflexivity.
  - destruct (existsb (pandas.cell_eqb String.eqb (key r)) seen) eqn:Hseen.
    + rewrite IH. destruct (existsb (pandas.cell_eqb String.eqb k) seen) eqn:Hk;
        [reflexivity|].
      destruct (pandas.cell_eqb String.eqb (key r) k) eqn:Hrk; [|reflexivity].
      apply cell_eqb_string in Hrk. subst k. congruence.
    + simpl. rewrite IH. simpl. rewrite (cell_eqb_string_sym k (key r)).
      destruct (pandas.cell_eqb String.eqb (key r) k) eqn:Hrk; simpl.
      * apply cell_eqb_string in Hrk. subst k. rewrite Hseen. reflexivity.
      * reflexivity.
Qed.

Lemma merge_left_single {L R : Type} (key_l : L -> option string)
  (key_r : R -> option string) (left : list L) (right : list R)
  (pick : option string -> option R) :
  (forall k, filter (fun r => pandas.cell_eqb String.eqb (key_r r) k) right
             = option_list (pick k)) ->
  pandas.merge_left String.eqb key_l key_r left right
  = map (fun l => (l, pick (key_l l))) left.
Proof.
  intros Hpick. unfold pandas.merge_left.
  induction left as [|l t IH]; [reflexivity|].
  match goal with
  | |- flat_map ?f (l :: t) = _ => change (flat_map f (l :: t)) with (f l ++ flat_map f t)
  end.
  rewrite IH, Hpick. cbn [map].
  destruct (pick (key_l l)) eqn:Hp; reflexivity.
Qed.

(** X20: after [drop_duplicates] on the gene, the left merge of
    notebook 2.1 returns the rows of [data4_p1] one for one and in their
    order; each carries the first row of [data4_p2] that has its gene (a
    missing gene matching a missing gene), or NaN when there is none. *)
Theorem data4_final_row_for_row
  (data4_p1 : list Fisher.protein) (data4_p2 : list Confounder.length_row) :
  Confounder.data4_final data4_p1 data4_p2
  = map (fun l =>
           (l, find (fun r => pandas.cell_eqb String.eqb (Confounder.gene r)
                                (Fisher.gene l)) data4_p2))
      data4_p1.
Proof.
  unfold Confounder.data4_final, pandas.drop_duplicates.
  apply (merge_left_single Fisher.gene Confounder.gene data4_p1 _
           (fun k => find (fun r => pandas.cell_eqb String.eqb (Confounder.gene r) k)
                       data4_p2)).
  intros k. rewrite drop_duplicates_from_matches. reflexivity.
Qed.

(** ** Attaching the outcome to the scaled features *)

Lemma combine_seq_fst {R : Type} (rows : list R) (start : nat) :
  map fst (combine (seq start (length rows)) rows) = seq start (length rows).
Proof.
  revert start. induction rows as [|r rows IH]; intros start; simpl;
    [reflexivity | rewrite IH; reflexivity].
Qed.

Lemma combine_seq_snd {R : Type} (rows : list R) (start : nat) :
  map snd (combine (seq start (length rows)) rows) = rows.
Proof.
  revert start. induction rows as [|r rows IH]; intros start; simpl;
    [reflexivity | rewrite IH; reflexivity].
Qed.

(** X21: whatever labels [dropna] has left in [data8], the scaling cell
    of notebook 3.3 attaches the outcome by position: row [i] of the
    scaled features gets the outcome of the [i]-th remaining row, so the
    outcome column is the remaining outcomes in their order, without a
    NaN from the alignment, and no row is lost.  The scaler is any
    function that returns one row for each row it is given. *)
Theorem scaled_outcome_by_position
  (fit_transform : list (list (option Q)) -> list (list (option Q)))
  (cols : list (Scaling.row -> option Q)) (data8 : pandas.indexed Scaling.row) :
  (forall X, length (fit_transform X) = length X) ->
  let kept := map snd (pandas.dropna cols data8) in
  let result := combine (fit_transform (map Scaling.features kept))
                  (map Scaling.disease_linked kept) in
  Scaling.scaled fit_transform (pandas.dropna cols data8) = Some result /\
  length result = length kept /\
  map snd result = map Scaling.disease_linked kept.
Proof.
  intros Hrows kept result. subst kept result.
  generalize (pandas.dropna cols data8). intros df.
  assert (Hlen : length (fit_transform (map Scaling.features (map snd df)))
                 = length (map Scaling.disease_linked (map snd df)))
    by (rewrite Hrows, !length_map; reflexivity).
  split; [|split].
  - unfold Scaling.scaled, pandas.setitem_series, pandas.reset_index,
      pandas.range_index.
    rewrite !map_map. cbn [fst snd].
    rewrite <- (map_map snd Scaling.features), <- (map_map snd Scaling.disease_linked).
    rewrite !combine_seq_fst, combine_seq_snd, Hlen.
    destruct (list_eq_dec Nat.eq_dec _ _) as [_|Hne]; [reflexivity|].
    exfalso. apply Hne. reflexivity.
  - rewrite length_combine, Hlen, Nat.min_id, !length_map. reflexivity.
  - revert Hlen. generalize (fit_transform (map Scaling.features (map snd df))).
    generalize (map Scaling.disease_linked (map snd df)).
    intros l. induction l as [|x l IH]; intros [|y l'] Hl; simpl in *;
      try discriminate; [reflexivity|].
    rewrite IH; [reflexivity | lia].
Qed.

Lemma scaled_outcome_by_position_witness :
  let data8 :=
    [(0, {| Scaling.features := [None; Some 2%Q];
            Scaling.disease_linked := Some (Confounder.str "Yes") |});
     (1, {| Scaling.features := [Some 1%Q; Some 3%Q];
            Scaling.disease_linked := Some (Confounder.str "No") |});
     (2, {| Scaling.features := [Some 4%Q; Some 5%Q];
            Scaling.disease_linked := Some (Confounder.str "Yes") |})] in
  let cols := [fun r => nth 0 (Scaling.features r) None] in
  map fst (pandas.dropna cols data8) = [1; 2] /\
  Scaling.scaled (fun X => X) (pandas.dropna cols data8)
  = Some [([Some 1%Q; Some 3%Q], Some (Confounder.str "No"));
          ([Some 4%Q; Some 5%Q], Some (Confounder.str "Yes"))].
Proof.
  intros data8 cols. split; [reflexivity|].
  exact (proj1 (scaled_outcome_by_position (fun X => X) cols data8
                  (fun X => eq_refl))).
Defined.

(** ** Balancing the classes *)

Section Balancing.
Context {G : Type} `{np.RandomGen G}.

(** Rows taken at the first [n] positions of a permutation of the
    positions: [n] rows (all when there are fewer), and together with
    the rows at the other positions they are the frame again. *)
Lemma take_prefix_of_permutation {R : Type} (df : list R) (idx : list nat) (n : nat) :
  Permutation idx (seq 0 (length df)) ->
  exists r rest,
    np.take df (firstn n idx) = Some r /\
    length r = Nat.min n (length df) /\
    Permutation (r ++ rest) df.
Proof.
  intros Hperm.
  assert (Hlen : length idx = length df)
    by (rewrite (Permutation_length Hperm), length_seq; reflexivity).
  destruct df as [|d df'].
  - destruct idx; [|discriminate]. exists [], []. rewrite firstn_nil.
    repeat split; [destruct n; reflexivity | constructor].
  - set (df := d :: df') in *.
    assert (Hall : Forall (fun i => i < length df) idx).
    { eapply Permutation_Forall; [apply Permutation_sym, Hperm|].
      apply Forall_forall. intros i Hi. apply in_seq in Hi. lia. }
    exists (map (fun i => nth i df d) (firstn n idx)),
           (map (fun i => nth i df d) (skipn n idx)).
    split; [|split].
    + apply take_some. rewrite <- (firstn_skipn n idx) in Hall.
      apply Forall_app in Hall. apply Hall.
    + rewrite length_map, length_firstn, Hlen. reflexivity.
    + rewrite <- map_app, firstn_skipn.
      eapply Permutation_trans; [apply Permutation_map, Hperm|].
      rewrite map_nth_seq. apply Permutation_refl.
Qed.

Lemma resample_seeded {R : Type} (df : list R) (n : nat) (seed : Z) (g : G) :
  (length df < n /\ Preprocess.resample df n (sklearn.rs_int seed) g = None) \/
  (n <= length df /\
   exists r rest,
     Preprocess.resample df n (sklearn.rs_int seed) g = Some (r, g) /\
     length r = n /\ Permutation (r ++ rest) df).
Proof.
  unfold Preprocess.resample, sklearn.with_random_state.
  destruct (length df <? n) eqn:Hn.
  - left. apply Nat.ltb_lt in Hn. split; [exact Hn | reflexivity].
  - right. apply Nat.ltb_ge in Hn. split; [exact Hn|].
    pose proof (shuffle_perm (seq 0 (length df)) (np.RandomState seed)) as Hperm.
    destruct (np.shuffle (seq 0 (length df)) (np.RandomState seed)) as [idx rng'].
    simpl in Hperm.
    destruct (take_prefix_of_permutation df idx n Hperm) as (r & rest & Hr & Hl & Hp).
    exists r, rest. rewrite Hr. simpl.
    split; [reflexivity | split; [lia | exact Hp]].
Qed.

Lemma sample_all_seeded {R : Type} (df : list R) (seed : Z) (g : G) :
  exists r, Preprocess.sample_all df (sklearn.rs_int seed) g = Some (r, g) /\
            Permutation r df.
Proof.
  unfold Preprocess.sample_all, sklearn.with_random_state.
  pose proof (shuffle_perm (seq 0 (length df)) (np.RandomState seed)) as Hperm.
  destruct (np.shuffle (seq 0 (length df)) (np.RandomState seed)) as [idx rng'].
  simpl in Hperm.
  destruct (take_prefix_of_permutation df idx (length idx) Hperm)
    as (r & rest & Hr & Hl & Hp).
  rewrite firstn_all in Hr. exists r. rewrite Hr. simpl. split; [reflexivity|].
  assert (Hidx : length idx = length df)
    by (rewrite (Permutation_length Hperm), length_seq; reflexivity).
  assert (Hrest : rest = []).
  { apply Permutation_length in Hp. rewrite length_app in Hp.
    destruct rest; [reflexivity | simpl in Hp; lia]. }
  subst rest. rewrite app_nil_r in Hp. exact Hp.
Qed.

Lemma of_class_filter (v : Q) (data3 : list Preprocess.segment) :
  Preprocess.of_class v data3
  = filter (fun r => match Preprocess.target_value r with
                     | Some x => Qeq_bool x v
                     | None => false
                     end) data3.
Proof.
  unfold Preprocess.of_class, pandas.series_eq. rewrite map_map.
  apply select_filter.
Qed.

Lemma filter_length_perm {R : Type} (f : R -> bool) (l l' : list R) :
  Permutation l l' -> length (filter f l) = length (filter f l').
Proof.
  induction 1 as [|x l l' _ IH|x y l|l l' l'' _ IH1 _ IH2]; simpl.
  - reflexivity.
  - destruct (f x); simpl; rewrite IH; reflexivity.
  - destruct (f x), (f y); reflexivity.
  - rewrite IH1. exact IH2.
Qed.

Lemma filter_none {R : Type} (f : R -> bool) (l : list R) :
  (forall x, In x l -> f x = false) -> filter f l = [].
Proof.
  induction l as [|x t IH]; simpl; intros Hall; [reflexivity|].
  rewrite (Hall x (or_introl eq_refl)). apply IH. intros y Hy. apply Hall. right. exact Hy.
Qed.

Lemma filter_every {R : Type} (f : R -> bool) (l : list R) :
  (forall x, In x l -> f x = true) -> filter f l = l.
Proof.
  induction l as [|x t IH]; simpl; intros Hall; [reflexivity|].
  rewrite (Hall x (or_introl eq_refl)). f_equal. apply IH.
  intros y Hy. apply Hall. right. exact Hy.
Qed.

Lemma filter_split_perm {R : Type} (f : R -> bool) (l : list R) :
  Permutation (filter f l ++ filter (fun x => negb (f x)) l) l.
Proof.
  induction l as [|x t IH]; simpl; [constructor|].
  destruct (f x); simpl.
  - constructor. exact IH.
  - apply Permutation_sym, Permutation_cons_app, Permutation_sym, IH.
Qed.

Lemma of_class_exclusive (r : Preprocess.segment) :
  match Preprocess.target_value r with
  | Some x => Qeq_bool x 0
  | None => false
  end = true ->
  match Preprocess.target_value r with
  | Some x => Qeq_bool x 1
  | None => false
  end = false.
Proof.
  destruct (Preprocess.target_value r) as [x|]; [|discriminate].
  intros H0. apply Qeq_bool_iff in H0.
  destruct (Qeq_bool x 1) eqn:H1; [|reflexivity].
  apply Qeq_bool_iff in H1. rewrite H0 in H1. discriminate.
Qed.

(** X22: the down-sampling cell raises exactly when a class has fewer
    than [n_samples] rows.  Otherwise the balanced frame has [n_samples]
    rows of either class and no other row, every row of it is a row of
    the data taken at most as often as the data holds it, and, the three
    draws being seeded with an integer, the global generator is left as
    it was. *)
Theorem balanced_classes (data3 : list Preprocess.segment) (n_samples : nat)
  (random_seed : Z) (global : G) :
  (Preprocess.balanced data3 n_samples random_seed global = None <->
   length (Preprocess.of_class 0 data3) < n_samples
   \/ length (Preprocess.of_class 1 data3) < n_samples) /\
  (forall balanced g',
     Preprocess.balanced data3 n_samples random_seed global = Some (balanced, g') ->
     g' = global /\
     length balanced = 2 * n_samples /\
     length (Preprocess.of_class 0 balanced) = n_samples /\
     length (Preprocess.of_class 1 balanced) = n_samples /\
     exists rest, Permutation (balanced ++ rest) data3).
Proof.
  unfold Preprocess.balanced.
  destruct (resample_seeded (Preprocess.of_class 0 data3) n_samples random_seed global)
    as [[Hlt0 Hr0]|[Hle0 (r0 & rest0 & Hr0 & Hl0 & Hp0)]].
  { rewrite Hr0. simpl. split; [split; [auto | reflexivity] | discriminate]. }
  rewrite Hr0. cbn [obind fst snd].
  destruct (resample_seeded (Preprocess.of_class 1 data3) n_samples random_seed global)
    as [[Hlt1 Hr1]|[Hle1 (r1 & rest1 & Hr1 & Hl1 & Hp1)]].
  { rewrite Hr1. simpl. split; [split; [auto | reflexivity] | discriminate]. }
  rewrite Hr1. cbn [obind fst snd].
  destruct (sample_all_seeded (r0 ++ r1) random_seed global) as (b & Hb & Hpb).
  rewrite Hb. split.
  { split; [discriminate | intros [Hlt|Hlt]; lia]. }
  intros balanced g' Heq. inversion Heq; subst balanced g'. clear Heq.
  set (is0 := fun r => match Preprocess.target_value r with
                       | Some x => Qeq_bool x 0
                       | None => false
                       end).
  set (is1 := fun r => match Preprocess.target_value r with
                       | Some x => Qeq_bool x 1
                       | None => false
                       end).
  assert (H0 : forall x, In x r0 -> is0 x = true).
  { intros x Hx.
    assert (Hin : In x (Preprocess.of_class 0 data3)).
    { eapply Permutation_in; [exact Hp0|]. apply in_or_app. left. exact Hx. }
    rewrite of_class_filter in Hin. apply filter_In in Hin. apply Hin. }
  assert (H1 : forall x, In x r1 -> is1 x = true).
  { intros x Hx.
    assert (Hin : In x (Preprocess.of_class 1 data3)).
    { eapply Permutation_in; [exact Hp1|]. apply in_or_app. left. exact Hx. }
    rewrite of_class_filter in Hin. apply filter_In in Hin. apply Hin. }
  assert (Hex : forall x, is0 x = true -> is1 x = false)
    by (intros x; apply of_class_exclusive).
  split; [reflexivity|]. split; [|split; [|split]].
  - rewrite (Permutation_length Hpb), length_app. lia.
  - rewrite of_class_filter. fold is0.
    rewrite (filter_length_perm is0 _ _ Hpb), filter_app, length_app.
    rewrite (filter_every is0 r0 H0), (filter_none is0 r1); [simpl; lia|].
    intros x Hx. destruct (is0 x) eqn:Hx0; [|reflexivity].
    pose proof (H1 x Hx) as Hx1. rewrite (Hex x Hx0) in Hx1. discriminate.
  - rewrite of_class_filter. fold is1.
    rewrite (filter_length_perm is1 _ _ Hpb), filter_app, length_app.
    rewrite (filter_every is1 r1 H1), (filter_none is1 r0); [simpl; lia|].
    intros x Hx. apply Hex, H0, Hx.
  - rewrite !of_class_filter in *. fold is0 in Hp0. fold is1 in Hp1.
    set (others := filter (fun x => negb (is0 x)) data3).
    assert (H1o : filter is1 data3 = filter is1 others).
    { unfold others. clear -Hex. induction data3 as [|x t IH]; simpl; [reflexivity|].
      destruct (is0 x) eqn:Hx0; simpl.
      - rewrite (Hex x Hx0). exact IH.
      - destruct (is1 x); rewrite IH; reflexivity. }
    exists (rest0 ++ rest1 ++ filter (fun x => negb (is1 x)) others).
    eapply Permutation_trans; [|apply (filter_split_perm is0 data3)].
    fold others.
    eapply Permutation_trans;
      [|apply Permutation_app; [exact Hp0 | apply (filter_split_perm is1 others)]].
    rewrite <- H1o.
    eapply Permutation_trans;
      [|apply Permutation_app_head, Permutation_app_tail; exact Hp1].
    eapply Permutation_trans; [apply Permutation_app_tail; exact Hpb|].
    rewrite <- !app_assoc. apply Permutation_app_head.
    rewrite !app_assoc. apply Permutation_app_tail.
    apply Permutation_app_tail. apply Permutation_app_comm.
Qed.

End Balancing.

(** ** Stratification: the class counts of the test folds *)

(** Among [k] consecutive numbers exactly one has the residue [i]. *)
Lemma residue_window (k i a : nat) :
  i < k -> length (filter (fun p => p mod k =? i) (seq a k)) = 1.
Proof.
  intros Hi. induction a as [|a IH].
  - rewrite (filter_ext_in _ (fun p => i =? p)).
    + assert (Hgen : forall l, length (filter (fun p => i =? p) l)
                               = list_sum (map (fun p => if i =? p then 1 else 0) l)).
      { induction l as [|x l IHl]; simpl; [reflexivity|].
        destruct (i =? x); simpl; rewrite IHl; reflexivity. }
      rewrite Hgen. apply indicator_sum. exact Hi.
    + intros p Hp. apply in_seq in Hp. rewrite Nat.mod_small by lia.
      apply Nat.eqb_sym.
  - destruct k as [|k']; [lia|].
    set (f := fun p => p mod S k' =? i) in *.
    rewrite seq_S, filter_app, length_app. cbn [seq filter] in IH. cbn [filter].
    replace (f (S a + k')) with (f a).
    + destruct (f a); cbn [length] in *; lia.
    + unfold f. f_equal.
      replace (S a + k') with (a + 1 * S k') by lia.
      rewrite Nat.Div0.mod_add. reflexivity.
Qed.

(** Among [m] consecutive numbers the numbers with the residue [i] are
    [m / k], rounded down or up. *)
Lemma residue_count_bounds (k i : nat) :
  i < k -> forall m a,
    let cnt := length (filter (fun p => p mod k =? i) (seq a m)) in
    m < (cnt + 1) * k /\ cnt * k < m + k.
Proof.
  intros Hi m. induction m as [m IH] using lt_wf_ind. intros a cnt.
  destruct (Nat.lt_ge_cases m k) as [Hlt|Hge].
  - assert (Hle : cnt <= 1).
    { pose proof (residue_window k i a Hi) as Hw.
      assert (Hs : seq a k = seq a m ++ seq (a + m) (k - m))
        by (rewrite <- seq_app; f_equal; lia).
      rewrite Hs, filter_app, length_app in Hw. unfold cnt. lia. }
    destruct m as [|m].
    + simpl in cnt. subst cnt. simpl. lia.
    + destruct cnt as [|[|c]]; [nia | nia | lia].
  - pose proof (residue_window k i a Hi) as Hw.
    destruct (IH (m - k) ltac:(lia) (a + k)) as [IH1 IH2].
    assert (Hs : seq a m = seq a k ++ seq (a + k) (m - k))
      by (rewrite <- seq_app; f_equal; lia).
    unfold cnt. rewrite Hs, filter_app, length_app, Hw.
    set (c' := length (filter (fun p => p mod k =? i) (seq (a + k) (m - k)))) in *.
    nia.
Qed.

Lemma select_map {A B : Type} (f : A -> B) (mask : list bool) (l : list A) :
  np.select mask (map f l) = map f (np.select mask l).
Proof.
  revert l. induction mask as [|m mask IH]; intros [|x l]; simpl; try reflexivity.
  destruct m; simpl; rewrite IH; reflexivity.
Qed.

(** [a[np.where(mask)[0]]] is [a[mask]]. *)
Lemma take_where {A : Type} (mask : list bool) (a : list A) :
  length mask = length a -> np.take a (np.where_ mask) = Some (np.select mask a).
Proof.
  intros Hlen. destruct a as [|d a'].
  - destruct mask; [reflexivity | discriminate].
  - set (a := d :: a') in *.
    rewrite (take_some d).
    + unfold np.where_. rewrite <- select_map, Hlen, map_nth_seq. reflexivity.
    + rewrite <- Hlen. apply where_bound.
Qed.

Lemma count_flat_repeat (f : nat -> nat) (i n a : nat) :
  count_occ Nat.eq_dec (flat_map (fun j => repeat j (f j)) (seq a n)) i
  = if (a <=? i) && (i <? a + n) then f i else 0.
Proof.
  revert a. induction n as [|n IH]; intros a; cbn [seq flat_map].
  - destruct (Nat.leb_spec a i), (Nat.ltb_spec i (a + 0)); simpl; try reflexivity; lia.
  - rewrite count_occ_app, IH.
    destruct (Nat.eq_dec a i) as [->|Hne].
    + rewrite count_occ_repeat_eq by reflexivity.
      destruct (Nat.leb_spec (S i) i); [lia|].
      destruct (Nat.leb_spec i i); [|lia].
      destruct (Nat.ltb_spec i (i + S n)); [|lia]. simpl. lia.
    + rewrite count_occ_repeat_neq by (intros Heq; apply Hne; symmetry; exact Heq).
      destruct (Nat.leb_spec (S a) i), (Nat.leb_spec a i),
        (Nat.ltb_spec i (S a + n)), (Nat.ltb_spec i (a + S n)); simpl;
        try reflexivity; lia.
Qed.

(** The members of a class in a slice of the sorted labels are the
    positions of the class with the residue of the slice. *)
Lemma class_slice_count (k i c0 c1 cc : nat) :
  i < k -> cc <= 1 ->
  count_occ Nat.eq_dec (np.slice_step i k (repeat 0 c0 ++ repeat 1 c1)) cc
  = length (filter (fun p => p mod k =? i)
              (if cc =? 0 then seq 0 c0 else seq c0 c1)).
Proof.
  intros Hi Hcc. rewrite (slice_step_nth 0) by exact Hi.
  rewrite count_occ_map_filter, length_app, !repeat_length, seq_app, !filter_app,
    length_app.
  set (l := repeat 0 c0 ++ repeat 1 c1).
  assert (H0 : forall s, Forall (fun p => p < c0) s ->
             filter (fun p => nth p l 0 =? cc) s = if cc =? 0 then s else []).
  { induction 1 as [|p s Hp _ IHs]; cbn [filter]; [destruct (cc =? 0); reflexivity|].
    unfold l at 1. rewrite app_nth1 by (rewrite repeat_length; exact Hp).
    rewrite nth_repeat_lt by exact Hp. rewrite IHs.
    destruct cc as [|[|cc]]; [reflexivity | reflexivity | lia]. }
  assert (H1 : forall s, Forall (fun p => c0 <= p < c0 + c1) s ->
             filter (fun p => nth p l 0 =? cc) s = if cc =? 0 then [] else s).
  { induction 1 as [|p s Hp _ IHs]; cbn [filter]; [destruct (cc =? 0); reflexivity|].
    unfold l at 1. rewrite app_nth2 by (rewrite repeat_length; lia).
    rewrite repeat_length, nth_repeat_lt by lia. rewrite IHs.
    destruct cc as [|[|cc]]; [reflexivity | reflexivity | lia]. }
  rewrite H0, H1.
  - destruct (cc =? 0); simpl; lia.
  - apply Forall_forall. intros p Hp. apply filter_In in Hp.
    destruct Hp as [Hp _]. apply in_seq in Hp. lia.
  - apply Forall_forall. intros p Hp. apply filter_In in Hp.
    destruct Hp as [Hp _]. apply in_seq in Hp. lia.
Qed.

(** Counting the members of a class in a fold, and the fold among the
    fold numbers of the class, is counting the same samples. *)
Lemma count_class_in_fold (code : bool -> nat) (c : bool) (i : nat)
  (y : list bool) (tf : list nat) :
  (forall b, (code c =? code b) = Bool.eqb b c) ->
  length tf = length y ->
  count_occ Nat.eq_dec (np.select (map (Nat.eqb (code c)) (map code y)) tf) i
  = sklearn.count c (np.select (map (Nat.eqb i) tf) y).
Proof.
  intros Hcode. unfold sklearn.count. revert tf.
  induction y as [|b y IH]; intros [|f tf] Hlen; try discriminate; [reflexivity|].
  cbn [map np.select]. rewrite Hcode.
  assert (Hrec := IH tf ltac:(simpl in Hlen; lia)).
  destruct (Nat.eqb_spec i f) as [<-|Hne], b, c; cbn [Bool.eqb count_occ];
    repeat (destruct (Nat.eq_dec _ _); try congruence);
    repeat (destruct (bool_dec _ _); try congruence); rewrite Hrec; reflexivity.
Qed.

Lemma count_select_le (c : bool) (mask : list bool) (y : list bool) :
  sklearn.count c (np.select mask y) <= sklearn.count c y.
Proof.
  unfold sklearn.count. revert y.
  induction mask as [|m mask IH]; intros [|b y]; simpl; try lia.
  specialize (IH y).
  destruct m; simpl; destruct (bool_dec b c); lia.
Qed.

Section Stratified.
Context {G : Type} `{np.RandomGen G}.

(** The members of a class in the test fold [i] are as many as the
    numbers with the residue [i] among as many consecutive numbers as
    the class has members. *)
Lemma test_fold_class_count (kf : sklearn.StratifiedKFold) (y : list bool) (rng : G) r
  (c : bool) :
  sklearn.make_test_folds kf y rng = Some r ->
  exists a, forall i, i < sklearn.n_splits kf ->
    sklearn.count c (np.select (map (Nat.eqb i) (fst r)) y)
    = length (filter (fun p => p mod sklearn.n_splits kf =? i)
                (seq a (sklearn.count c y))).
Proof.
  intros Hr.
  destruct (Nat.eq_dec (sklearn.count c y) 0) as [Hzero|Hpos].
  { exists 0. intros i _. rewrite Hzero. simpl.
    pose proof (count_select_le c (map (Nat.eqb i) (fst r)) y). lia. }
  unfold sklearn.make_test_folds in Hr.
  destruct (forallb _ _); [discriminate|]. inversion Hr; subst r; clear Hr.
  set (k := sklearn.n_splits kf) in *.
  destruct y as [|first y']; [simpl in Hpos; congruence|].
  set (y := first :: y') in *.
  set (code := fun b => if Bool.eqb b first then 0 else 1).
  assert (Hye : sklearn.encode y = map code y) by reflexivity.
  set (ye := sklearn.encode y) in *.
  set (cc := code c).
  assert (Hcc : cc <= 1) by (unfold cc, code; destruct (Bool.eqb c first); lia).
  assert (Hcount : count_occ Nat.eq_dec ye cc = sklearn.count c y).
  { rewrite Hye. unfold cc, code.
    destruct (Bool.eqb c first) eqn:Hcf.
    - apply eqb_prop in Hcf. subst c. apply count_encode.
    - rewrite count_encode_other. f_equal. destruct c, first; simpl in *; congruence. }
  assert (Hnc : cc < sklearn.n_classes ye).
  { assert (Hin : In cc ye) by (apply (count_occ_In Nat.eq_dec); lia).
    unfold sklearn.n_classes. destruct ye as [|e ye'] eqn:He; [destruct Hin|].
    rewrite <- He in *.
    pose proof (proj1 (list_max_le ye (list_max ye)) (le_n _)) as Hall.
    rewrite Forall_forall in Hall. specialize (Hall cc Hin). lia. }
  assert (Hlen : length (repeat 0 (length y)) = length ye)
    by (rewrite repeat_length, Hye, length_map; reflexivity).
  exists (if cc =? 0 then 0 else count_occ Nat.eq_dec ye 0).
  intros i Hi.
  pose proof (assign_folds_class kf (sklearn.allocation k ye) ye
                (seq 0 (sklearn.n_classes ye)) (repeat 0 (length y)) rng cc
                (seq_NoDup _ _) (proj2 (in_seq _ _ _) (conj (Nat.le_0_l _) Hnc)) Hlen)
    as Hperm.
  assert (Hk : 0 < k) by lia.
  specialize (Hperm (fun c' Hc' =>
                       folds_for_class_length k ye c' Hk
                         (proj2 (proj1 (in_seq _ _ _) Hc')))).
  set (tf := fst (sklearn.assign_folds kf (sklearn.allocation k ye) ye
                    (seq 0 (sklearn.n_classes ye)) (repeat 0 (length y)) rng)) in *.
  assert (Htf : length tf = length y).
  { unfold tf. rewrite assign_folds_length, repeat_length. reflexivity. }
  cbn [fst]. fold tf.
  rewrite <- (count_class_in_fold code c i y tf).
  - fold cc. rewrite <- Hye.
    rewrite (Permutation_count_occ Nat.eq_dec) in Hperm. rewrite Hperm.
    unfold sklearn.folds_for_class. rewrite count_flat_repeat.
    fold k.
    replace ((0 <=? i) && (i <? 0 + k)) with true
      by (symmetry; apply andb_true_iff; split;
          [apply Nat.leb_le | apply Nat.ltb_lt]; lia).
    rewrite allocation_nth by assumption.
    rewrite (isort_01 ye (encode_le y)).
    rewrite class_slice_count by assumption.
    rewrite <- Hcount.
    destruct cc as [|[|cc']]; [reflexivity | reflexivity | lia].
  - intros b. unfold code. destruct b, c, first; reflexivity.
  - exact Htf.
Qed.

(** The test fold [i] holds the [k]-th part of every class, rounded
    down or up. *)
Lemma test_folds_balanced (kf : sklearn.StratifiedKFold) (y : list bool) (rng : G) r :
  sklearn.make_test_folds kf y rng = Some r ->
  forall i c, i < sklearn.n_splits kf ->
    let m := sklearn.count c (np.select (map (Nat.eqb i) (fst r)) y) in
    sklearn.count c y < (m + 1) * sklearn.n_splits kf /\
    m * sklearn.n_splits kf < sklearn.count c y + sklearn.n_splits kf.
Proof.
  intros Hr i c Hi m.
  destruct (test_fold_class_count kf y rng r c Hr) as [a Ha].
  unfold m. rewrite (Ha i Hi).
  apply (residue_count_bounds (sklearn.n_splits kf) i Hi).
Qed.

(** A class with fewer members than there are folds is missing from the
    test part of some fold. *)
Lemma test_fold_without_class (kf : sklearn.StratifiedKFold) (y : list bool) (rng : G) r
  (c : bool) :
  sklearn.make_test_folds kf y rng = Some r ->
  sklearn.count c y < sklearn.n_splits kf ->
  exists i, i < sklearn.n_splits kf /\
            sklearn.count c (np.select (map (Nat.eqb i) (fst r)) y) = 0.
Proof.
  intros Hr Hfew.
  destruct (test_fold_class_count kf y rng r c Hr) as [a Ha].
  set (k := sklearn.n_splits kf) in *. set (n := sklearn.count c y) in *.
  assert (Hk : k <> 0) by lia.
  exists ((a + n) mod k).
  assert (Hi : (a + n) mod k < k) by (apply Nat.mod_upper_bound; exact Hk).
  split; [exact Hi|]. rewrite (Ha _ Hi).
  rewrite filter_none; [reflexivity|].
  intros p Hp. apply in_seq in Hp. apply Nat.eqb_neq. intros Heq.
  pose proof (Nat.div_mod_eq p k) as Ep.
  pose proof (Nat.div_mod_eq (a + n) k) as En.
  rewrite Heq in Ep.
  assert (Hd : a + n - p = k * ((a + n) / k - p / k)) by nia.
  assert (Hq : (a + n) / k - p / k = 0 \/ 1 <= (a + n) / k - p / k) by lia.
  destruct Hq as [Hq|Hq]; [rewrite Hq in Hd; lia | nia].
Qed.

End Stratified.

Section StratifiedCrossValidation.
Context {G E : Type} `{np.RandomGen G} `{sklearn.Estimator G E}.

(** X23: stratification.  In every fold that [cross_validate] uses, the
    test part holds the [k]-th part of either class, rounded down or up:
    with [n] samples of a class in the data and [m] of them in the test
    part, [m] is more than [n/k - 1] and less than [n/k + 1]. *)
Theorem folds_keep_class_proportions C max_iter (X : list (list Q)) (y : list bool)
  (kf : sklearn.StratifiedKFold) (g : G) (r : sklearn.cv_results E * G) :
  sklearn.cross_validate C max_iter X y kf g = Some r ->
  forall fold c, In fold (sklearn.indices (fst r)) ->
    exists y_test,
      np.take y (snd fold) = Some y_test /\
      sklearn.count c y < (sklearn.count c y_test + 1) * sklearn.n_splits kf /\
      sklearn.count c y_test * sklearn.n_splits kf
      < sklearn.count c y + sklearn.n_splits kf.
Proof.
  intros Hr fold c Hfold.
  apply cross_validate_shape in Hr.
  destruct Hr as (_ & _ & _ & g0 & tf & Htf & Hind).
  rewrite Hind in Hfold. apply In_nth_error in Hfold. destruct Hfold as [i Hi].
  apply folds_of_nth in Hi. destruct Hi as [Hi ->]. cbn [snd].
  exists (np.select (map (Nat.eqb i) (fst tf)) y). split.
  - apply take_where. rewrite length_map. apply (make_test_folds_length kf y g0 tf Htf).
  - apply (test_folds_balanced kf y g0 tf Htf i c Hi).
Qed.

Lemma roc_auc_one_class (c : bool) (y_true : list bool) (y_score : list Q) :
  sklearn.count c y_true = 0 -> sklearn.roc_auc_score y_true y_score = None.
Proof.
  intros Hc. unfold sklearn.roc_auc_score.
  assert (Hnone : forall f : bool * Q -> bool,
             (forall p, f p = Bool.eqb (fst p) c) ->
             filter f (combine y_true y_score) = []).
  { intros f Hf. apply filter_none. intros [b q] Hp. rewrite Hf.
    apply in_combine_l in Hp. unfold sklearn.count in Hc. cbn [fst].
    destruct (Bool.eqb b c) eqn:Hpc; [|reflexivity].
    apply eqb_prop in Hpc. subst c.
    apply (count_occ_In bool_dec) in Hp. lia. }
  destruct c.
  - rewrite (Hnone (fun p => fst p)); [reflexivity|].
    intros [[|] q]; reflexivity.
  - rewrite (Hnone (fun p => negb (fst p))).
    + cbn [map]. destruct (map snd _); reflexivity.
    + intros [[|] q]; reflexivity.
Qed.

Lemma mean_with_nan (l : list (option Q)) :
  In None l -> np.mean l = None /\ np.var_ddof1 l = None.
Proof.
  intros Hin.
  assert (Hall : np.all_finite l = None).
  { induction l as [|o t IH]; [destruct Hin|]. simpl.
    destruct o as [x|]; [|reflexivity].
    destruct Hin as [Hin|Hin]; [discriminate|]. rewrite (IH Hin). reflexivity. }
  unfold np.mean, np.var_ddof1. rewrite Hall. split; reflexivity.
Qed.

(** A cross-validation on a class with fewer members than folds has a
    fold whose AUROC is NaN. *)
Lemma cross_validate_rare_class C max_iter (X : list (list Q)) (y : list bool)
  (kf : sklearn.StratifiedKFold) (g : G) (r : sklearn.cv_results E * G) (c : bool) :
  sklearn.cross_validate C max_iter X y kf g = Some r ->
  sklearn.count c y < sklearn.n_splits kf ->
  In None (sklearn.test_roc_auc (fst r)).
Proof.
  intros Hr Hfew. apply cross_validate_inv in Hr.
  destruct Hr as (sp & rs & Hsp & Hrs & _ & _ & Hauc & _).
  apply split_inv in Hsp. destruct Hsp as (_ & g0 & tf & Htf & Hfolds).
  destruct (test_fold_without_class kf y g0 tf c Htf Hfew) as (i & Hi & Hzero).
  apply fit_folds_inv in Hrs. rewrite Hfolds in Hrs.
  assert (Hfold : nth_error (sklearn.folds_of (sklearn.n_splits kf) (fst tf)) i
                  = Some (np.where_ (map negb (map (Nat.eqb i) (fst tf))),
                          np.where_ (map (Nat.eqb i) (fst tf)))).
  { unfold sklearn.folds_of. rewrite nth_error_map.
    rewrite (nth_error_nth' _ 0) by (rewrite length_seq; exact Hi).
    rewrite seq_nth by exact Hi. reflexivity. }
  destruct (Forall2_nth _ _ _ _ _ Hrs Hfold) as (ri & Hri & g1 & g2 & Hfs).
  apply fit_and_score_inv in Hfs. destruct Hfs as (Xte & yte & _ & Hyte & _ & Hscore).
  cbn [fst snd] in Hyte, Hscore.
  rewrite take_where in Hyte
    by (rewrite length_map; apply (make_test_folds_length kf y g0 tf Htf)).
  inversion Hyte; subst yte.
  rewrite (roc_auc_one_class c _ _ Hzero) in Hscore.
  rewrite Hauc, <- Hscore. apply in_map_iff. exists ri.
  split; [reflexivity | eapply nth_error_In; exact Hri].
Qed.

(** X24: a class with fewer members than there are folds.  When the
    sweep returns on such data, some fold of every cross-validation has
    no member of the class in its test part, its AUROC is NaN, and so
    are the mean and the standard deviation of the AUROC in every row of
    the table. *)
Theorem sweep_rare_class_auroc_nan
  (X : list (list Q)) (y : list bool) (k : nat) (lambda_vals : list Q)
  (max_iter : nat) (seed : Z) (g : G) d rows g' (c : bool) :
  Lasso.sweep X y k lambda_vals max_iter seed g = Some ((d, rows), g') ->
  sklearn.count c y < k ->
  Forall (fun row => Lasso.mean_roc_auc row = None /\ Lasso.var_roc_auc row = None)
    rows.
Proof.
  intros Hsw Hfew. apply sweep_inv in Hsw. destruct Hsw as (Hk & Hloop & Hagg).
  assert (Hd : Forall (fun kv : Q * sklearn.cv_results E =>
                         In None (sklearn.test_roc_auc (snd kv))) d).
  { apply (sweep_loop_Forall (fun cv => In None (sklearn.test_roc_auc cv))
             lambda_vals max_iter X y
             {| sklearn.n_splits := k; sklearn.shuffle := true;
                sklearn.random_state_of := sklearn.rs_int seed |} [] g (d, g'));
      [|constructor | exact Hloop].
    intros C g0 r Hr. apply (cross_validate_rare_class _ _ _ _ _ _ _ c Hr). exact Hfew. }
  destruct (aggregate_metrics_some d) as (rows' & Hrows' & _ & Hall).
  rewrite Hagg in Hrows'. inversion Hrows'; subst rows'.
  eapply Forall_impl; [|exact Hall].
  intros row (cv & Hcv & ->). simpl.
  apply mean_with_nan.
  apply in_map_iff in Hcv. destruct Hcv as (kv & <- & Hkv).
  rewrite Forall_forall in Hd. exact (Hd kv Hkv).
Qed.

End StratifiedCrossValidation.

Lemma folds_keep_class_proportions_witness :
  let kf := {| sklearn.n_splits := 3; sklearn.shuffle := true;
               sklearn.random_state_of := sklearn.rs_int 1 |} in
  let y := Reference.toy_y 10 in
  exists r : sklearn.cv_results (list Q) * nat,
    sklearn.cross_validate (np.fin 1) 100 (Reference.toy_X 10 2) y kf 0 = Some r /\
    forall fold c, In fold (sklearn.indices (fst r)) ->
      exists y_test,
        np.take y (snd fold) = Some y_test /\
        sklearn.count c y < (sklearn.count c y_test + 1) * 3 /\
        sklearn.count c y_test * 3 < sklearn.count c y + 3.
Proof.
  intros kf y.
  destruct (sklearn.cross_validate (np.fin 1) 100 (Reference.toy_X 10 2) y kf 0) as [r|] eqn:Hr;
    [|vm_compute in Hr; discriminate].
  exists r. split; [reflexivity|].
  exact (folds_keep_class_proportions (np.fin 1) 100 (Reference.toy_X 10 2) y kf 0 r Hr).
Defined.

Lemma sweep_rare_class_auroc_nan_witness :
  let X := [[1]; [1]; [-(1)]; [-(1)]; [-(1)]; [-(1)]; [-(1)]]%Q in
  let y := [true; true; false; false; false; false; false] in
  exists d rows g',
    Lasso.sweep X y 3 [1]%Q 100 1%Z 0 = Some ((d, rows), g') /\
    sklearn.count true y < 3 /\
    rows <> [] /\
    Forall (fun row => Lasso.mean_roc_auc row = None /\ Lasso.var_roc_auc row = None)
      rows.
Proof.
  intros X y.
  destruct (Lasso.sweep X y 3 [1]%Q 100 1%Z 0) as [[[d rows] g']|] eqn:Hs;
    [|vm_compute in Hs; discriminate].
  exists d, rows, g'. split; [reflexivity|].
  assert (Hfew : sklearn.count true y < 3) by (vm_compute; lia).
  split; [exact Hfew|]. split.
  - intros ->. vm_compute in Hs. discriminate.
  - exact (sweep_rare_class_auroc_nan X y 3 [1]%Q 100 1%Z 0 d rows g' true Hs Hfew).
Defined.
